(** * SlideRule.py: graduation density, transforms and layout alignment

    A shallow embedding of the parts of [SlideRule.py] that decide how a
    slide-rule scale is graduated and how a layout is parsed and aligned:
    the tick-factor catalog and [t_s], the [ScaleFN]/[Scale] data model,
    [Renderer.pat] and [Renderer.pat_auto], [sig_digit_of], and the
    [Layout] class.

    Conventions of the embedding.
    - Python [int] is [Z]; [//] and [%] on ints are [Z.div] and [Z.modulo]
      (both round toward minus infinity, as Python does).
    - Python [float] is modelled by the real numbers [R]: rounding error,
      overflow ([OverflowError] from [math.pow] and [math.exp]) and
      underflow to zero are not represented, every other behaviour (domain
      errors, division by zero, truncation by [int], [math.ceil], [round])
      is.  A statement that a transform returns a value, or a positive
      one, is made on a range of inputs on which the float computation
      neither overflows nor underflows.
    - A Python exception is a value of [exn]; code that can raise returns
      [res A].
    - [str], [dict] and [set] are [string], association lists or [gmap], and
      [gset]. *)

From Stdlib Require Import Reals Lra Lia ZArith List Ascii String DecimalString.
From stdpp Require Import gmap strings.

Import ListNotations.
Local Open Scope Z_scope.

(** ** Exceptions *)

Inductive exn : Type :=
| ValueError (msg : string)
| ZeroDivisionError
| AttributeError
| KeyError
| IndexError
| TypeError.

Inductive res (A : Type) : Type :=
| Ok (a : A)
| Raise (e : exn).
Arguments Ok {A} a.
Arguments Raise {A} e.

Definition rbind {A B} (c : res A) (k : A -> res B) : res B :=
  match c with Ok a => k a | Raise e => Raise e end.

Notation "'let*' x := c 'in' k" := (rbind c (fun x => k))
  (at level 10, x name, c at level 100, k at level 200).
Notation "'let*' ' p := c 'in' k" :=
  (rbind c (fun x => match x with p => k end))
  (at level 10, p pattern, c at level 100, k at level 200).

Definition is_ok {A} (c : res A) : Prop := exists a, c = Ok a.

(** ** Integer operators that raise *)

Definition floordiv (a b : Z) : res Z :=
  if b =? 0 then Raise ZeroDivisionError else Ok (a / b).

Definition pymod (a b : Z) : res Z :=
  if b =? 0 then Raise ZeroDivisionError else Ok (a mod b).

(** ** Tick factors (section 2 of the source) *)

Definition TickFactors : Type := Z * Z * Z.

(** [TF_BY_MIN]: the dict literal, in insertion order. *)
Definition TF_BY_MIN : list (Z * TickFactors) :=
  [ (500, (10, 10, 5));
    (250, (10, 5, 5));
    (100, (10, 2, 5));
    (50, (2, 5, 5));
    (25, (1, 5, 5));
    (20, (2, 5, 2));
    (10, (2, 5, 1));
    (5, (1, 5, 1));
    (2, (1, 2, 1));
    (1, (1, 1, 1)) ].

(** [d[k]] on a dict: [KeyError] when the key is absent. *)
Fixpoint dict_get {V} (d : list (Z * V)) (k : Z) : res V :=
  match d with
  | [] => Raise KeyError
  | (k', v) :: d' => if k' =? k then Ok v else dict_get d' k
  end.

(** [sorted(xs, reverse=True)] on ints. *)
Fixpoint insert_desc (x : Z) (l : list Z) : list Z :=
  match l with
  | [] => [x]
  | y :: l' => if y <? x then x :: l else y :: insert_desc x l'
  end.

Definition sorted_reverse (l : list Z) : list Z :=
  fold_left (fun acc x => insert_desc x acc) l [].

Definition TF_MIN : list Z := sorted_reverse (map fst TF_BY_MIN).

Definition TF_BIN : TickFactors := (4, 4, 4).

(** [t_s]: tick iterative subdivision. *)
Definition t_s (s1 : Z) (f : TickFactors) : res (Z * Z * Z * Z) :=
  let '(f0, f1, f2) := f in
  let* s2 := if f0 =? 1 then Ok s1 else floordiv s1 f0 in
  let* s3 := if f1 =? 1 then Ok s2 else floordiv s2 f1 in
  let* s4 := if f2 =? 1 then Ok s3 else floordiv s3 f2 in
  Ok (s1, s2, s3, s4).

(** ** Floats and the [math] module *)

Local Open Scope R_scope.

Definition math_floor (x : R) : Z := Int_part x.

Definition math_ceil (x : R) : Z := (- Int_part (- x))%Z.

(** [int(x)] on a float truncates toward zero. *)
Definition py_int (x : R) : Z :=
  if Rle_dec 0 x then math_floor x else math_ceil x.

(** [round(x)] on a float: to the nearest int, ties to the even one. *)
Definition py_round (x : R) : Z :=
  let f := math_floor x in
  let d := x - IZR f in
  if Rlt_dec d (1 / 2) then f
  else if Rlt_dec (1 / 2) d then (f + 1)%Z
  else if Z.even f then f else (f + 1)%Z.

(** [x.is_integer()]. *)
Definition is_integer (x : R) : bool :=
  if Req_dec_T x (IZR (math_floor x)) then true else false.

(** [a / b], [a // b] and [a % b] on floats. *)
Definition truediv (a b : R) : res R :=
  if Req_dec_T b 0 then Raise ZeroDivisionError else Ok (a / b).

Definition float_floordiv (a b : R) : res Z :=
  if Req_dec_T b 0 then Raise ZeroDivisionError else Ok (math_floor (a / b)).

Definition float_mod (a b : R) : res R :=
  if Req_dec_T b 0 then Raise ZeroDivisionError
  else Ok (a - b * IZR (math_floor (a / b))).

Definition domain_error {A} : res A := Raise (ValueError "math domain error").

Definition log10 (x : R) : R := ln x / ln 10.

Definition math_log10 (x : R) : res R :=
  if Rlt_dec 0 x then Ok (log10 x) else domain_error.

Definition math_log (x : R) : res R :=
  if Rlt_dec 0 x then Ok (ln x) else domain_error.

Definition math_sqrt (x : R) : res R :=
  if Rle_dec 0 x then Ok (sqrt x) else domain_error.

Definition math_pow (x y : R) : R := Rpower x y.

Definition math_asin (x : R) : res R :=
  if Rle_dec (-1) x then if Rle_dec x 1 then Ok (asin x) else domain_error
  else domain_error.

Definition math_acos (x : R) : res R :=
  if Rle_dec (-1) x then if Rle_dec x 1 then Ok (acos x) else domain_error
  else domain_error.

Definition math_acosh (x : R) : res R :=
  if Rle_dec 1 x then Ok (ln (x + sqrt (x * x - 1))) else domain_error.

Definition math_atanh (x : R) : res R :=
  if Rlt_dec (-1) x then
    if Rlt_dec x 1 then Ok (ln ((1 + x) / (1 - x)) / 2) else domain_error
  else domain_error.

(** [math.hypot]; the float result is the larger argument itself when the
    other is too small to change it. *)
Definition math_hypot (x y : R) : R := sqrt (x * x + y * y).

Definition math_radians (x : R) : R := x * PI / 180.
Definition math_degrees (x : R) : R := x * 180 / PI.

(** Angular constants. *)
Definition TAU : R := 2 * PI.
Definition PI_HALF : R := PI / 2.
Definition DEG_FULL : Z := 360.
Definition DEG_SEMI : Z := DEG_FULL / 2.
Definition DEG_RT : Z := DEG_SEMI / 2.

Definition TEN : Z := 10.
Definition HUNDRED : Z := TEN * TEN.

(** ** Section 3 of the source: scale generating functions *)

Definition LOG_TEN : R := ln (IZR TEN).
Definition eps : R := 1e-20.

Definition unit (x : R) : res R := Ok x.
Definition gen_base (x : R) : res R := math_log10 x.

(** [math.pow(TEN, p)].  Over the real numbers it is total and positive;
    the float raises [OverflowError] for an exponent above 308 and is 0.0
    for an exponent below -324. *)
Definition pos_base (p : R) : res R := Ok (math_pow (IZR TEN) p).

Definition scale_sin_tan_radians (x : R) : res R :=
  gen_base (IZR HUNDRED * (sin x + tan x) / 2).

(** The opposite angle in degrees across a right triangle. *)
Definition angle_opp (x : R) : R := IZR DEG_RT - x.

(** A bound of [None] is the default: minus infinity for [min_x], plus
    infinity for [max_x]. *)
Definition clamp (x : R) (min_value max_value : option R) : R :=
  let y := match max_value with Some hi => Rmin x hi | None => x end in
  match min_value with Some lo => Rmax y lo | None => y end.

Record ScaleFN : Type := mkScaleFN {
  fn : R -> res R;
  inverse : R -> res R;
  fn_is_increasing : bool;
  min_x : option R;
  max_x : option R
}.

Definition clamp_input (f : ScaleFN) (x : R) : R :=
  clamp x (min_x f) (max_x f).

Definition inverted (f : ScaleFN) : ScaleFN :=
  mkScaleFN (inverse f) (fn f) (negb (fn_is_increasing f)) None None.

Definition position_of (f : ScaleFN) (value : R) : res R := fn f value.
Definition value_at (f : ScaleFN) (position : R) : res R := inverse f position.
Definition fn_value_at_start (f : ScaleFN) : res R := value_at f 0.
Definition fn_value_at_end (f : ScaleFN) : res R := value_at f 1.

(** [class ScaleFNs]: the catalog of transforms. *)
Module ScaleFNs.

Definition Unit := mkScaleFN unit unit true None None.
Definition F_to_C :=
  mkScaleFN (fun f => Ok ((f - 32) * 5 / 9)) (fun c => Ok ((c * 9 / 5) + 32))
    true None None.
Definition neper_to_db :=
  mkScaleFN (fun x_db => Ok (x_db / (20 / LOG_TEN)))
    (fun x_n => Ok (x_n * 20 / LOG_TEN)) true None None.

Definition Base := mkScaleFN gen_base pos_base true (Some eps) None.
Definition Square :=
  mkScaleFN (fun x => let* g := gen_base x in Ok (g / 2))
    (fun p => pos_base (p * 2)) true None None.
Definition Cube :=
  mkScaleFN (fun x => let* g := gen_base x in Ok (g / 3))
    (fun p => pos_base (p * 3)) true None None.
Definition Inverse :=
  mkScaleFN (fun x => let* g := gen_base x in Ok (1 - g))
    (fun p => pos_base (1 - p)) false (Some eps) None.
Definition InverseSquare :=
  mkScaleFN (fun x => let* g := gen_base x in Ok (1 - g / 2))
    (fun p => pos_base (1 - p * 2)) false (Some eps) None.
Definition SquareRoot :=
  mkScaleFN (fun x => let* g := gen_base x in Ok (g * 2))
    (fun p => pos_base (p / 2)) true (Some eps) None.
Definition CubeRoot :=
  mkScaleFN (fun x => let* g := gen_base x in Ok (g * 3))
    (fun p => pos_base (p / 3)) true (Some eps) None.
Definition Log10 :=
  mkScaleFN (fun x => Ok (x / IZR TEN)) (fun p => Ok (p * IZR TEN))
    true (Some eps) None.
Definition Ln :=
  mkScaleFN (fun x => Ok (x / LOG_TEN)) (fun p => Ok (p * LOG_TEN))
    true (Some eps) None.
Definition Sin :=
  mkScaleFN (fun x => gen_base (IZR TEN * sin (math_radians x)))
    math_asin true None None.
Definition CoSin :=
  mkScaleFN (fun x => gen_base (IZR TEN * cos (math_radians x)))
    math_acos false None None.
Definition Tan :=
  mkScaleFN (fun x => gen_base (IZR TEN * tan (math_radians x)))
    (fun p => let* b := pos_base p in Ok (atan b)) true None None.
Definition SinTan :=
  mkScaleFN (fun x => scale_sin_tan_radians (math_radians x))
    (fun p => let* b := pos_base p in Ok (atan b)) true None None.
Definition SinTanRadians :=
  mkScaleFN scale_sin_tan_radians
    (fun p => let* b := pos_base (math_degrees p) in Ok (atan b))
    true (Some 1e-5) None.
Definition CoTan :=
  mkScaleFN (fun x => gen_base (IZR TEN * tan (math_radians (angle_opp x))))
    (fun p => let* b := pos_base (angle_opp p) in Ok (atan b))
    false None None.
Definition SinH :=
  mkScaleFN (fun x => gen_base (sinh x))
    (fun p => let* b := pos_base p in Ok (arcsinh b)) true (Some eps) None.
Definition CosH :=
  mkScaleFN (fun x => gen_base (cosh x))
    (fun p => let* b := pos_base p in math_acosh b) true (Some eps) None.
Definition TanH :=
  mkScaleFN (fun x => gen_base (tanh x))
    (fun p => let* b := pos_base p in math_atanh b) true (Some eps) None.
Definition Pythagorean :=
  mkScaleFN
    (fun x => let* s := math_sqrt (1 - x ^ 2) in
              let* g := gen_base s in Ok (g + 1))
    (fun p => let* b := pos_base p in math_sqrt (1 - (b / 10) ^ 2))
    false (Some (-1 + 1e-16)) (Some (1 - 1e-16)).
Definition Chi :=
  mkScaleFN (fun x => Ok (x / PI_HALF)) (fun p => Ok (p * PI_HALF))
    true None None.
Definition Theta :=
  mkScaleFN (fun x => Ok (x / IZR DEG_RT)) (fun p => Ok (p * IZR DEG_RT))
    true None None.
Definition LogLog :=
  mkScaleFN (fun x => let* l := math_log x in gen_base l)
    (fun p => let* b := pos_base p in Ok (exp b))
    true (Some (1 + 1e-15)) None.
Definition LogLogNeg :=
  mkScaleFN (fun x => let* l := math_log x in gen_base (- l))
    (fun p => let* b := pos_base (- p) in Ok (exp b))
    false (Some eps) (Some (1 - 1e-16)).
Definition Hyperbolic :=
  mkScaleFN (fun x => let* s := math_sqrt (x ^ 2 - 1) in gen_base s)
    (fun p => let* b := pos_base p in Ok (math_hypot 1 b))
    true (Some (1 + 1e-15)) None.

(** The class attributes, in the order of the source. *)
Definition catalog : list (string * ScaleFN) :=
  [ ("Unit", Unit); ("F_to_C", F_to_C); ("neper_to_db", neper_to_db);
    ("Base", Base); ("Square", Square); ("Cube", Cube);
    ("Inverse", Inverse); ("InverseSquare", InverseSquare);
    ("SquareRoot", SquareRoot); ("CubeRoot", CubeRoot);
    ("Log10", Log10); ("Ln", Ln); ("Sin", Sin); ("CoSin", CoSin);
    ("Tan", Tan); ("SinTan", SinTan); ("SinTanRadians", SinTanRadians);
    ("CoTan", CoTan); ("SinH", SinH); ("CosH", CosH); ("TanH", TanH);
    ("Pythagorean", Pythagorean); ("Chi", Chi); ("Theta", Theta);
    ("LogLog", LogLog); ("LogLogNeg", LogLogNeg);
    ("Hyperbolic", Hyperbolic) ]%string.

End ScaleFNs.

(** [class Scale].  The fields [marks] and [numerals] (gauge marks and
    forced numerals, read only by the drawing dispatcher) are left out. *)
Record Scale : Type := mkScale {
  left_sym : string;
  right_sym : string;
  scaler : ScaleFN;
  gen_fn : R -> res R;
  pos_fn : R -> res R;
  shift : R;
  is_increasing : bool;
  key : string;
  on_slide : bool;
  opp_key : option string;
  mirror_key : option string;
  ex_start_value : option R;
  ex_end_value : option R;
  dividers : option (list R)
}.

(** The dataclass constructor followed by [__post_init__]: [gen_fn] and
    [pos_fn] are taken from the scaler, [is_increasing] and [key] default to
    the scaler's flag and to [left_sym]. *)
Definition new_Scale (left_sym right_sym : string) (scaler : ScaleFN)
    (shift : R) (is_increasing : option bool) (key : option string)
    (on_slide : bool) (opp_key mirror_key : option string)
    (ex_start_value ex_end_value : option R) (dividers : option (list R))
  : Scale :=
  mkScale left_sym right_sym scaler (fn scaler) (inverse scaler) shift
    (match is_increasing with Some b => b | None => fn_is_increasing scaler end)
    (match key with Some k => k | None => left_sym end)
    on_slide opp_key mirror_key ex_start_value ex_end_value dividers.

Definition frac_pos_of (sc : Scale) (x shift_adj : R) : res R :=
  let* g := gen_fn sc x in Ok (shift sc + shift_adj + g).

Definition value_at_frac_pos (sc : Scale) (frac_pos shift_adj : R) : res R :=
  pos_fn sc (frac_pos - shift sc - shift_adj).

Definition value_at_start (sc : Scale) : res R := value_at_frac_pos sc 0 0.
Definition value_at_end (sc : Scale) : res R := value_at_frac_pos sc 1 0.

Definition offset_between (sc : Scale) (x_start x_end scale_width : R)
  : res R :=
  let* pe := frac_pos_of sc (clamp_input (scaler sc) x_end) 0 in
  let* ps := frac_pos_of sc (clamp_input (scaler sc) x_start) 0 in
  Ok (Rabs (pe - ps) * scale_width).

Definition min_offset_for_delta (sc : Scale)
    (x_start x_end x_delta scale_width : R) : res R :=
  let* a := offset_between sc x_start (x_start + x_delta) scale_width in
  let* b := offset_between sc (x_end - x_delta) x_end scale_width in
  Ok (Rmin a b).

Definition scale_to (sc : Scale) (x scale_w shift_adj : R) : res Z :=
  let* p := frac_pos_of sc x shift_adj in Ok (py_round (scale_w * p)).

(** Keyword arguments of the constructor and of [dataclasses.replace]:
    [replace] copies every field, so it is a plain field update
    ([__post_init__] finds [key] and [is_increasing] already set). *)
Definition Scale_ (l r : string) (f : ScaleFN) : Scale :=
  new_Scale l r f 0 None None false None None None None None.

Definition with_left_sym (v : string) (s : Scale) : Scale :=
  mkScale v (right_sym s) (scaler s) (gen_fn s) (pos_fn s) (shift s)
    (is_increasing s) (key s) (on_slide s) (opp_key s) (mirror_key s)
    (ex_start_value s) (ex_end_value s) (dividers s).
Definition with_right_sym (v : string) (s : Scale) : Scale :=
  mkScale (left_sym s) v (scaler s) (gen_fn s) (pos_fn s) (shift s)
    (is_increasing s) (key s) (on_slide s) (opp_key s) (mirror_key s)
    (ex_start_value s) (ex_end_value s) (dividers s).
Definition with_shift (v : R) (s : Scale) : Scale :=
  mkScale (left_sym s) (right_sym s) (scaler s) (gen_fn s) (pos_fn s) v
    (is_increasing s) (key s) (on_slide s) (opp_key s) (mirror_key s)
    (ex_start_value s) (ex_end_value s) (dividers s).
Definition with_is_increasing (v : bool) (s : Scale) : Scale :=
  mkScale (left_sym s) (right_sym s) (scaler s) (gen_fn s) (pos_fn s)
    (shift s) v (key s) (on_slide s) (opp_key s) (mirror_key s)
    (ex_start_value s) (ex_end_value s) (dividers s).
Definition with_key (v : string) (s : Scale) : Scale :=
  mkScale (left_sym s) (right_sym s) (scaler s) (gen_fn s) (pos_fn s)
    (shift s) (is_increasing s) v (on_slide s) (opp_key s) (mirror_key s)
    (ex_start_value s) (ex_end_value s) (dividers s).
Definition with_on_slide (v : bool) (s : Scale) : Scale :=
  mkScale (left_sym s) (right_sym s) (scaler s) (gen_fn s) (pos_fn s)
    (shift s) (is_increasing s) (key s) v (opp_key s) (mirror_key s)
    (ex_start_value s) (ex_end_value s) (dividers s).
Definition with_opp_key (v : string) (s : Scale) : Scale :=
  mkScale (left_sym s) (right_sym s) (scaler s) (gen_fn s) (pos_fn s)
    (shift s) (is_increasing s) (key s) (on_slide s) (Some v) (mirror_key s)
    (ex_start_value s) (ex_end_value s) (dividers s).
Definition with_mirror_key (v : string) (s : Scale) : Scale :=
  mkScale (left_sym s) (right_sym s) (scaler s) (gen_fn s) (pos_fn s)
    (shift s) (is_increasing s) (key s) (on_slide s) (opp_key s) (Some v)
    (ex_start_value s) (ex_end_value s) (dividers s).
Definition with_ex_start_value (v : R) (s : Scale) : Scale :=
  mkScale (left_sym s) (right_sym s) (scaler s) (gen_fn s) (pos_fn s)
    (shift s) (is_increasing s) (key s) (on_slide s) (opp_key s)
    (mirror_key s) (Some v) (ex_end_value s) (dividers s).
Definition with_ex_end_value (v : R) (s : Scale) : Scale :=
  mkScale (left_sym s) (right_sym s) (scaler s) (gen_fn s) (pos_fn s)
    (shift s) (is_increasing s) (key s) (on_slide s) (opp_key s)
    (mirror_key s) (ex_start_value s) (Some v) (dividers s).
Definition with_dividers (v : list R) (s : Scale) : Scale :=
  mkScale (left_sym s) (right_sym s) (scaler s) (gen_fn s) (pos_fn s)
    (shift s) (is_increasing s) (key s) (on_slide s) (opp_key s)
    (mirror_key s) (ex_start_value s) (ex_end_value s) (Some v).
Definition with_ex (a b : R) (s : Scale) : Scale :=
  with_ex_end_value b (with_ex_start_value a s).

(** [pi_fold_shift = ScaleFNs.Inverse(PI)] and
    [shift_360 = ScaleFNs.Inverse(3.6)], which are [1 - log10] of a positive
    constant. *)
Definition pi_fold_shift : R := 1 - log10 PI.
Definition shift_360 : R := 1 - log10 3.6.

(** [class Scales]. *)
Module Scales.
Import ScaleFNs.

Definition A := with_opp_key "B" (Scale_ "A" "x²" Square).
Definition B :=
  with_opp_key "A" (with_on_slide true (Scale_ "B" "x²_y" Square)).
Definition BI := with_on_slide true (Scale_ "BI" "1/x²_y" InverseSquare).
Definition C :=
  with_opp_key "D" (with_on_slide true (Scale_ "C" "x_y" Base)).
Definition CF :=
  with_opp_key "DF" (with_on_slide true
    (with_shift pi_fold_shift (Scale_ "CF" "πx_y" Base))).
Definition DF :=
  with_opp_key "CF" (with_shift pi_fold_shift (Scale_ "DF" "πx" Base)).
Definition CI :=
  with_opp_key "DI" (with_on_slide true (Scale_ "CI" "1/x_y" Inverse)).
Definition CIF :=
  with_on_slide true
    (with_shift (pi_fold_shift - 1) (Scale_ "CIF" "1/πx_y" Inverse)).
Definition D := with_opp_key "C" (Scale_ "D" "x" Base).
Definition DI := with_opp_key "CI" (Scale_ "DI" "1/x" Inverse).
Definition K := Scale_ "K" "x³" Cube.
Definition L := Scale_ "L" "log x" Log10.
Definition Ln := Scale_ "Ln" "ln x" ScaleFNs.Ln.
Definition LL0 :=
  with_ex 1.00095 1.0105 (with_dividers [1.002; 1.004; 1.010]
    (with_key "LL0" (with_shift 3 (Scale_ "LL₀" "e^0.001x" LogLog)))).
Definition LL1 :=
  with_ex 1.0095 1.11 (with_dividers [1.02; 1.05; 1.10]
    (with_key "LL1" (with_shift 2 (Scale_ "LL₁" "e^0.01x" LogLog)))).
Definition LL2 :=
  with_ex 1.1 3 (with_dividers [1.2; 2]
    (with_key "LL2" (with_shift 1 (Scale_ "LL₂" "e^0.1x" LogLog)))).
Definition LL3 :=
  with_ex 2.5 1e5 (with_dividers [3; 6; 10; 50; 100; 1000; 10000]
    (with_key "LL3" (Scale_ "LL₃" "e^x" LogLog))).
Definition LL00 :=
  with_ex 0.989 0.9991 (with_dividers [0.998]
    (with_key "LL00" (with_shift 3 (Scale_ "LL₀₀" "e^-0.001x" LogLogNeg)))).
Definition LL01 :=
  with_ex 0.9 0.9906 (with_dividers [0.95; 0.98]
    (with_key "LL01" (with_shift 2 (Scale_ "LL₀₁" "e^-0.01x" LogLogNeg)))).
Definition LL02 :=
  with_ex 0.35 0.91 (with_dividers [0.8; 0.9]
    (with_key "LL02" (with_shift 1 (Scale_ "LL₀₂" "e^-0.1x" LogLogNeg)))).
Definition LL03 :=
  with_ex 1e-4 0.39 (with_dividers [5e-4; 1e-3; 1e-2; 0.1]
    (with_key "LL03" (Scale_ "LL₀₃" "e^-x" LogLogNeg))).
Definition P :=
  with_ex 0.1 0.995 (with_dividers [0.3; 0.6; 0.8; 0.9; 0.98; 0.99]
    (with_key "P" (Scale_ "P" "√1-(0.1x)²" Pythagorean))).
Definition R1 := with_key "R1" (Scale_ "R₁" "√x" SquareRoot).
Definition R2 :=
  with_shift (-1) (with_key "R2" (Scale_ "R₂" "√10x" SquareRoot)).
Definition S := with_mirror_key "CoS" (Scale_ "S" "∡sin x°" Sin).
Definition CoS :=
  with_mirror_key "S" (with_key "CoS" (Scale_ "C" "∡cos x°" CoSin)).
Definition ST := Scale_ "ST" "∡tan 0.01x°" SinTan.
Definition T := with_mirror_key "CoT" (Scale_ "T" "∡tan x°" Tan).
Definition CoT :=
  with_shift (-1) (with_mirror_key "T" (with_is_increasing true
    (with_key "CoT" (Scale_ "CoT" "∡cot x°" CoTan)))).
Definition T1 := with_key "T1" (with_left_sym "T₁" T).
Definition T2 :=
  with_mirror_key "CoT2" (with_shift (-1) (with_key "T2"
    (with_right_sym "∡tan 0.1x°" (with_left_sym "T₂" T)))).
Definition W1 :=
  with_ex 0.95 3.38 (with_dividers [1; 2] (with_opp_key "W1Prime"
    (with_key "W1" (Scale_ "W₁" "√x" SquareRoot)))).
Definition W1Prime :=
  with_opp_key "W1" (with_key "W1Prime" (with_left_sym "W'₁" W1)).
Definition W2 :=
  with_ex 3 10.66 (with_dividers [5] (with_opp_key "W2Prime"
    (with_shift (-1) (with_key "W2" (Scale_ "W₂" "√10x" SquareRoot))))).
Definition W2Prime :=
  with_opp_key "W2" (with_key "W2Prime" (with_left_sym "W'₂" W2)).

Definition H1 :=
  with_dividers [1.03; 1.1]
    (with_shift 1 (with_key "H1" (Scale_ "H₁" "√1+0.1x²" Hyperbolic))).
Definition H2 :=
  with_dividers [4] (with_key "H2" (Scale_ "H₂" "√1+x²" Hyperbolic)).
Definition Sh1 :=
  with_dividers [0.2; 0.4]
    (with_shift 1 (with_key "Sh1" (Scale_ "Sh₁" "sinh x" SinH))).
Definition Sh2 := with_key "Sh2" (Scale_ "Sh₂" "sinh x" SinH).
Definition Ch1 :=
  with_ex_start_value 0.01 (with_dividers [1; 2] (Scale_ "Ch" "cosh x" CosH)).
Definition Th :=
  with_ex_end_value 3 (with_dividers [0.2; 0.4; 1; 2]
    (with_shift 1 (Scale_ "Th" "tanh x" TanH))).

Definition Chi := Scale_ "χ" "" ScaleFNs.Chi.
Definition Theta := with_key "Theta" (Scale_ "θ" "°" ScaleFNs.Theta).
Definition f_x :=
  with_dividers [0.2; 0.5; 1]
    (with_shift (log10 TAU) (Scale_ "f_x" "x/2π" Base)).
Definition L_r :=
  with_ex 0.025 2.55 (with_dividers [0.05; 0.1; 0.2; 0.5; 1; 2]
    (with_shift (log10 (1 / TAU)) (Scale_ "L_r" "1/(2πx)²" InverseSquare))).

End Scales.

Definition Scales_attrs : list (string * Scale) :=
  [ ("A", Scales.A); ("B", Scales.B); ("BI", Scales.BI); ("C", Scales.C);
    ("CF", Scales.CF); ("DF", Scales.DF); ("CI", Scales.CI);
    ("CIF", Scales.CIF); ("D", Scales.D); ("DI", Scales.DI); ("K", Scales.K);
    ("L", Scales.L); ("Ln", Scales.Ln); ("LL0", Scales.LL0);
    ("LL1", Scales.LL1); ("LL2", Scales.LL2); ("LL3", Scales.LL3);
    ("LL00", Scales.LL00); ("LL01", Scales.LL01); ("LL02", Scales.LL02);
    ("LL03", Scales.LL03); ("P", Scales.P); ("R1", Scales.R1);
    ("R2", Scales.R2); ("S", Scales.S); ("CoS", Scales.CoS);
    ("ST", Scales.ST); ("T", Scales.T); ("CoT", Scales.CoT);
    ("T1", Scales.T1); ("T2", Scales.T2); ("W1", Scales.W1);
    ("W1Prime", Scales.W1Prime); ("W2", Scales.W2);
    ("W2Prime", Scales.W2Prime); ("H1", Scales.H1); ("H2", Scales.H2);
    ("Sh1", Scales.Sh1); ("Sh2", Scales.Sh2); ("Ch1", Scales.Ch1);
    ("Th", Scales.Th); ("Chi", Scales.Chi); ("Theta", Scales.Theta);
    ("f_x", Scales.f_x); ("L_r", Scales.L_r) ]%string.

(** ** Section 1 of the source: enums, fonts, geometry *)

Inductive FontSize := TITLE | SUBTITLE | SC_LBL | N_XL | N_LG | N_MD | N_SM | N_XS.

Definition FontSize_value (s : FontSize) : Z :=
  match s with
  | TITLE => 140 | SUBTITLE => 120 | SC_LBL => 90 | N_XL => 75
  | N_LG => 60 | N_MD => 55 | N_SM => 45 | N_XS => 35
  end.

Inductive FontStyle := REG | ITALIC | BOLD | BOLD_ITALIC.

Inductive Family := CMUTypewriter | CMUSansSerif | CMUConcrete | CMUBright.

(** What [Font.get_font] is called with; the loaded font itself belongs to
    the imaging library. *)
Record ImageFont : Type := mkFont {
  font_family_of : Family;
  font_fs : Z;
  font_style_of : FontStyle
}.

(** [Font.font_for]. *)
Definition Font_font_for (family : Family) (font_size : FontSize)
    (font_style : FontStyle) (h_ratio : option R) : ImageFont :=
  let fs := FontSize_value font_size in
  let fs :=
    match h_ratio with
    | Some h =>
        if Req_dec_T h 0 then fs
        else if Req_dec_T h 1 then fs else py_round (IZR fs * h)
    | None => fs
    end in
  mkFont family fs font_style.

(** [class Style]; the colour fields are left out, colours only reach the
    drawing calls. *)
Record Style : Type := mkStyle { font_family : Family }.

Definition Style_font_for (s : Style) (font_size : FontSize)
    (font_style : FontStyle) (h_ratio : option R) : ImageFont :=
  Font_font_for (font_family s) font_size font_style h_ratio.

(** Tick height size factors. *)
Inductive HMod := DOT | XS | SM | MED | LG | LG2 | XL.

Definition HMod_value (h : HMod) : R :=
  match h with
  | DOT => 0.25 | XS => 0.5 | SM => 0.85 | MED => 1
  | LG => 1.15 | LG2 => 1.2 | XL => 1.3
  end.

Inductive Side := FRONT | REAR.
Inductive RulePart := STATOR_TOP | SLIDE | STATOR_BOTTOM.

(** Scale alignment (ticks and labels against upper or lower bounds). *)
Inductive Align := UPPER | LOWER.

(** [class Geometry]: its instance attributes after [__init__]. *)
Record Geometry : Type := mkGeometry {
  side_w : Z;
  side_h : Z;
  oX : Z;
  oY : Z;
  SL : Z;
  SH : Z;
  STT : Z;
  STH : Z;
  slide_h : Z;
  top_margin : Z;
  scale_h_overrides : Side -> gmap string Z;
  margin_overrides : Side -> gmap string Z
}.

(** [Geometry.DEFAULT_SCALE_WH = (SL, SH)], bound in the class body to the
    class defaults (5600, 160). *)
Definition DEFAULT_SCALE_WH : Z * Z := (5600, 160)%Z.

Definition min_tick_offset (g : Geometry) : Z := (STT g * 3)%Z.

Definition tick_h (g : Geometry) (h_mod : option HMod) (h_ratio : option R)
  : Z :=
  let result := IZR (STH g) in
  let result :=
    match h_mod with Some m => result * HMod_value m | None => result end in
  let result :=
    match h_ratio with
    | Some h =>
        if Req_dec_T h 0 then result
        else if Req_dec_T h 1 then result else result * h
    | None => result
    end in
  py_round result.

(** [default or self.SH]. *)
Definition or_SH (g : Geometry) (dflt : option Z) : Z :=
  match dflt with
  | Some d => if (d =? 0)%Z then SH g else d
  | None => SH g
  end.

Definition scale_h (g : Geometry) (sc : Scale) (side : option Side)
    (dflt : option Z) : Z :=
  match side with
  | Some sd => default (or_SH g dflt) (scale_h_overrides g sd !! key sc)
  | None =>
      default
        (default (or_SH g dflt) (scale_h_overrides g REAR !! key sc))
        (scale_h_overrides g FRONT !! key sc)
  end.

Definition scale_h_ratio (g : Geometry) (sc : Scale) (side : option Side)
  : option R :=
  let h := scale_h g sc side None in
  let default_scale_h := snd DEFAULT_SCALE_WH in
  if (h =? default_scale_h)%Z then None
  else Some (IZR h / IZR default_scale_h).

Record Renderer : Type := mkRenderer {
  geometry : Geometry;
  style : Style
}.

(** ** Numerals *)

(** [range(start, stop, step)] on ints. *)
Definition py_range (start stop step : Z) : res (list Z) :=
  if (step =? 0)%Z then Raise (ValueError "range() arg 3 must not be zero")
  else
    let n :=
      if (0 <? step)%Z then ((stop - start + step - 1) / step)%Z
      else ((start - stop - step - 1) / (- step))%Z in
    Ok (map (fun k => (start + step * Z.of_nat k)%Z) (seq 0 (Z.to_nat n))).

(** [str(n)] on an int. *)
Definition int_str (n : Z) : string :=
  DecimalString.NilZero.string_of_int (Z.to_int n).

Definition digit_of_ascii (c : ascii) : option Z :=
  let n := Z.of_nat (nat_of_ascii c) in
  if ((48 <=? n) && (n <=? 57))%Z then Some (n - 48)%Z else None.

(** [int(s[0])] and [int(s[-1])]: the character must be a decimal digit. *)
Definition int_of_char (c : option ascii) : res Z :=
  match c with
  | None => Raise IndexError
  | Some c =>
      match digit_of_ascii c with
      | Some d => Ok d
      | None => Raise (ValueError "invalid literal for int() with base 10")
      end
  end.

Definition first_char (s : string) : option ascii :=
  match s with EmptyString => None | String c _ => Some c end.

Fixpoint last_char (s : string) : option ascii :=
  match s with
  | EmptyString => None
  | String c EmptyString => Some c
  | String _ s' => last_char s'
  end.

(** What [sig_digit_of] returns and [draw_numeral] receives: an int or a
    float. *)
Inductive num : Type :=
| NInt (n : Z)
| NFloat (x : R).

Section Builtins.

(** [str(x)] on a float is Python's shortest round-trip representation; it
    is a builtin of the language and is taken as given. *)
Variable float_str : R -> string.

(** [Style.sym_width]: the width of the bounding box the imaging library
    reports for a string in a font. *)
Variable sym_width : string -> ImageFont -> Z.

(** First numeral in the digital representation of a number. *)
Definition first_digit_of (x : R) : res Z :=
  int_of_char (first_char (float_str x)).

(** Last numeral in the digital representation of a number. *)
Definition last_digit_of (x : R) : res Z :=
  if Req_dec_T (IZR (py_int x)) x
  then int_of_char (last_char (int_str (py_int x)))
  else int_of_char (last_char (float_str x)).

(** When only one digit will fit on a major scale's numerals, pick the
    most significant. *)
Definition sig_digit_of (n : R) : res num :=
  if negb (if Rlt_dec 0 n then is_integer (log10 n) else false) then
    let* m := float_mod n 10 in
    if Req_dec_T m 0 then let* d := first_digit_of n in Ok (NInt d)
    else if Rlt_dec n 1 then let* d := last_digit_of n in Ok (NInt d)
    else Ok (NFloat n)
  else let* d := first_digit_of n in Ok (NInt d).

(** ** [Renderer.pat] *)

(** The calls a pattern makes on the canvas: [draw_numeral] with the
    number, the pixel offset, the tick height it sits on and the font, and
    [draw_tick] with the pixel offset and the height.  The arguments
    [y_off], [al], the colour and the scale height are passed through to
    the canvas unchanged and are left out. *)
Inductive draw_op : Type :=
| DrawNumeral (n : num) (x : Z) (th : Z) (font : ImageFont)
| DrawTick (x : Z) (height : Z).

(** The [digit1] argument: one bool, or one per numbered level. *)
Inductive digit1_arg : Type :=
| D1Bool (b : bool)
| D1Tuple (b1 b2 b3 : bool).

Definition digit1_list (d : digit1_arg) : bool * bool * bool :=
  match d with
  | D1Bool b => (b, false, false)
  | D1Tuple b1 b2 b3 => (b1, b2, b3)
  end.

(** [s[1:]]. *)
Definition str_tail (s : string) : string :=
  match s with EmptyString => EmptyString | String _ t => t end.

(** [f'10^{int(expon)}'] when the exponent is a whole number beyond 2 in
    magnitude. *)
Definition expon_sym (expon : R) : option string :=
  if is_integer expon && (if Rlt_dec 2 (Rabs expon) then true else false)
  then Some ("10^" ++ int_str (py_int expon))%string
  else None.

(** [Renderer.draw_numeral], up to its closing call to [draw_sym_al]: the
    string handed to that call.  [math.log10] raises on a float that is
    whole and negative. *)
Definition numeral_sym (n : num) : res string :=
  match n with
  | NInt z => Ok (int_str z)
  | NFloat x =>
      if negb (is_integer x) then
        let num_sym := float_str x in
        if String.prefix "0." num_sym then
          let* expon := math_log10 x in
          match expon_sym expon with
          | Some s => Ok s
          | None => Ok (str_tail num_sym)
          end
        else Ok num_sym
      else if Req_dec_T x 0 then Ok "0"
      else
        let* expon := math_log10 x in
        match expon_sym expon with
        | Some s => Ok s
        | None => Ok (int_str (py_int x))
        end
  end.

(** [if font: self.draw_numeral(sig_digit_of(n) if digit1 else n, ...)]:
    the number is worked out, [draw_numeral] computes its symbol, which
    can raise, and the call is recorded with the number. *)
Definition numeral_ops (font : option ImageFont) (digit1 : bool) (n : R)
    (x th : Z) : res (list draw_op) :=
  match font with
  | Some f =>
      let* v := if digit1 then sig_digit_of n else Ok (NFloat n) in
      let* _ := numeral_sym v in
      Ok [DrawNumeral v x th f]
  | None => Ok []
  end.

(** One iteration of the loop of [pat]. *)
Definition pat_tick (sc : Scale) (scale_w i_sf : Z)
    (steps_i steps_th : Z * Z * Z * Z)
    (steps_font : option ImageFont * option ImageFont * option ImageFont)
    (digit1 : bool * bool * bool) (i : Z) : res (list draw_op) :=
  let '(step1, step2, step3, step4) := steps_i in
  let '(th1, th2, th3, th4) := steps_th in
  let '(font1, font2, font3) := steps_font in
  let '(d1, d2, d3) := digit1 in
  let* n := truediv (IZR i) (IZR i_sf) in
  let* x := scale_to sc n (IZR scale_w) 0 in
  let* m1 := pymod i step1 in
  if (m1 =? 0)%Z then
    let* ops := numeral_ops font1 d1 n x th1 in
    Ok (ops ++ [DrawTick x th1])
  else
    let* m2 := pymod i step2 in
    if (m2 =? 0)%Z then
      let* ops := numeral_ops font2 d2 n x th2 in
      Ok (ops ++ [DrawTick x th2])
    else
      let* m3 := pymod i step3 in
      if (m3 =? 0)%Z then
        let* ops := numeral_ops font3 d3 n x th3 in
        Ok (ops ++ [DrawTick x th3])
      else Ok [DrawTick x th4].

Fixpoint for_each {A B} (f : A -> res (list B)) (l : list A)
  : res (list B) :=
  match l with
  | [] => Ok []
  | a :: l' =>
      let* ops := f a in
      let* rest := for_each f l' in
      Ok (ops ++ rest)
  end.

(** Place ticks in a graduated pattern. *)
Definition pat (r : Renderer) (sc : Scale) (i_start i_end i_sf : Z)
    (steps_i steps_th : Z * Z * Z * Z)
    (steps_font : option ImageFont * option ImageFont * option ImageFont)
    (digit1 : digit1_arg) : res (list draw_op) :=
  let scale_w := SL (geometry r) in
  let d := digit1_list digit1 in
  let* idx := py_range i_start i_end (snd steps_i) in
  for_each (pat_tick sc scale_w i_sf steps_i steps_th steps_font d) idx.

(** ** [Renderer.pat_auto] *)

(** [not x] for an optional float argument: [None] and zero are falsy. *)
Definition falsy (x : option R) : bool :=
  match x with
  | None => true
  | Some v => if Req_dec_T v 0 then true else false
  end.

(** The two endpoint guards and the swap that open [pat_auto]. *)
Definition endpoints (sc : Scale) (x_start x_end : option R) : res (R * R) :=
  let* x_start :=
    if falsy x_start then value_at_start sc else Ok (default 0 x_start) in
  let* x_end :=
    if falsy x_end then value_at_end sc else Ok (default 0 x_end) in
  if Rlt_dec x_end x_start then Ok (x_end, x_start) else Ok (x_start, x_end).

(** The condition of the generator in [next(...)]: the key may not exceed
    [step_num], and the gap realised by the finest step must reach the
    minimum tick offset.  [and] does not evaluate the gap when the first
    test fails. *)
Definition sub_div_ok (sc : Scale) (mto : Z) (x_start x_end : R)
    (step_num sf scale_w : Z) (i : Z) : res bool :=
  if (i <=? step_num)%Z then
    let* gap :=
      min_offset_for_delta sc x_start x_end
        (IZR step_num / IZR i / IZR sf) (IZR scale_w) in
    Ok (if Rle_dec (IZR mto) gap then true else false)
  else Ok false.

(** [next((TF_BY_MIN[i] for i in keys if ok(i)), TF_BY_MIN[1])]. *)
Fixpoint next_sub_div (ok : Z -> res bool) (keys : list Z)
  : res TickFactors :=
  match keys with
  | [] => dict_get TF_BY_MIN 1
  | i :: keys' =>
      let* b := ok i in
      if b then dict_get TF_BY_MIN i else next_sub_div ok keys'
  end.

(** The values [pat_auto] computes before its closing call to [pat], and
    the arguments of that call. *)
Record auto_plan : Type := mkPlan {
  p_x_start : R;
  p_x_end : R;
  p_sf : Z;
  p_step_num : Z;
  p_sub_div4 : TickFactors;
  p_max_num_chars : Z;
  p_sub_num : bool;
  p_i_start : Z;
  p_i_end : Z;
  p_steps_i : Z * Z * Z * Z;
  p_steps_th : Z * Z * Z * Z;
  p_steps_font : option ImageFont * option ImageFont * option ImageFont;
  p_digit1 : digit1_arg
}.

Definition pat_auto_plan (r : Renderer) (sc : Scale)
    (x_start x_end : option R) (include_last : bool) : res auto_plan :=
  let* '(x_start, x_end) := endpoints sc x_start x_end in
  let g := geometry r in
  let mto := min_tick_offset g in
  let* q := truediv (x_end - x_start) (Rmax x_start x_end) in
  let* lq := math_log10 (Rabs q) in
  let log_diff := Rabs lq in
  let num_digits := (math_ceil log_diff + 3)%Z in
  let scale_w := SL g in
  let sf := (10 ^ num_digits)%Z in
  let* frac_w := offset_between sc x_start x_end 1 in
  let* ld := math_log10 (x_end - x_start) in
  let step_num :=
    (10 ^ Z.max (py_int (ld - 0.5 * frac_w) + num_digits) 0)%Z in
  let* sub_div4 :=
    next_sub_div (sub_div_ok sc mto x_start x_end step_num sf scale_w)
      TF_MIN in
  let* '(_, step2, step3, step4) := t_s step_num sub_div4 in
  let i_start := py_int (x_start * IZR sf) in
  let* i_offset := pymod i_start step4 in
  let i_start :=
    if (0 <? i_offset)%Z then (i_start - i_offset + step4)%Z else i_start in
  let scale_hf := scale_h_ratio g sc None in
  let s := style r in
  let num_font := Style_font_for s N_LG REG scale_hf in
  let* numeral_tick_offset :=
    min_offset_for_delta sc x_start x_end (IZR step_num / IZR sf)
      (IZR scale_w) in
  let* max_num_chars :=
    float_floordiv numeral_tick_offset (IZR (sym_width "_" num_font)) in
  let num_font :=
    if (max_num_chars <? 2)%Z then Style_font_for s N_SM REG scale_hf
    else num_font in
  let sub_num :=
    ((step4 <? step3) && (step3 <? step_num) && (8 <? max_num_chars))%Z in
  let dot_th := tick_h g (Some DOT) scale_hf in
  Ok (mkPlan x_start x_end sf step_num sub_div4 max_num_chars sub_num
        i_start
        (py_int (x_end * IZR sf + (if include_last then 1 else 0)))
        (step_num, step2, step3, step4)
        (tick_h g (Some MED) scale_hf,
         tick_h g
           (Some (if ((step3 =? step_num / 2) && (step4 <? step3))%Z
                  then XL else XS)) scale_hf,
         (if (step4 <? step3)%Z then tick_h g (Some XS) scale_hf else dot_th),
         dot_th)
        (Some num_font,
         (if (sub_num && (step2 =? step_num / 10) || (step2 =? step_num / 2))%Z
          then Some (Style_font_for s N_SM REG scale_hf) else None),
         (if (sub_num && (step3 =? step_num / 10))%Z
          then Some (Style_font_for s N_XS REG scale_hf) else None))
        (D1Tuple (max_num_chars <? 3)%Z (max_num_chars <? 16)%Z
           (max_num_chars <? 128)%Z)).

(** Draw a graduated pattern of tick marks across the scale range, by
    algorithmic selection. *)
Definition pat_auto (r : Renderer) (sc : Scale) (x_start x_end : option R)
    (include_last : bool) : res (list draw_op) :=
  let* p := pat_auto_plan r sc x_start x_end include_last in
  pat r sc (p_i_start p) (p_i_end p) (p_sf p) (p_steps_i p) (p_steps_th p)
    (p_steps_font p) (p_digit1 p).

End Builtins.

(** ** [str] methods used by the layout grammar *)

Local Open Scope string_scope.
Local Open Scope Z_scope.

Definition ascii_in (c : ascii) (chars : string) : bool :=
  existsb (Ascii.eqb c) (list_ascii_of_string chars).

(** [c in s] for a one-character [c]. *)
Definition contains_char (c : ascii) (s : string) : bool := ascii_in c s.

Fixpoint lstrip_by (p : ascii -> bool) (s : string) : string :=
  match s with
  | EmptyString => EmptyString
  | String c s' => if p c then lstrip_by p s' else s
  end.

Fixpoint rstrip_by (p : ascii -> bool) (s : string) : string :=
  match s with
  | EmptyString => EmptyString
  | String c s' =>
      match rstrip_by p s' with
      | EmptyString => if p c then EmptyString else String c EmptyString
      | t => String c t
      end
  end.

Definition strip_by (p : ascii -> bool) (s : string) : string :=
  rstrip_by p (lstrip_by p s).

(** [s.strip(chars)]. *)
Definition strip_chars (chars : string) (s : string) : string :=
  strip_by (fun c => ascii_in c chars) s.

(** The characters [str.isspace] accepts among the first 128 code points:
    tab, line feed, vertical tab, form feed, carriage return, the four
    separators 28 to 31 and the space. *)
Definition is_space (c : ascii) : bool :=
  let n := Z.of_nat (nat_of_ascii c) in
  ((9 <=? n) && (n <=? 13)) || ((28 <=? n) && (n <=? 31)) || (n =? 32).

(** [s.strip()]. *)
Definition strip (s : string) : string := strip_by is_space s.

(** Splitting at single separator characters, at most [maxsplit] times
    ([None]: no limit): [s.split(c, maxsplit)] for a one-character [c], and
    [re.split] for a one-character class. *)
Fixpoint split_at (p : ascii -> bool) (maxsplit : option nat) (s : string)
  : list string :=
  match s with
  | EmptyString => [EmptyString]
  | String c s' =>
      match maxsplit with
      | Some O => [s]
      | _ =>
          if p c then
            EmptyString :: split_at p (option_map Nat.pred maxsplit) s'
          else
            match split_at p maxsplit s' with
            | [] => [String c EmptyString]
            | w :: ws => String c w :: ws
            end
      end
  end.

(** [re.split(r'[, ]+', s)]: splitting at maximal runs of separators;
    [in_run] tells that the previous character was a separator. *)
Fixpoint split_runs_aux (p : ascii -> bool) (in_run : bool) (s : string)
  : list string :=
  match s with
  | EmptyString => [EmptyString]
  | String c s' =>
      if p c then
        if in_run then split_runs_aux p true s'
        else EmptyString :: split_runs_aux p true s'
      else
        match split_runs_aux p false s' with
        | [] => [String c EmptyString]
        | w :: ws => String c w :: ws
        end
  end.

Definition split_runs (p : ascii -> bool) (s : string) : list string :=
  split_runs_aux p false s.

(** [s.splitlines()], for the line boundaries among the first 128 code
    points: LF, CR, CR LF, VT, FF, FS, GS, RS. *)
Definition is_linebreak (c : ascii) : bool :=
  let n := Z.of_nat (nat_of_ascii c) in
  ((10 <=? n) && (n <=? 13)) || ((28 <=? n) && (n <=? 30)).

Fixpoint splitlines_aux (cur : string) (s : string) : list string :=
  match s with
  | EmptyString => if String.eqb cur "" then [] else [cur]
  | String c s' =>
      if is_linebreak c then
        let s'' :=
          match s' with
          | String c' t =>
              if (Ascii.eqb c "013" && Ascii.eqb c' "010")%bool then t else s'
          | EmptyString => s'
          end in
        cur :: splitlines_aux "" s''
      else splitlines_aux (cur ++ String c EmptyString) s'
  end.

Definition splitlines (s : string) : list string := splitlines_aux "" s.

(** ** Rulers *)

Record Ruler : Type := mkRuler {
  ruler_key : string;
  tick_pattern : TickFactors;
  left_offset : R;
  num_units : Z;
  pixels_per_unit : R
}.

Definition PixelsPerCM : R := (1600 / 6)%R.
Definition PixelsPerIN : R := (PixelsPerCM * 2.54)%R.

(** [class Rulers]; the tick patterns are [TF_BY_MIN[10]], [TF_BY_MIN[20]],
    [TF_BY_MIN[50]] and [TF_BIN]. *)
Module Rulers.
Definition PT :=
  mkRuler "pt" (2, 5, 1) 0%R (25 * 72) (IZR (math_floor (PixelsPerIN / 72))).
Definition CM := mkRuler "cm" (2, 5, 2) 1.5%R 30 PixelsPerCM.
Definition IN_DEC := mkRuler "in" (2, 5, 5) 0.5%R 12 PixelsPerIN.
Definition IN_BIN := mkRuler "in" TF_BIN 0.5%R 12 PixelsPerIN.
Definition IN := IN_DEC.
End Rulers.

(** ** Namespaces *)

(** What [getattr] can return from a class used as a namespace of scales: a
    [Scale], a [Ruler], or any other attribute, of which only the truth
    value matters. *)
Inductive obj : Type :=
| OScale (s : Scale)
| ORuler (r : Ruler)
| OOther (truthy : bool).

(** A class seen through [hasattr] and [getattr]. *)
Definition namespace : Type := list (string * obj).

Fixpoint ns_get (ns : namespace) (name : string) : option obj :=
  match ns with
  | [] => None
  | (k, v) :: ns' => if String.eqb k name then Some v else ns_get ns' name
  end.

Definition hasattr (ns : namespace) (name : string) : bool :=
  match ns_get ns name with Some _ => true | None => false end.

Definition obj_truthy (o : obj) : bool :=
  match o with OOther b => b | _ => true end.

(** The attributes every class has besides those its [class] statement
    declares (CPython 3.11): [hasattr] finds them, and [getattr] returns an
    object that is neither a scale nor a ruler.  [__doc__] is [None] for a
    class without docstring, [__annotations__] an empty dict,
    [__itemsize__] is 0 and [__text_signature__] is [None]: these four are
    falsy. *)
Definition class_attrs : namespace :=
  [ ("__annotations__", OOther false); ("__base__", OOther true);
    ("__bases__", OOther true); ("__basicsize__", OOther true);
    ("__call__", OOther true); ("__class__", OOther true);
    ("__delattr__", OOther true); ("__dict__", OOther true);
    ("__dictoffset__", OOther true); ("__dir__", OOther true);
    ("__doc__", OOther false); ("__eq__", OOther true);
    ("__flags__", OOther true); ("__format__", OOther true);
    ("__ge__", OOther true); ("__getattribute__", OOther true);
    ("__getstate__", OOther true); ("__gt__", OOther true);
    ("__hash__", OOther true); ("__init__", OOther true);
    ("__init_subclass__", OOther true); ("__instancecheck__", OOther true);
    ("__itemsize__", OOther false); ("__le__", OOther true);
    ("__lt__", OOther true); ("__module__", OOther true);
    ("__mro__", OOther true); ("__name__", OOther true);
    ("__ne__", OOther true); ("__new__", OOther true);
    ("__or__", OOther true); ("__prepare__", OOther true);
    ("__qualname__", OOther true); ("__reduce__", OOther true);
    ("__reduce_ex__", OOther true); ("__repr__", OOther true);
    ("__ror__", OOther true); ("__setattr__", OOther true);
    ("__sizeof__", OOther true); ("__str__", OOther true);
    ("__subclasscheck__", OOther true); ("__subclasses__", OOther true);
    ("__subclasshook__", OOther true); ("__text_signature__", OOther false);
    ("__weakref__", OOther true); ("__weakrefoffset__", OOther true);
    ("mro", OOther true) ].

(** [class Scales] and [class Rulers] as namespaces: the attributes the
    class statements declare, then those of every class. *)
Definition Scales_ns : namespace :=
  (map (fun '(k, s) => (k, OScale s)) Scales_attrs ++ class_attrs)%list.

Definition Rulers_ns : namespace :=
  ([ ("PT", ORuler Rulers.PT); ("CM", ORuler Rulers.CM);
     ("IN_DEC", ORuler Rulers.IN_DEC); ("IN_BIN", ORuler Rulers.IN_BIN);
     ("IN", ORuler Rulers.IN) ] ++ class_attrs)%list.

(** ** [class Layout] *)

(** The value stored for one rule part: [None], a list of scale keys, or,
    in the one-part branch of [parse_side_layout], the list of parsed
    segments itself. *)
Inductive part_keys : Type :=
| PNone
| PKeys (ks : list string)
| PNested (segs : list (option (list string))).

Definition parse_segment_layout (segment_layout : string)
  : option (list string) :=
  if String.eqb segment_layout "" then None
  else Some (split_runs (fun c => ascii_in c ", ")
               (strip_chars " " segment_layout)).

Definition parts_of_side_layout (side_layout : string) : list string :=
  let side_layout := strip_chars " |" side_layout in
  let parts :=
    if contains_char "/" side_layout then
      Some (split_at (Ascii.eqb "/") (Some 2%nat) side_layout)
    else if contains_char "[" side_layout && contains_char "]" side_layout
    then Some (split_at (fun c => ascii_in c "[]") (Some 2%nat) side_layout)
    else None in
  match parts with
  | Some (p :: ps) => map strip (p :: ps)
  | _ => [side_layout; ""; ""]
  end.

Definition seg_keys (seg : option (list string)) : part_keys :=
  match seg with Some ks => PKeys ks | None => PNone end.

(** The dict [parse_side_layout] returns, as a function of the rule part.
    [layout] is [None] for an omitted rear line. *)
Definition parse_side_layout (layout : option string)
  : RulePart -> part_keys :=
  match layout with
  | None => fun _ => PNone
  | Some layout =>
      if String.eqb layout "" then fun _ => PNone
      else
        let major_parts :=
          map parse_segment_layout
            (parts_of_side_layout (strip_chars " |" layout)) in
        match major_parts with
        | [_] =>
            fun part =>
              match part with SLIDE => PNested major_parts | _ => PNone end
        | [top_scales; slide_scales; bottom_scales] =>
            fun part =>
              match part with
              | STATOR_TOP => seg_keys top_scales
              | SLIDE => seg_keys slide_scales
              | STATOR_BOTTOM => seg_keys bottom_scales
              end
        | _ => fun _ => PNone
        end
  end.

Definition all_sides : list Side := [FRONT; REAR].
Definition all_parts : list RulePart := [STATOR_TOP; SLIDE; STATOR_BOTTOM].

(** The elements a [for] loop sees in [keys or ()]; an element that is not
    a string is [None]. *)
Definition part_items (v : part_keys) : list (option string) :=
  match v with
  | PNone => []
  | PKeys ks => map Some ks
  | PNested segs => map (fun _ => None) segs
  end.

Definition sc_keys_in_order (sc_keys : Side -> RulePart -> part_keys)
  : list (option string) :=
  flat_map (fun side => flat_map (fun part => part_items (sc_keys side part))
                          all_parts) all_sides.

Definition type_error {A} : res A := Raise TypeError.

Fixpoint check_names (scale_ns : namespace) (names : list (option string))
  : res () :=
  match names with
  | [] => Ok ()
  | None :: _ => type_error
  | Some scale_name :: names' =>
      if negb (hasattr scale_ns scale_name || hasattr Rulers_ns scale_name)
      then Raise (ValueError ("Unrecognized front scale name: " ++ scale_name))
      else check_names scale_ns names'
  end.

Definition check_scales (sc_keys : Side -> RulePart -> part_keys)
    (scale_ns : namespace) : res () :=
  check_names scale_ns (sc_keys_in_order sc_keys).

(** [getattr(scale_ns, n, None) or getattr(Rulers, n, None)]. *)
Definition resolve (scale_ns : namespace) (name : string) : option obj :=
  match ns_get scale_ns name with
  | Some o => if obj_truthy o then Some o else ns_get Rulers_ns name
  | None => ns_get Rulers_ns name
  end.

Definition scales_at (sc_keys : Side -> RulePart -> part_keys)
    (scale_ns : namespace) (side : Side) (part : RulePart)
  : res (list (option obj)) :=
  for_each
    (fun item =>
       match item with
       | Some name => Ok [resolve scale_ns name]
       | None => type_error
       end)
    (part_items (sc_keys side part)).

(** [sc.key]: [AttributeError] on [None] and on an object that is neither a
    scale nor a ruler. *)
Definition obj_key (o : option obj) : res string :=
  match o with
  | Some (OScale s) => Ok (key s)
  | Some (ORuler r) => Ok (ruler_key r)
  | _ => Raise AttributeError
  end.

Definition is_Ruler (o : option obj) : bool :=
  match o with Some (ORuler _) => true | _ => false end.

(** [sc.opp_key] when it is truthy. *)
Definition obj_opp_key (o : option obj) : option string :=
  match o with
  | Some (OScale s) =>
      match opp_key s with
      | Some k => if String.eqb k "" then None else Some k
      | None => None
      end
  | _ => None
  end.

Definition RulePart_eqb (a b : RulePart) : bool :=
  match a, b with
  | STATOR_TOP, STATOR_TOP | SLIDE, SLIDE | STATOR_BOTTOM, STATOR_BOTTOM => true
  | _, _ => false
  end.

(** The state of one side's pass of [infer_aligns]: the alignment dict of
    the side and the set of keys seen so far. *)
Definition align_state : Type := gmap string Align * gset string.

(** The body of the innermost loop of [infer_aligns]. *)
Definition infer_step (part : RulePart) (last_i : Z) (i : Z)
    (sc : option obj) (st : align_state) : res align_state :=
  let '(side_overrides, side_seen) := st in
  let* k := obj_key sc in
  let side_overrides :=
    match side_overrides !! k with
    | Some _ => side_overrides
    | None =>
        if is_Ruler sc then
          <[k := if RulePart_eqb part STATOR_TOP then UPPER else LOWER]>
            side_overrides
        else if (i =? 0) && RulePart_eqb part SLIDE then
          <[k := UPPER]> side_overrides
        else if (i =? last_i) && negb (RulePart_eqb part STATOR_BOTTOM) then
          <[k := LOWER]> side_overrides
        else
          match obj_opp_key sc with
          | Some o =>
              <[k := if decide (o ∈ side_seen) then UPPER else LOWER]>
                side_overrides
          | None => side_overrides
          end
    end in
  Ok (side_overrides, {[k]} ∪ side_seen).

(** [for i, sc in enumerate(part_scales)], from index [i]. *)
Fixpoint infer_part_from (part : RulePart) (last_i : Z) (i : Z)
    (scs : list (option obj)) (st : align_state) : res align_state :=
  match scs with
  | [] => Ok st
  | sc :: scs' =>
      let* st' := infer_step part last_i i sc st in
      infer_part_from part last_i (i + 1) scs' st'
  end.

Definition infer_part (part : RulePart) (part_scales : list (option obj))
    (st : align_state) : res align_state :=
  infer_part_from part (Z.of_nat (length part_scales) - 1) 0 part_scales st.

(** One side of [infer_aligns], given the scales of its three parts. *)
Definition infer_side (tops slides bottoms : list (option obj))
    (side_overrides : gmap string Align) : res (gmap string Align) :=
  let* st := infer_part STATOR_TOP tops (side_overrides, ∅) in
  let* st := infer_part SLIDE slides st in
  let* st := infer_part STATOR_BOTTOM bottoms st in
  Ok (fst st).

(** The body of [for side in Side] in [infer_aligns]: the loop over the
    three rule parts, each part's scales being looked up when its turn
    comes. *)
Definition infer_aligns_side (sc_keys : Side -> RulePart -> part_keys)
    (scale_ns : namespace) (side : Side) (side_overrides : gmap string Align)
  : res (gmap string Align) :=
  let st := (side_overrides, ∅) in
  let* tops := scales_at sc_keys scale_ns side STATOR_TOP in
  let* st := infer_part STATOR_TOP tops st in
  let* slides := scales_at sc_keys scale_ns side SLIDE in
  let* st := infer_part SLIDE slides st in
  let* bottoms := scales_at sc_keys scale_ns side STATOR_BOTTOM in
  let* st := infer_part STATOR_BOTTOM bottoms st in
  Ok (fst st).

Record Layout : Type := mkLayout {
  sc_keys : Side -> RulePart -> part_keys;
  scale_ns : namespace;
  scale_aligns : Side -> gmap string Align
}.

(** [infer_aligns]: fills the alignment dicts, front side first.  The two
    dicts are distinct objects, as at every call site of the source. *)
Definition infer_aligns (sc_keys : Side -> RulePart -> part_keys)
    (scale_ns : namespace) (aligns : Side -> gmap string Align)
  : res (Side -> gmap string Align) :=
  let* front := infer_aligns_side sc_keys scale_ns FRONT (aligns FRONT) in
  let* rear := infer_aligns_side sc_keys scale_ns REAR (aligns REAR) in
  Ok (fun side => match side with FRONT => front | REAR => rear end).

(** The error of unpacking [got] values into two names (CPython 3.11). *)
Definition unpack_error {A} (got : nat) : res A :=
  if (got <? 2)%nat then
    Raise (ValueError ("not enough values to unpack (expected 2, got "
                       ++ int_str (Z.of_nat got) ++ ")"))
  else Raise (ValueError "too many values to unpack (expected 2)").

(** The first statements of [Layout.__init__]: a missing or empty rear line
    and a line feed in the front line make the front line split in two. *)
Definition layout_lines (front_str : string) (rear_str : option string)
  : res (string * option string) :=
  let rear_falsy :=
    match rear_str with
    | None => true
    | Some s => String.eqb s ""
    end in
  if rear_falsy && contains_char "010" front_str then
    match splitlines front_str with
    | [f; r] => Ok (f, Some r)
    | lines => unpack_error (length lines)
    end
  else Ok (front_str, rear_str).

(** The dict [{Side.FRONT: ..., Side.REAR: ...}] of parsed lines. *)
Definition parse_sides (front_str : string) (rear_str : option string)
  : Side -> RulePart -> part_keys :=
  fun side =>
    match side with
    | FRONT => parse_side_layout (Some front_str)
    | REAR => parse_side_layout rear_str
    end.

(** [Layout.__init__]; [align_overrides] gives the dict of each side, empty
    when the argument is [None] or has no entry for the side. *)
Definition Layout_init (front_str : string) (rear_str : option string)
    (scale_ns : namespace) (align_overrides : Side -> gmap string Align)
  : res Layout :=
  let* '(front_str, rear_str) := layout_lines front_str rear_str in
  let sc_keys := parse_sides front_str rear_str in
  let* _ := check_scales sc_keys scale_ns in
  let* aligns := infer_aligns sc_keys scale_ns align_overrides in
  Ok (mkLayout sc_keys scale_ns aligns).

Definition scale_al (l : Layout) (sc : Scale) (side : Side) (part : RulePart)
  : Align :=
  let default_al :=
    if RulePart_eqb part STATOR_BOTTOM then UPPER else LOWER in
  default default_al (scale_aligns l side !! key sc).

(** ** Section 6 of the source: the demo model *)

(** [Styles.Default]. *)
Definition Styles_Default : Style := mkStyle CMUTypewriter.

Module Models.

(** The geometry and the layout of [Models.Demo]. *)
Definition Demo_geometry : Geometry :=
  mkGeometry 8000 1600 100 100 (fst DEFAULT_SCALE_WH) (snd DEFAULT_SCALE_WH)
    3 70 640 109 (fun _ => ∅)
    (fun side => match side with FRONT => ∅ | REAR => {[ "DI" := 80 ]} end).




(** [Renderer.make(image, Demo.geometry, Demo.style)]. *)
Definition Demo_renderer : Renderer := mkRenderer Demo_geometry Styles_Default.

End Models.

(** ** Vocabulary of the statements *)

(** A geometry with a scale 8000 pixels long and ticks 10 pixels thick, so
    that the minimum tick offset is 30; the other attributes are the class
    defaults. *)
Definition Scenario_geometry : Geometry :=
  mkGeometry 8000 1600 100 100 8000 160 10 70 640 110
    (fun _ => ∅) (fun _ => ∅).

Definition Scenario_renderer : Renderer :=
  mkRenderer Scenario_geometry Styles_Default.



(** The scales of one part of a constructed layout, and the scales placed
    on the same side in the parts before and after it. *)
Definition side_scales (l : Layout) (side : Side) (part : RulePart)
  : list (option obj) :=
  match scales_at (sc_keys l) (scale_ns l) side part with
  | Ok os => os
  | Raise _ => []
  end.



(** The keys stored for a part, none when the part holds no list of keys. *)
Definition names_of (v : part_keys) : list string :=
  match v with PKeys ks => ks | _ => [] end.


Definition placed_keys (os : list (option obj)) : list string :=
  flat_map (fun o => match obj_key o with Ok k => [k] | Raise _ => [] end) os.











(** The gap of the step [step_num / i / sf], which the code computes for a
    key [i] that does not exceed [step_num], reaches the minimum tick offset,
    or falls short of it. *)
Definition legible (sc : Scale) (mto : Z) (x_start x_end : R)
    (step_num sf scale_w : Z) (i : Z) : Prop :=
  exists gap,
    min_offset_for_delta sc x_start x_end
      (IZR step_num / IZR i / IZR sf) (IZR scale_w) = Ok gap /\
    (IZR mto <= gap)%R.

Definition illegible (sc : Scale) (mto : Z) (x_start x_end : R)
    (step_num sf scale_w : Z) (i : Z) : Prop :=
  exists gap,
    min_offset_for_delta sc x_start x_end
      (IZR step_num / IZR i / IZR sf) (IZR scale_w) = Ok gap /\
    (gap < IZR mto)%R.

(** A key is taken when it does not exceed [step_num] and is legible, and
    passed over when it exceeds [step_num] or is illegible. *)
Definition taken (sc : Scale) (mto : Z) (x_start x_end : R)
    (step_num sf scale_w : Z) (i : Z) : Prop :=
  i <= step_num /\ legible sc mto x_start x_end step_num sf scale_w i.

Definition passed_over (sc : Scale) (mto : Z) (x_start x_end : R)
    (step_num sf scale_w : Z) (i : Z) : Prop :=
  step_num < i \/ illegible sc mto x_start x_end step_num sf scale_w i.

(** ** Further parts of the source *)

(** *** [class Geometry]: derived measures and the cutoff outline *)

Definition total_w (g : Geometry) : Z := side_w g + 2 * oX g.

Definition midpoint_x (g : Geometry) : Z := total_w g / 2.

Definition print_height (g : Geometry) : Z := side_h g * 2 + 3 * oY g.

Definition stator_h (g : Geometry) : Z := (side_h g - slide_h g) / 2.

(** Default cutoff width ensures a square anchor piece. *)
Definition cutoff_w (g : Geometry) : Z := stator_h g.

(** Left index offset from the left edge. *)
Definition li (g : Geometry) : Z := (total_w g - SL g) / 2.

Definition edge_h (g : Geometry) (part : RulePart) (top : bool) : Z :=
  match part with
  | STATOR_TOP => if top then 0 else stator_h g
  | SLIDE => stator_h g + (if top then 0 else slide_h g)
  | STATOR_BOTTOM => if top then stator_h g + slide_h g else side_h g
  end.

(** A vector [(x1, x2, y1, y2)]. *)
Definition vector : Type := Z * Z * Z * Z.

(** The left cutoff piece outline. *)
Definition cutoff_outline (g : Geometry) (y_off : Z) : list vector :=
  let side_h := side_h g in
  let cutoff_w := cutoff_w g in
  let b := 30 in
  let x_left := b + oX g in
  let x_mid := x_left + cutoff_w / 2 in
  let x_right := cutoff_w - b + oX g in
  let y_top := b + y_off in
  let y_mid := y_top + side_h - stator_h g in
  let y_bottom := side_h - b + y_off in
  [ (x_mid, x_right, y_top, y_top);
    (x_left, x_mid, y_mid, y_mid);
    (x_left, x_right, y_bottom, y_bottom);
    (x_mid, x_mid, y_top, y_mid);
    (x_left, x_left, y_mid, y_bottom);
    (x_right, x_right, y_top, y_bottom) ].

(** The endpoints of a vector are in order. *)
Definition ordered_vector (v : vector) : Prop :=
  let '(x1, x2, y1, y2) := v in x1 <= x2 /\ y1 <= y2.

(** [(x1, x2, y1, y2)] mirrored across the centerline. *)
Definition mirror_vectors_h (g : Geometry) (vectors : list vector)
  : list vector :=
  let total_w := total_w g in
  map (fun '(x1, x2, y1, y2) => (total_w - x2, total_w - x1, y1, y2)) vectors.

(** [(x1, x2, y1, y2)] mirrored across a horizontal line. *)
Definition mirror_vectors_v (vectors : list vector) (mid_y : Z)
  : list vector :=
  map (fun '(x1, x2, y1, y2) => (x1, x2, mid_y - y2, mid_y - y1)) vectors.

(** The list [coords] of [Renderer.draw_metal_cutoffs]: the left piece, its
    mirror image on the right and, on the rear side, the vertical
    reflection of both. *)
Definition metal_cutoff_coords (g : Geometry) (y_off : Z) (side : Side)
  : list vector :=
  let cutoff_fl := cutoff_outline g y_off in
  let coords := (cutoff_fl ++ mirror_vectors_h g cutoff_fl)%list in
  match side with
  | REAR => mirror_vectors_v coords (2 * y_off + side_h g)
  | FRONT => coords
  end.

(** *** [Scale.pos_of] *)

Definition Scale_pos_of (sc : Scale) (x : R) (geom : Geometry) : res Z :=
  let* p := frac_pos_of sc x 0 in Ok (py_round (IZR (SL geom) * p)%R).

(** *** [class Ruler] *)

Definition Ruler_pos_of (ru : Ruler) (x_cm : R) : R :=
  ((left_offset ru + x_cm) * pixels_per_unit ru)%R.

Definition Ruler_value_at (ru : Ruler) (x : R) : res R :=
  let* q := truediv x (pixels_per_unit ru) in Ok (q - left_offset ru)%R.

(** The calls [Ruler.pat] makes on the canvas; the pixel offset is a float
    here.  A numeral is recorded with the symbol [draw_numeral] hands to
    [draw_sym_al].  As for [draw_op], the arguments passed through unchanged
    are left out. *)
Inductive ruler_op : Type :=
| RulerNumeral (num_sym : string) (x : R) (th : Z) (font : ImageFont)
| RulerTick (x : R) (height : Z).

Section RulerPat.

Variable float_str : R -> string.

(** One iteration of the loop of [Ruler.pat]; [draw_numeral] runs before
    the tick of the index is drawn.  The second and third levels carry no
    numerals, [font2] being [None]. *)
Definition Ruler_pat_tick (ru : Ruler) (li i_sf step1 step2 step3 : Z)
    (ths : Z * Z * Z * Z) (font1 : ImageFont) (i : Z) : res (list ruler_op) :=
  let '(th1, th2, th3, th4) := ths in
  let* num := truediv (IZR i) (IZR i_sf) in
  let x := (Ruler_pos_of ru num - IZR li)%R in
  let* m1 := pymod i step1 in
  if m1 =? 0 then
    let* num_sym := numeral_sym float_str (NFloat num) in
    Ok [RulerNumeral num_sym x th1 font1; RulerTick x th1]
  else
    let* m2 := pymod i step2 in
    if m2 =? 0 then Ok [RulerTick x th2]
    else
      let* m3 := pymod i step3 in
      if m3 =? 0 then Ok [RulerTick x th3] else Ok [RulerTick x th4].

(** The number of units [Ruler.pat] shows: the ruler's own, limited by the
    width of the side. *)
Definition Ruler_shown_units (ru : Ruler) (g : Geometry) : res Z :=
  let* q := truediv (IZR (side_w g)) (pixels_per_unit ru) in
  Ok (Z.min (num_units ru) (py_int (q - left_offset ru)%R)).

Definition Ruler_pat (ru : Ruler) (r : Renderer) : res (list ruler_op) :=
  let g := geometry r in
  let li := li g in
  let ths :=
    (tick_h g (Some LG) None, tick_h g (Some MED) None,
     tick_h g (Some XS) None, tick_h g (Some DOT) None) in
  let font1 := Style_font_for (style r) N_LG REG None in
  let '(f0, f1, f2) := tick_pattern ru in
  let i_sf := f0 * f1 * f2 in
  let* '(step1, step2, step3, _) := t_s i_sf (tick_pattern ru) in
  let* num_units := Ruler_shown_units ru g in
  let* idx := py_range 0 (num_units * i_sf + 1) 1 in
  for_each (Ruler_pat_tick ru li i_sf step1 step2 step3 ths font1) idx.

End RulerPat.

(** *** Vocabulary of the further statements *)

(** A geometry whose measures are at most [10 ^ 9] in magnitude: no
    conversion of one of them to a float overflows. *)
Definition Geometry_bounded (g : Geometry) : Prop :=
  Z.abs (side_w g) <= 10 ^ 9 /\ Z.abs (oX g) <= 10 ^ 9 /\
  Z.abs (SL g) <= 10 ^ 9 /\ Z.abs (STH g) <= 10 ^ 9.

(** The ticks and the numerals among the calls of a pattern. *)
Definition is_tick (op : draw_op) : bool :=
  match op with DrawTick _ _ => true | DrawNumeral _ _ _ _ => false end.

Fixpoint count_ticks (ops : list draw_op) : nat :=
  match ops with
  | [] => 0%nat
  | op :: ops' => ((if is_tick op then 1 else 0) + count_ticks ops')%nat
  end.

Fixpoint count_numerals (ops : list draw_op) : nat :=
  match ops with
  | [] => 0%nat
  | op :: ops' => ((if is_tick op then 0 else 1) + count_numerals ops')%nat
  end.

(* ===================================================================== *)
(** * Properties *)

Local Open Scope Z_scope.
(** ** Tick factors *)

Lemma rbind_ok {A B} (c : res A) (k : A -> res B) (b : B) :
  rbind c k = Ok b -> exists a, c = Ok a /\ k a = Ok b.
Proof. destruct c as [a|e]; simpl; intros H; [eauto | discriminate]. Qed.

Lemma step_div_ok (s f : Z) :
  0 <= s -> 0 < f ->
  exists s', (if f =? 1 then Ok s else floordiv s f) = Ok s' /\ 0 <= s' <= s.
Proof.
  intros Hs Hf. destruct (f =? 1) eqn:E.
  - exists s. split; [reflexivity | lia].
  - unfold floordiv. destruct (f =? 0) eqn:E0; [lia |].
    exists (s / f). split; [reflexivity |].
    split; [apply Z.div_pos; lia | apply Z.div_le_upper_bound; nia].
Qed.

(** Every triple of the catalog has positive factors. *)
Lemma TF_BY_MIN_positive (k : Z) (f0 f1 f2 : Z) :
  In (k, (f0, f1, f2)) TF_BY_MIN -> 0 < f0 /\ 0 < f1 /\ 0 < f2.
Proof.
  unfold TF_BY_MIN. simpl.
  intros H. repeat (destruct H as [H | H]; [inversion H; subst; lia |]).
  destruct H.
Qed.

(** C3. For a non-negative outer step and positive factors, [t_s] returns
    four steps, the first being the outer step, with
    [step4 <= step3 <= step2 <= step1]. *)
Theorem t_s_steps_ordered (s1 f0 f1 f2 : Z) :
  0 <= s1 -> 0 < f0 -> 0 < f1 -> 0 < f2 ->
  exists s2 s3 s4,
    t_s s1 (f0, f1, f2) = Ok (s1, s2, s3, s4) /\
    s4 <= s3 /\ s3 <= s2 /\ s2 <= s1.
Proof.
  intros Hs H0 H1 H2. unfold t_s.
  destruct (step_div_ok s1 f0 Hs H0) as (s2 & E2 & B2).
  destruct (step_div_ok s2 f1 (proj1 B2) H1) as (s3 & E3 & B3).
  destruct (step_div_ok s3 f2 (proj1 B3) H2) as (s4 & E4 & B4).
  exists s2, s3, s4. rewrite E2. simpl. rewrite E3. simpl. rewrite E4. simpl.
  repeat split; lia.
Qed.

Lemma t_s_steps_ordered_witness :
  exists s2 s3 s4,
    t_s 10000 (2, 5, 5) = Ok (10000, s2, s3, s4) /\
    s4 <= s3 /\ s3 <= s2 /\ s2 <= 10000.
Proof. apply (t_s_steps_ordered 10000 2 5 5); lia. Defined.

(** ** Floats: truncation and logarithms *)

Local Open Scope R_scope.

Lemma math_floor_eq (x : R) (z : Z) :
  IZR z <= x < IZR z + 1 -> math_floor x = z.
Proof.
  intros [H1 H2]. unfold math_floor. symmetry. apply Int_part_spec. lra.
Qed.

Lemma math_ceil_eq (x : R) (z : Z) :
  IZR z - 1 < x <= IZR z -> math_ceil x = z.
Proof.
  intros [H1 H2]. unfold math_ceil.
  assert (E : Int_part (- x) = (- z)%Z).
  { symmetry. apply Int_part_spec. rewrite opp_IZR. lra. }
  rewrite E. lia.
Qed.

Lemma py_int_nonneg (x : R) (z : Z) :
  0 <= x -> IZR z <= x < IZR z + 1 -> py_int x = z.
Proof.
  intros H0 H. unfold py_int. destruct (Rle_dec 0 x); [| lra].
  now apply math_floor_eq.
Qed.

Lemma py_int_neg (x : R) (z : Z) :
  x < 0 -> IZR z - 1 < x <= IZR z -> py_int x = z.
Proof.
  intros H0 H. unfold py_int. destruct (Rle_dec 0 x); [lra |].
  now apply math_ceil_eq.
Qed.

Lemma py_int_IZR (z : Z) : py_int (IZR z) = z.
Proof.
  destruct (Z_lt_le_dec z 0) as [H | H].
  - apply py_int_neg; [apply (IZR_lt z 0 H) | lra].
  - apply py_int_nonneg; [apply (IZR_le 0 z H) | lra].
Qed.

Lemma ln10_pos : 0 < ln 10.
Proof. rewrite <- ln_1. apply ln_increasing; lra. Qed.

Lemma log10_1 : log10 1 = 0.
Proof. unfold log10. rewrite ln_1. field. pose proof ln10_pos. lra. Qed.

Lemma log10_10 : log10 10 = 1.
Proof. unfold log10. field. pose proof ln10_pos. lra. Qed.

Lemma log10_lt (a b : R) : 0 < a -> a < b -> log10 a < log10 b.
Proof.
  intros Ha Hab. unfold log10, Rdiv.
  apply Rmult_lt_compat_r.
  - apply Rinv_0_lt_compat, ln10_pos.
  - now apply ln_increasing.
Qed.

Lemma log10_le (a b : R) : 0 < a -> a <= b -> log10 a <= log10 b.
Proof.
  intros Ha [Hab | ->]; [left; now apply log10_lt | right; reflexivity].
Qed.

Lemma log10_mult (a b : R) :
  0 < a -> 0 < b -> log10 (a * b) = log10 a + log10 b.
Proof.
  intros Ha Hb. unfold log10. rewrite ln_mult by assumption. field.
  pose proof ln10_pos. lra.
Qed.

Lemma log10_inv (a : R) : 0 < a -> log10 (/ a) = - log10 a.
Proof.
  intros Ha. unfold log10. rewrite ln_Rinv by assumption. field.
  pose proof ln10_pos. lra.
Qed.

Lemma log10_div (a b : R) :
  0 < a -> 0 < b -> log10 (a / b) = log10 a - log10 b.
Proof.
  intros Ha Hb. unfold Rdiv. rewrite log10_mult, log10_inv; try assumption.
  - lra.
  - now apply Rinv_0_lt_compat.
Qed.

Lemma log10_pow (a : R) (n : nat) : 0 < a -> log10 (a ^ n) = INR n * log10 a.
Proof.
  intros Ha. unfold log10. rewrite ln_pow by assumption. field.
  pose proof ln10_pos. lra.
Qed.

Lemma log10_pow10 (n : nat) : log10 (10 ^ n) = INR n.
Proof. rewrite log10_pow by lra. rewrite log10_10. lra. Qed.

(** Bounds on [log10] from comparisons of integer powers. *)
Lemma log10_ge_frac (a : R) (p q : nat) :
  0 < a -> (0 < q)%nat -> 10 ^ p <= a ^ q -> INR p / INR q <= log10 a.
Proof.
  intros Ha Hq H.
  assert (Hq' : 0 < INR q) by (apply lt_0_INR; lia).
  apply (log10_le (10 ^ p) (a ^ q)) in H; [| apply pow_lt; lra].
  rewrite log10_pow10, log10_pow in H by assumption.
  apply Rmult_le_reg_l with (INR q); [assumption |].
  replace (INR q * (INR p / INR q)) with (INR p) by (field; lra).
  exact H.
Qed.

Lemma log10_lt_frac (a : R) (p q : nat) :
  0 < a -> (0 < q)%nat -> a ^ q < 10 ^ p -> log10 a < INR p / INR q.
Proof.
  intros Ha Hq H.
  assert (Hq' : 0 < INR q) by (apply lt_0_INR; lia).
  apply (log10_lt (a ^ q) (10 ^ p)) in H; [| apply pow_lt; lra].
  rewrite log10_pow10, log10_pow in H by assumption.
  apply Rmult_lt_reg_l with (INR q); [assumption |].
  replace (INR q * (INR p / INR q)) with (INR p) by (field; lra).
  exact H.
Qed.

Lemma ratio_pow (n d : Z) (q : nat) :
  (0 < d)%Z ->
  (IZR n / IZR d) ^ q = IZR (n ^ Z.of_nat q) / IZR (d ^ Z.of_nat q).
Proof.
  intros Hd. unfold Rdiv. rewrite Rpow_mult_distr, pow_inv, !pow_IZR.
  reflexivity.
Qed.

Lemma pow_ratio_ge (n d : Z) (p q : nat) :
  (0 < d)%Z ->
  (10 ^ Z.of_nat p * d ^ Z.of_nat q <=? n ^ Z.of_nat q)%Z = true ->
  10 ^ p <= (IZR n / IZR d) ^ q.
Proof.
  intros Hd H. apply Z.leb_le in H. rewrite ratio_pow by assumption.
  assert (HD : 0 < IZR (d ^ Z.of_nat q)).
  { apply IZR_lt. apply Z.pow_pos_nonneg; lia. }
  apply Rmult_le_reg_r with (IZR (d ^ Z.of_nat q)); [assumption |].
  unfold Rdiv. rewrite Rmult_assoc, Rinv_l, Rmult_1_r by lra.
  rewrite pow_IZR, <- mult_IZR. now apply IZR_le.
Qed.

Lemma pow_ratio_lt (n d : Z) (p q : nat) :
  (0 < d)%Z ->
  (n ^ Z.of_nat q <? 10 ^ Z.of_nat p * d ^ Z.of_nat q)%Z = true ->
  (IZR n / IZR d) ^ q < 10 ^ p.
Proof.
  intros Hd H. apply Z.ltb_lt in H. rewrite ratio_pow by assumption.
  assert (HD : 0 < IZR (d ^ Z.of_nat q)).
  { apply IZR_lt. apply Z.pow_pos_nonneg; lia. }
  apply Rmult_lt_reg_r with (IZR (d ^ Z.of_nat q)); [assumption |].
  unfold Rdiv. rewrite Rmult_assoc, Rinv_l, Rmult_1_r by lra.
  rewrite pow_IZR, <- mult_IZR. now apply IZR_lt.
Qed.

(** [p / q <= log10 (n / d)] and [log10 (n / d) < p / q], decided on
    integers. *)
Lemma log10_ratio_ge (n d p q : Z) :
  (0 < n)%Z -> (0 < d)%Z -> (0 <= p)%Z -> (0 < q)%Z ->
  (10 ^ p * d ^ q <=? n ^ q)%Z = true ->
  IZR p / IZR q <= log10 (IZR n / IZR d).
Proof.
  intros Hn Hd Hp Hq H.
  rewrite <- (Z2Nat.id p), <- (Z2Nat.id q) in H by lia.
  rewrite <- (Z2Nat.id p), <- (Z2Nat.id q), <- !INR_IZR_INZ by lia.
  apply log10_ge_frac; [| lia |].
  - apply Rdiv_lt_0_compat; now apply IZR_lt.
  - now apply pow_ratio_ge.
Qed.

Lemma log10_ratio_lt (n d p q : Z) :
  (0 < n)%Z -> (0 < d)%Z -> (0 <= p)%Z -> (0 < q)%Z ->
  (n ^ q <? 10 ^ p * d ^ q)%Z = true ->
  log10 (IZR n / IZR d) < IZR p / IZR q.
Proof.
  intros Hn Hd Hp Hq H.
  rewrite <- (Z2Nat.id p), <- (Z2Nat.id q) in H by lia.
  rewrite <- (Z2Nat.id p), <- (Z2Nat.id q), <- !INR_IZR_INZ by lia.
  apply log10_lt_frac; [| lia |].
  - apply Rdiv_lt_0_compat; now apply IZR_lt.
  - now apply pow_ratio_lt.
Qed.

Lemma math_log10_pos (x : R) : 0 < x -> math_log10 x = Ok (log10 x).
Proof. intros H. unfold math_log10. destruct (Rlt_dec 0 x); [reflexivity | lra]. Qed.

Lemma truediv_ok (a b : R) : b <> 0 -> truediv a b = Ok (a / b).
Proof. intros H. unfold truediv. destruct (Req_dec_T b 0); [contradiction | reflexivity]. Qed.

Lemma float_floordiv_ok (a b : R) :
  b <> 0 -> float_floordiv a b = Ok (math_floor (a / b)).
Proof.
  intros H. unfold float_floordiv.
  destruct (Req_dec_T b 0); [contradiction | reflexivity].
Qed.

Ltac log10_ge :=
  apply log10_ratio_ge; [lia | lia | lia | lia | vm_compute; reflexivity].
Ltac log10_lt :=
  apply log10_ratio_lt; [lia | lia | lia | lia | vm_compute; reflexivity].

Example log10_2_bounds : 3 / 10 <= log10 2 /\ log10 2 < 61 / 200.
Proof.
  replace 2 with (IZR 2 / IZR 1) by lra. split.
  - log10_ge.
  - log10_lt.
Qed.

(** ** Transforms: forward then inverse *)

Local Open Scope R_scope.

(** The decade-log transform does invert: on a positive value the inverse
    of the forward position is the value itself. *)
Lemma Base_round_trip (v : R) :
  0 < v ->
  exists p, position_of ScaleFNs.Base v = Ok p /\
            value_at ScaleFNs.Base p = Ok v.
Proof.
  intros Hv. exists (log10 v). split.
  - unfold position_of. simpl. unfold gen_base. now apply math_log10_pos.
  - unfold value_at. simpl. unfold pos_base, math_pow, Rpower, log10, TEN.
    f_equal. replace (ln v / ln 10 * ln 10) with (ln v).
    + now apply exp_ln.
    + field. pose proof ln10_pos. lra.
Qed.

(** [Square] declares no lower bound, and its forward function raises on a
    value of its declared domain. *)
Lemma Square_raises_in_domain :
  min_x ScaleFNs.Square = None /\ max_x ScaleFNs.Square = None /\
  position_of ScaleFNs.Square (-1) = domain_error.
Proof.
  repeat split. unfold position_of. simpl. unfold gen_base, math_log10.
  destruct (Rlt_dec 0 (-1)); [lra | reflexivity].
Qed.

(** C2, evaluated at a failing input.  [Sin] declares the whole real line as
    its domain; at 30 (degrees) the forward position is [log10 5] and the
    inverse, [math.asin], answers a value below 2: the round trip misses 30
    by more than 28. *)
Theorem Sin_round_trip_fails :
  min_x ScaleFNs.Sin = None /\ max_x ScaleFNs.Sin = None /\
  exists p y,
    position_of ScaleFNs.Sin 30 = Ok p /\
    value_at ScaleFNs.Sin p = Ok y /\
    y < 2.
Proof.
  split; [reflexivity |]. split; [reflexivity |].
  assert (B : 0 <= log10 5 <= 1).
  { split.
    - rewrite <- log10_1. apply log10_le; lra.
    - rewrite <- log10_10. apply log10_le; lra. }
  exists (log10 5), (asin (log10 5)). repeat split.
  - unfold position_of. simpl. unfold math_radians, gen_base, TEN.
    replace (30 * PI / 180) with (PI / 6) by lra.
    rewrite sin_PI6. replace (10 * (1 / 2)) with 5 by lra.
    apply math_log10_pos. lra.
  - unfold value_at. simpl. unfold math_asin.
    destruct (Rle_dec (-1) (log10 5)); [| lra].
    destruct (Rle_dec (log10 5) 1); [reflexivity | lra].
  - assert (B' : log10 5 < 1).
    { rewrite <- log10_10. apply log10_lt; lra. }
    pose proof (asin_bound_lt (log10 5)). pose proof PI_4. lra.
Qed.

(** ** [sig_digit_of] *)

Lemma is_integer_false (x : R) (z : Z) :
  IZR z < x < IZR z + 1 -> is_integer x = false.
Proof.
  intros H. unfold is_integer.
  rewrite (math_floor_eq x z) by lra.
  destruct (Req_dec_T x (IZR z)); [lra | reflexivity].
Qed.

(** When the number is at least 1, is not a power of ten and is not a
    multiple of ten, no branch of [sig_digit_of] assigns: the number comes
    back unchanged. *)
Lemma sig_digit_of_unchanged (float_str : R -> string) (n : R) (k q : Z) :
  1 <= n ->
  IZR k < log10 n < IZR k + 1 ->
  IZR q < n / 10 < IZR q + 1 ->
  sig_digit_of float_str n = Ok (NFloat n).
Proof.
  intros H1 Hk Hq. unfold sig_digit_of.
  destruct (Rlt_dec 0 n); [| lra].
  rewrite (is_integer_false _ k Hk). simpl.
  unfold float_mod. destruct (Req_dec_T 10 0); [lra |]. simpl.
  rewrite (math_floor_eq (n / 10) q) by lra.
  destruct (Req_dec_T (n - 10 * IZR q) 0); [lra |].
  destruct (Rlt_dec n 1); [lra | reflexivity].
Qed.

(** C5, evaluated at a failing input: 25 is neither a power of ten nor a
    multiple of ten and is not below 1; [sig_digit_of] returns 25 itself,
    not its leading digit 2, whatever [str] prints. *)
Theorem sig_digit_of_25 (float_str : R -> string) :
  sig_digit_of float_str 25 = Ok (NFloat 25).
Proof.
  apply (sig_digit_of_unchanged float_str 25 1 2); try lra.
  split.
  - rewrite <- log10_10. apply log10_lt; lra.
  - replace (1 + 1) with (INR 2) by (simpl; lra).
    rewrite <- log10_pow10. apply log10_lt; lra.
Qed.

(** Numbers strictly between 1 and 10 come back unchanged too. *)
Lemma sig_digit_of_unit_range (float_str : R -> string) (n : R) :
  1 < n < 10 -> sig_digit_of float_str n = Ok (NFloat n).
Proof.
  intros H. apply (sig_digit_of_unchanged float_str n 0 0); try lra.
  split.
  - rewrite <- log10_1. apply log10_lt; lra.
  - rewrite Rplus_0_l, <- log10_10. apply log10_lt; lra.
Qed.

(** ** [pat_auto]: endpoints *)

Lemma falsy_zero : falsy (Some 0) = true.
Proof. unfold falsy. destruct (Req_dec_T 0 0); [reflexivity | lra]. Qed.

Lemma endpoints_zero_start (sc : Scale) (x_end : option R) :
  endpoints sc (Some 0) x_end = endpoints sc None x_end.
Proof. unfold endpoints. rewrite falsy_zero. reflexivity. Qed.

Lemma endpoints_zero_end (sc : Scale) (x_start : option R) :
  endpoints sc x_start (Some 0) = endpoints sc x_start None.
Proof. unfold endpoints. rewrite falsy_zero. reflexivity. Qed.

(** ** Layout grammar *)

Local Open Scope Z_scope.

Lemma rstrip_by_head (p : ascii -> bool) (c : ascii) (s : string) :
  p c = false -> exists t, rstrip_by p (String c s) = String c t.
Proof.
  intros Hc. simpl. destruct (rstrip_by p s); [rewrite Hc |]; eauto.
Qed.

Lemma lstrip_by_cases (p : ascii -> bool) (s : string) :
  lstrip_by p s = "" \/
  exists c t, lstrip_by p s = String c t /\ p c = false.
Proof.
  induction s as [| c s IH]; simpl; [now left |].
  destruct (p c) eqn:E; [exact IH | right; eauto].
Qed.

Lemma rstrip_by_idem (p : ascii -> bool) (s : string) :
  rstrip_by p (rstrip_by p s) = rstrip_by p s.
Proof.
  induction s as [| c s IH]; simpl; [reflexivity |].
  destruct (rstrip_by p s) as [| c' t] eqn:E.
  - destruct (p c) eqn:Ec; simpl; [reflexivity | now rewrite Ec].
  - change (rstrip_by p (String c (String c' t))) with
      (match rstrip_by p (String c' t) with
       | "" => if p c then "" else String c ""
       | t' => String c t'
       end).
    now rewrite IH.
Qed.

(** [strip] is idempotent: [parse_side_layout] strips the line and
    [parts_of_side_layout] strips it again. *)
Lemma strip_by_idem (p : ascii -> bool) (s : string) :
  strip_by p (strip_by p s) = strip_by p s.
Proof.
  unfold strip_by.
  destruct (lstrip_by_cases p s) as [E | (c & t & E & Hc)]; rewrite E.
  - reflexivity.
  - destruct (rstrip_by_head p c t Hc) as (t' & E').
    rewrite E'. simpl lstrip_by. rewrite Hc, <- E'. apply rstrip_by_idem.
Qed.

Lemma split_at_nonempty (p : ascii -> bool) (m : option nat) (s : string) :
  split_at p m s <> [].
Proof.
  destruct s as [| c s]; simpl; [discriminate |].
  destruct m as [[| n] |]; try discriminate.
  - destruct (p c); [discriminate |]. destruct (split_at _ _ s); discriminate.
  - destruct (p c); [discriminate |]. destruct (split_at _ _ s); discriminate.
Qed.

(** A separator in the string and at least one split allowed give at least
    two parts. *)
Lemma split_at_two (p : ascii -> bool) (n : nat) (s : string) :
  existsb p (list_ascii_of_string s) = true ->
  (2 <= length (split_at p (Some (S n)) s))%nat.
Proof.
  induction s as [| c s IH]; simpl; [discriminate |].
  destruct (p c) eqn:E; simpl.
  - intros _. pose proof (split_at_nonempty p (Some n) s).
    destruct (split_at p (Some n) s); [contradiction | simpl; lia].
  - intros H. specialize (IH H).
    destruct (split_at p (Some (S n)) s); simpl in *; lia.
Qed.

Lemma existsb_weaken {A} (p q : A -> bool) (l : list A) :
  (forall a, p a = true -> q a = true) ->
  existsb p l = true -> existsb q l = true.
Proof.
  intros H. induction l as [| a l IH]; simpl; [auto |].
  intros E. apply orb_true_iff in E. apply orb_true_iff.
  destruct E; [left | right]; auto.
Qed.

(** [parts_of_side_layout] never answers a single part: the one-part branch
    of [parse_side_layout] is not reachable. *)
Lemma parts_of_side_layout_length (s : string) :
  (2 <= length (parts_of_side_layout s))%nat.
Proof.
  unfold parts_of_side_layout. set (t := strip_chars " |" s).
  destruct (contains_char "/" t) eqn:E1.
  - pose proof (split_at_two (Ascii.eqb "/") 1 t) as H.
    destruct (split_at (Ascii.eqb "/") (Some 2%nat) t) as [| x xs].
    + simpl. lia.
    + rewrite length_map. apply H. exact E1.
  - destruct (contains_char "[" t && contains_char "]" t) eqn:E2.
    + apply andb_true_iff in E2. destruct E2 as [E2 _].
      pose proof (split_at_two (fun c => ascii_in c "[]") 1 t) as H.
      destruct (split_at _ (Some 2%nat) t) as [| x xs].
      * simpl. lia.
      * rewrite length_map. apply H.
        apply existsb_weaken with (p := Ascii.eqb "["); [| exact E2].
        intros a Ha. apply Ascii.eqb_eq in Ha. subst a. reflexivity.
    + simpl. lia.
Qed.

Lemma parse_side_layout_not_nested (layout : option string) (part : RulePart) :
  part_items (parse_side_layout layout part)
  = match parse_side_layout layout part with
    | PKeys ks => map Some ks
    | _ => []
    end /\
  forall segs, parse_side_layout layout part <> PNested segs.
Proof.
  assert (H : forall segs, parse_side_layout layout part <> PNested segs).
  { intros segs. unfold parse_side_layout.
    destruct layout as [l |]; [| discriminate].
    destruct (String.eqb l ""); [discriminate |].
    pose proof (parts_of_side_layout_length (strip_chars " |" l)) as Hl.
    rewrite <- (length_map parse_segment_layout) in Hl.
    destruct (map parse_segment_layout _) as [| a [| b [| c [| d m]]]];
      simpl in Hl; try lia; try discriminate.
    destruct part; unfold seg_keys;
      [destruct a | destruct b | destruct c]; discriminate. }
  split; [| exact H].
  destruct (parse_side_layout layout part) eqn:E; try reflexivity.
  exfalso. now apply (H segs).
Qed.

(** A line with neither a slash nor a bracket pair has its keys stored as
    the upper stator; the slide and the lower stator stay [None]. *)
Lemma parse_side_layout_no_delimiter (line : string) :
  line <> "" ->
  contains_char "/" (strip_chars " |" line) = false ->
  contains_char "[" (strip_chars " |" line)
    && contains_char "]" (strip_chars " |" line) = false ->
  parse_side_layout (Some line) STATOR_TOP
    = seg_keys (parse_segment_layout (strip_chars " |" line)) /\
  parse_side_layout (Some line) SLIDE = PNone /\
  parse_side_layout (Some line) STATOR_BOTTOM = PNone.
Proof.
  intros Hne H1 H2.
  assert (Ei : strip_chars " |" (strip_chars " |" line) = strip_chars " |" line)
    by apply strip_by_idem.
  assert (Ep : parts_of_side_layout (strip_chars " |" line)
               = [strip_chars " |" line; ""; ""]).
  { unfold parts_of_side_layout. rewrite Ei, H1, H2. reflexivity. }
  unfold parse_side_layout.
  destruct (String.eqb line "") eqn:E; [apply String.eqb_eq in E; contradiction |].
  rewrite Ep. simpl. repeat split.
Qed.

(** C7, evaluated at a failing input: the line ["C D"] has no delimiter;
    its two keys land in the upper stator and the slide holds nothing. *)
Theorem parse_side_layout_slide_only_fails :
  parse_side_layout (Some "C D") STATOR_TOP = PKeys ["C"; "D"] /\
  parse_side_layout (Some "C D") SLIDE = PNone /\
  parse_side_layout (Some "C D") STATOR_BOTTOM = PNone.
Proof. repeat split. Qed.

(** ** Validation of scale keys *)

Lemma is_ok_bind {A B} (c : res A) (k : A -> res B) (a : A) :
  c = Ok a -> is_ok (k a) -> is_ok (rbind c k).
Proof. intros -> H. exact H. Qed.

Lemma part_items_names (v : part_keys) :
  (forall segs, v <> PNested segs) -> part_items v = map Some (names_of v).
Proof.
  destruct v; simpl; try reflexivity. intros H. now destruct (H segs).
Qed.

Lemma parse_sides_not_nested (f : string) (r : option string)
    (side : Side) (part : RulePart) (segs : list (option (list string))) :
  parse_sides f r side part <> PNested segs.
Proof. destruct side; apply parse_side_layout_not_nested. Qed.









Lemma scales_at_names (f : string) (r : option string) (ns : namespace)
    (side : Side) (part : RulePart) :
  scales_at (parse_sides f r) ns side part
  = Ok (map (resolve ns) (names_of (parse_sides f r side part))).
Proof.
  unfold scales_at.
  rewrite part_items_names by (intros segs; apply parse_sides_not_nested).
  induction (names_of (parse_sides f r side part)) as [| n l IH]; simpl;
    [reflexivity | now rewrite IH].
Qed.














(** A layout of the source is constructed, and an unknown key is named. *)
Example Layout_init_known :
  is_ok (Layout_init "A/B C/D" (Some "") Scales_ns (fun _ => ∅)).
Proof. eexists. vm_compute. reflexivity. Qed.

Example Layout_init_unknown :
  Layout_init "A/B Q C/D" (Some "") Scales_ns (fun _ => ∅)
  = Raise (ValueError "Unrecognized front scale name: Q").
Proof. vm_compute. reflexivity. Qed.

(** A key that is a special attribute of the class passes the check and
    fails in [infer_aligns]. *)
Example Layout_init_special_attribute :
  Layout_init "A [__doc__] D" (Some "") Scales_ns (fun _ => ∅)
  = Raise AttributeError.
Proof. vm_compute. reflexivity. Qed.


(** ** Alignment inference *)

Lemma infer_step_inv (part : RulePart) (last_i i : Z) (sc : option obj)
    (ov : gmap string Align) (seen : gset string) (st' : align_state) :
  infer_step part last_i i sc (ov, seen) = Ok st' ->
  exists k, obj_key sc = Ok k /\ snd st' = {[k]} ∪ seen /\
    (forall k', k' <> k -> fst st' !! k' = ov !! k') /\
    (forall a, ov !! k = Some a -> fst st' !! k = Some a).
Proof.
  unfold infer_step. destruct (obj_key sc) as [k |] eqn:Ek; simpl; [| discriminate].
  intros H. injection H as <-. exists k. simpl.
  split; [reflexivity |]. split; [reflexivity |]. split.
  - intros k' Hk'. destruct (ov !! k) eqn:E; [reflexivity |].
    repeat match goal with
           | |- context [if ?b then _ else _] => destruct b
           | |- context [match obj_opp_key sc with _ => _ end] =>
               destruct (obj_opp_key sc)
           end;
      try reflexivity; now rewrite lookup_insert_ne by congruence.
  - intros a Ea. now rewrite Ea.
Qed.

Lemma placed_keys_app (a b : list (option obj)) :
  placed_keys (a ++ b) = (placed_keys a ++ placed_keys b)%list.
Proof. unfold placed_keys. apply flat_map_app. Qed.

Lemma placed_keys_cons (o : option obj) (k : string) (l : list (option obj)) :
  obj_key o = Ok k -> placed_keys (o :: l) = k :: placed_keys l.
Proof. intros H. unfold placed_keys. simpl. now rewrite H. Qed.

(** A run over scales none of which has the key [k] leaves the entry of
    [k] alone and adds the keys of the scales to the seen set. *)
Lemma infer_part_from_other (part : RulePart) (last_i : Z) (k : string)
    (scs : list (option obj)) :
  forall i st st',
    infer_part_from part last_i i scs st = Ok st' ->
    (forall o, In o scs -> obj_key o <> Ok k) ->
    fst st' !! k = fst st !! k /\
    (forall x, x ∈ snd st' <-> x ∈ snd st \/ In x (placed_keys scs)).
Proof.
  induction scs as [| sc scs IH]; intros i st st' H Hk; simpl in H.
  - injection H as <-. split; [reflexivity |]. intros x. simpl. tauto.
  - destruct (infer_step part last_i i sc st) as [st1 |] eqn:E1;
      simpl in H; [| discriminate].
    destruct st as [ov seen].
    destruct (infer_step_inv _ _ _ _ _ _ _ E1) as (k1 & Ek1 & Hs & Ho & _).
    destruct (IH _ _ _ H) as [L S]; [intros o Ho'; apply Hk; now right |].
    split.
    + rewrite L. apply Ho. intros ->. apply (Hk sc); [now left | exact Ek1].
    + intros x. rewrite S, Hs, (placed_keys_cons sc k1 scs Ek1). simpl.
      rewrite elem_of_union, elem_of_singleton. intuition congruence.
Qed.






Lemma Layout_init_inv (front : string) (rear : option string)
    (ns : namespace) (ov0 : Side -> gmap string Align) (l : Layout) :
  Layout_init front rear ns ov0 = Ok l ->
  exists f r,
    sc_keys l = parse_sides f r /\ scale_ns l = ns /\
    forall side,
      infer_aligns_side (parse_sides f r) ns side (ov0 side)
      = Ok (scale_aligns l side).
Proof.
  unfold Layout_init. intros H.
  destruct (layout_lines front rear) as [[f r] |]; simpl in H; [| discriminate].
  destruct (check_scales (parse_sides f r) ns); simpl in H; [| discriminate].
  unfold infer_aligns in H.
  destruct (infer_aligns_side (parse_sides f r) ns FRONT (ov0 FRONT))
    as [af |] eqn:Ea; simpl in H; [| discriminate].
  destruct (infer_aligns_side (parse_sides f r) ns REAR (ov0 REAR))
    as [ar |] eqn:Eb; simpl in H; [| discriminate].
  injection H as <-. exists f, r. simpl. repeat split.
  intros [|]; assumption.
Qed.

Lemma side_scales_parsed (f : string) (r : option string) (ns : namespace)
    (l : Layout) (side : Side) (part : RulePart) :
  sc_keys l = parse_sides f r -> scale_ns l = ns ->
  side_scales l side part
  = map (resolve ns) (names_of (parse_sides f r side part)).
Proof.
  intros E1 E2. unfold side_scales. now rewrite E1, E2, scales_at_names.
Qed.

Lemma infer_aligns_side_parsed (f : string) (r : option string)
    (ns : namespace) (side : Side) (ov : gmap string Align) :
  infer_aligns_side (parse_sides f r) ns side ov
  = infer_side
      (map (resolve ns) (names_of (parse_sides f r side STATOR_TOP)))
      (map (resolve ns) (names_of (parse_sides f r side SLIDE)))
      (map (resolve ns) (names_of (parse_sides f r side STATOR_BOTTOM)))
      ov.
Proof.
  unfold infer_aligns_side, infer_side. rewrite !scales_at_names. simpl.
  destruct (infer_part STATOR_TOP _ _); simpl; [| reflexivity].
  destruct (infer_part SLIDE _ _); reflexivity.
Qed.





(** ** [pat_auto]: the selection of the subdivision *)

Local Open Scope Z_scope.

Lemma sub_div_ok_true (sc : Scale) (mto : Z) (xs xe : R)
    (step_num sf scale_w i : Z) :
  sub_div_ok sc mto xs xe step_num sf scale_w i = Ok true <->
  taken sc mto xs xe step_num sf scale_w i.
Proof.
  unfold sub_div_ok, taken, legible. destruct (i <=? step_num) eqn:E.
  - apply Z.leb_le in E.
    destruct (min_offset_for_delta sc xs xe _ _) as [gap |]; simpl.
    + destruct (Rle_dec (IZR mto) gap); split.
      * intros _. split; [exact E | eauto].
      * reflexivity.
      * discriminate.
      * intros (_ & g & Hg & Hle). injection Hg as ->. contradiction.
    + split; [discriminate | intros (_ & g & Hg & _); discriminate].
  - apply Z.leb_gt in E. split; [discriminate | intros [H _]; lia].
Qed.

Lemma sub_div_ok_false (sc : Scale) (mto : Z) (xs xe : R)
    (step_num sf scale_w i : Z) :
  sub_div_ok sc mto xs xe step_num sf scale_w i = Ok false <->
  passed_over sc mto xs xe step_num sf scale_w i.
Proof.
  unfold sub_div_ok, passed_over, illegible. destruct (i <=? step_num) eqn:E.
  - apply Z.leb_le in E.
    destruct (min_offset_for_delta sc xs xe _ _) as [gap |]; simpl.
    + destruct (Rle_dec (IZR mto) gap) as [Hle | Hgt]; split.
      * discriminate.
      * intros [H | (g & Hg & Hlt)]; [lia |]. injection Hg as ->. lra.
      * intros _. right. exists gap. split; [reflexivity | lra].
      * reflexivity.
    + split; [discriminate |].
      intros [H | (g & Hg & _)]; [lia | discriminate].
  - apply Z.leb_gt in E. split; [intros _; now left | reflexivity].
Qed.

(** What [next] returns: the entry of the first key the test accepts, or
    the entry of key 1 when it accepts none. *)
Lemma next_sub_div_spec (ok : Z -> res bool) (keys : list Z) (t : TickFactors) :
  next_sub_div ok keys = Ok t ->
  (exists earlier i later,
     keys = (earlier ++ i :: later)%list /\
     Forall (fun j => ok j = Ok false) earlier /\
     ok i = Ok true /\ dict_get TF_BY_MIN i = Ok t) \/
  (Forall (fun j => ok j = Ok false) keys /\ dict_get TF_BY_MIN 1 = Ok t).
Proof.
  induction keys as [| k keys IH]; simpl; intros H.
  - right. split; [constructor | exact H].
  - destruct (ok k) as [[|] |] eqn:E; simpl in H; try discriminate.
    + left. exists [], k, keys. repeat split; [constructor | assumption ..].
    + destruct (IH H) as [(earlier & i & later & -> & Hf & Hi & Hd) | [Hf Hd]].
      * left. exists (k :: earlier), i, later.
        repeat split; [constructor | ..]; assumption.
      * right. split; [constructor |]; assumption.
Qed.

(** The selection cannot fail by itself: it raises only when the test
    does. *)
Lemma next_sub_div_total (ok : Z -> res bool) (keys : list Z) :
  (forall i, In i keys -> In i TF_MIN) ->
  (forall i, In i keys -> is_ok (ok i)) -> is_ok (next_sub_div ok keys).
Proof.
  induction keys as [| k keys IH]; simpl; intros Hin H.
  - eexists. reflexivity.
  - destruct (H k) as [[|] E]; [now left | |]; rewrite E; simpl.
    + assert (Hk : In k TF_MIN) by (apply Hin; now left).
      vm_compute in Hk.
      repeat (destruct Hk as [<- | Hk]; [eexists; reflexivity |]).
      destruct Hk.
    + apply IH; intros i Hi; [apply Hin | apply H]; now right.
Qed.

(** Distinct keys of the catalog carry distinct triples. *)
Lemma TF_BY_MIN_injective (i j : Z) (t : TickFactors) :
  In i TF_MIN -> In j TF_MIN ->
  dict_get TF_BY_MIN i = Ok t -> dict_get TF_BY_MIN j = Ok t -> i = j.
Proof.
  intros Hi Hj. vm_compute in Hi, Hj.
  repeat (destruct Hi as [<- | Hi];
          [repeat (destruct Hj as [<- | Hj];
                   [vm_compute; intros; congruence |]);
           destruct Hj |]).
  destruct Hi.
Qed.

Lemma t_s_fst (s : Z) (f : TickFactors) (a b c d : Z) :
  t_s s f = Ok (a, b, c, d) -> a = s.
Proof.
  unfold t_s. destruct f as [[f0 f1] f2].
  destruct (if f0 =? 1 then Ok s else floordiv s f0); simpl; [| discriminate].
  destruct (if f1 =? 1 then _ else _); simpl; [| discriminate].
  destruct (if f2 =? 1 then _ else _); simpl; [| discriminate].
  congruence.
Qed.

(** What a plan returned by [pat_auto_plan] records. *)
Lemma pat_auto_plan_inv (sym_width : string -> ImageFont -> Z) (r : Renderer)
    (sc : Scale) (xs xe : option R) (il : bool) (p : auto_plan) :
  pat_auto_plan sym_width r sc xs xe il = Ok p ->
  let g := geometry r in
  let num_font := Style_font_for (style r) N_LG REG (scale_h_ratio g sc None) in
  endpoints sc xs xe = Ok (p_x_start p, p_x_end p) /\
  next_sub_div
    (sub_div_ok sc (min_tick_offset g) (p_x_start p) (p_x_end p)
       (p_step_num p) (p_sf p) (SL g)) TF_MIN = Ok (p_sub_div4 p) /\
  (exists step2 step3 step4,
     t_s (p_step_num p) (p_sub_div4 p) = Ok (p_step_num p, step2, step3, step4) /\
     p_steps_i p = (p_step_num p, step2, step3, step4) /\
     p_sub_num p
     = (step4 <? step3) && (step3 <? p_step_num p) && (8 <? p_max_num_chars p) /\
     snd (p_steps_font p)
     = (if p_sub_num p && (step3 =? p_step_num p / 10)
        then Some (Style_font_for (style r) N_XS REG (scale_h_ratio g sc None))
        else None)) /\
  (exists gap,
     min_offset_for_delta sc (p_x_start p) (p_x_end p)
       (IZR (p_step_num p) / IZR (p_sf p)) (IZR (SL g)) = Ok gap /\
     float_floordiv gap (IZR (sym_width "_" num_font))
     = Ok (p_max_num_chars p)).
Proof.
  unfold pat_auto_plan. intros H.
  destruct (endpoints sc xs xe) as [[a b] |]; cbn [rbind] in H; [| discriminate].
  destruct (truediv _ _) as [q |]; cbn [rbind] in H; [| discriminate].
  destruct (math_log10 (Rabs q)) as [lq |]; cbn [rbind] in H; [| discriminate].
  destruct (offset_between sc a b 1) as [fw |]; cbn [rbind] in H; [| discriminate].
  destruct (math_log10 (b - a)) as [ld |]; cbn [rbind] in H; [| discriminate].
  destruct (next_sub_div _ TF_MIN) as [t |] eqn:En; cbn [rbind] in H; [| discriminate].
  destruct (t_s _ t) as [[[[s1 s2] s3] s4] |] eqn:Et; cbn [rbind] in H; [| discriminate].
  destruct (pymod _ s4) as [io |]; cbn [rbind] in H; [| discriminate].
  destruct (min_offset_for_delta sc a b _ _) as [gap |] eqn:Eg;
    cbn [rbind] in H; [| discriminate].
  destruct (float_floordiv gap _) as [mnc |] eqn:Ef; cbn [rbind] in H; [| discriminate].
  injection H as <-. cbn [p_x_start p_x_end p_sf p_step_num p_sub_div4 p_max_num_chars p_sub_num p_steps_i p_steps_font snd].
  pose proof (t_s_fst _ _ _ _ _ _ Et) as ->.
  repeat split; try assumption; eauto.
  exists s2, s3, s4. repeat split. exact Et.
Qed.

(** The selection as the code computes it.  The subdivision [pat_auto]
    settles on is the entry of the first key of [TF_MIN], scanned from 500
    down to 1, that does not exceed [step_num] and whose gap,
    [min_offset_for_delta] with the step [step_num / key / sf], reaches the
    minimum tick offset; every key before it exceeds [step_num] or is
    illegible.  When no key is taken the entry of key 1 is used. *)
Lemma guarded_selection_spec (sym_width : string -> ImageFont -> Z)
    (r : Renderer) (sc : Scale) (xs xe : option R) (il : bool)
    (p : auto_plan) :
  pat_auto_plan sym_width r sc xs xe il = Ok p ->
  let mto := min_tick_offset (geometry r) in
  let w := SL (geometry r) in
  let a := p_x_start p in
  let b := p_x_end p in
  ((exists earlier i later,
      TF_MIN = (earlier ++ i :: later)%list /\
      Forall (passed_over sc mto a b (p_step_num p) (p_sf p) w) earlier /\
      taken sc mto a b (p_step_num p) (p_sf p) w i /\
      dict_get TF_BY_MIN i = Ok (p_sub_div4 p)) \/
   (Forall (passed_over sc mto a b (p_step_num p) (p_sf p) w) TF_MIN /\
    p_sub_div4 p = (1, 1, 1))) /\
  (forall i,
     In i TF_MIN -> dict_get TF_BY_MIN i = Ok (p_sub_div4 p) ->
     illegible sc mto a b (p_step_num p) (p_sf p) w i ->
     i = 1 /\ p_sub_div4 p = (1, 1, 1) /\
     Forall (passed_over sc mto a b (p_step_num p) (p_sf p) w) TF_MIN) /\
  (forall ok : Z -> res bool,
     (forall i, In i TF_MIN -> is_ok (ok i)) ->
     is_ok (next_sub_div ok TF_MIN)).
Proof.
  intros H mto w a b.
  destruct (pat_auto_plan_inv _ _ _ _ _ _ _ H) as (_ & Hn & _).
  fold mto w a b in Hn.
  assert (C :
    (exists earlier i later,
       TF_MIN = (earlier ++ i :: later)%list /\
       Forall (passed_over sc mto a b (p_step_num p) (p_sf p) w) earlier /\
       taken sc mto a b (p_step_num p) (p_sf p) w i /\
       dict_get TF_BY_MIN i = Ok (p_sub_div4 p)) \/
    (Forall (passed_over sc mto a b (p_step_num p) (p_sf p) w) TF_MIN /\
     p_sub_div4 p = (1, 1, 1))).
  { destruct (next_sub_div_spec _ _ _ Hn)
      as [(earlier & i & later & E & Hf & Hi & Hd) | [Hf Hd]].
    - left. exists earlier, i, later.
      split; [exact E |]. split; [| split; [| exact Hd]].
      + eapply Forall_impl; [exact Hf |]. intros j. apply sub_div_ok_false.
      + now apply sub_div_ok_true.
    - right. split.
      + eapply Forall_impl; [exact Hf |]. intros j. apply sub_div_ok_false.
      + change (dict_get TF_BY_MIN 1) with (@Ok TickFactors (1, 1, 1)) in Hd.
        injection Hd as Hd. now symmetry. }
  split; [exact C |]. split.
  - intros i Hi Hd (gap & Hg & Hlt).
    destruct C as [(earlier & i0 & later & E & Hf & (_ & g0 & Hg0 & Hle) & Hd0)
                  | [Hf Hd0]].
    + assert (i0 = i).
      { apply (TF_BY_MIN_injective i0 i (p_sub_div4 p)); try assumption.
        rewrite E. apply in_or_app. right. now left. }
      subst i0. rewrite Hg in Hg0. injection Hg0 as <-. lra.
    + split; [| split; assumption].
      apply (TF_BY_MIN_injective i 1 (p_sub_div4 p)); try assumption.
      * vm_compute. tauto.
      * rewrite Hd0. reflexivity.
  - intros ok Hok. apply next_sub_div_total; auto.
Qed.

(** C8, as the code has it.  The third level gets a font of its own exactly
    when the finest step is below the third step, the third step is below
    the outer step and is its tenth, and more than 8 characters fit, the
    count of characters being the floor of the numeral gap over the width
    of the glyph. *)
Theorem third_level_numerals (sym_width : string -> ImageFont -> Z)
    (r : Renderer) (sc : Scale) (xs xe : option R) (il : bool)
    (p : auto_plan) :
  pat_auto_plan sym_width r sc xs xe il = Ok p ->
  let g := geometry r in
  let num_font := Style_font_for (style r) N_LG REG (scale_h_ratio g sc None) in
  let '(step_num, step2, step3, step4) := p_steps_i p in
  (snd (p_steps_font p) <> None <->
   step4 < step3 /\ step3 < step_num /\ 8 < p_max_num_chars p /\
   step3 = step_num / 10) /\
  exists gap,
    min_offset_for_delta sc (p_x_start p) (p_x_end p)
      (IZR step_num / IZR (p_sf p)) (IZR (SL g)) = Ok gap /\
    float_floordiv gap (IZR (sym_width "_" num_font))
    = Ok (p_max_num_chars p).
Proof.
  intros H g num_font.
  destruct (pat_auto_plan_inv _ _ _ _ _ _ _ H)
    as (_ & _ & (s2 & s3 & s4 & _ & Es & Esub & Ef) & Hgap).
  rewrite Es. split; [| exact Hgap].
  rewrite Ef, Esub.
  destruct (Z.ltb_spec s4 s3); destruct (Z.ltb_spec s3 (p_step_num p));
    destruct (Z.ltb_spec 8 (p_max_num_chars p));
    destruct (Z.eqb_spec s3 (p_step_num p / 10)); simpl;
    (split; [intros Hne; try (now destruct Hne); repeat split; lia
            | intros (? & ? & ? & ?); try discriminate; lia]).
Qed.

(** ** [pat_auto]: evaluation *)

Local Open Scope R_scope.

Lemma falsy_nonzero (x : R) : x <> 0 -> falsy (Some x) = false.
Proof. intros H. unfold falsy. destruct (Req_dec_T x 0); [contradiction | reflexivity]. Qed.

Lemma endpoints_given (sc : Scale) (xs xe : R) :
  xs <> 0 -> xe <> 0 -> xs <= xe ->
  endpoints sc (Some xs) (Some xe) = Ok (xs, xe).
Proof.
  intros Hs He Hle. unfold endpoints.
  rewrite (falsy_nonzero xs Hs), (falsy_nonzero xe He). simpl.
  destruct (Rlt_dec xe xs); [lra | reflexivity].
Qed.

Lemma pymod_ok (a b : Z) : b <> 0%Z -> pymod a b = Ok (a mod b)%Z.
Proof. intros H. unfold pymod. destruct (Z.eqb_spec b 0); [contradiction | reflexivity]. Qed.

(** The plan [pat_auto] arrives at, given the values of its intermediate
    computations. *)
Lemma pat_auto_plan_forward (sym_width : string -> ImageFont -> Z)
    (r : Renderer) (sc : Scale) (xs xe : R) (il : bool)
    (fw : R) (cd pi : Z) (t : TickFactors) (s2 s3 s4 : Z) (gap : R) :
  let g := geometry r in
  let hf := scale_h_ratio g sc None in
  let sf := (10 ^ (cd + 3))%Z in
  let step_num := (10 ^ Z.max (pi + (cd + 3)) 0)%Z in
  let w := sym_width "_" (Style_font_for (style r) N_LG REG hf) in
  let mnc := math_floor (gap / IZR w) in
  let i0 := py_int (xs * IZR sf) in
  let sub_num := ((s4 <? s3) && (s3 <? step_num) && (8 <? mnc))%Z in
  xs <> 0 -> xs < xe -> 0 < xe ->
  offset_between sc xs xe 1 = Ok fw ->
  math_ceil (Rabs (log10 (Rabs ((xe - xs) / xe)))) = cd ->
  py_int (log10 (xe - xs) - 0.5 * fw) = pi ->
  next_sub_div (sub_div_ok sc (min_tick_offset g) xs xe step_num sf (SL g))
    TF_MIN = Ok t ->
  t_s step_num t = Ok (step_num, s2, s3, s4) ->
  s4 <> 0%Z ->
  min_offset_for_delta sc xs xe (IZR step_num / IZR sf) (IZR (SL g)) = Ok gap ->
  w <> 0%Z ->
  exists p,
    pat_auto_plan sym_width r sc (Some xs) (Some xe) il = Ok p /\
    p_x_start p = xs /\ p_x_end p = xe /\ p_sf p = sf /\
    p_step_num p = step_num /\ p_sub_div4 p = t /\
    p_steps_i p = (step_num, s2, s3, s4) /\
    p_max_num_chars p = mnc /\
    p_i_start p
    = (if (0 <? i0 mod s4)%Z then (i0 - i0 mod s4 + s4)%Z else i0) /\
    p_i_end p = py_int (xe * IZR sf + (if il then 1 else 0)) /\
    p_steps_font p
    = (Some (if (mnc <? 2)%Z then Style_font_for (style r) N_SM REG hf
             else Style_font_for (style r) N_LG REG hf),
       (if (sub_num && (s2 =? step_num / 10) || (s2 =? step_num / 2))%Z
        then Some (Style_font_for (style r) N_SM REG hf) else None),
       (if (sub_num && (s3 =? step_num / 10))%Z
        then Some (Style_font_for (style r) N_XS REG hf) else None)) /\
    p_digit1 p = D1Tuple (mnc <? 3)%Z (mnc <? 16)%Z (mnc <? 128)%Z.
Proof.
  intros g hf sf step_num w mnc i0 sub_num
    Hs Hlt He Hfw Hcd Hpi Hn Ht Hs4 Hgap Hw.
  unfold pat_auto_plan.
  rewrite endpoints_given by lra. cbn [rbind].
  rewrite Rmax_right by lra.
  rewrite truediv_ok by lra. cbn [rbind].
  rewrite math_log10_pos.
  2:{ apply Rabs_pos_lt. apply Rmult_integral_contrapositive_currified.
      - lra.
      - apply Rinv_neq_0_compat. lra. }
  cbn [rbind]. rewrite Hfw. cbn [rbind].
  rewrite math_log10_pos by lra. cbn [rbind].
  rewrite Hcd, Hpi. fold g. fold sf step_num.
  rewrite Hn. cbn [rbind]. rewrite Ht. cbn [rbind].
  rewrite pymod_ok by assumption. cbn [rbind].
  rewrite Hgap. cbn [rbind].
  fold hf. fold w.
  rewrite float_floordiv_ok by (apply not_0_IZR; assumption).
  cbn [rbind]. fold mnc.
  eexists. split; [reflexivity |].
  cbn [p_x_start p_x_end p_sf p_step_num p_sub_div4 p_steps_i p_max_num_chars
       p_i_start p_i_end p_steps_font p_digit1].
  repeat split.
Qed.

(** *** The decade-log scale C *)

Lemma eps_pos : 0 < eps.
Proof. unfold eps. lra. Qed.

Lemma frac_pos_of_C (x : R) :
  0 < x -> frac_pos_of Scales.C x 0 = Ok (log10 x).
Proof.
  intros H. unfold frac_pos_of. change (gen_fn Scales.C x) with (math_log10 x).
  rewrite math_log10_pos by assumption. cbn [rbind].
  change (shift Scales.C) with 0. f_equal. lra.
Qed.

Lemma clamp_input_C (x : R) : eps <= x -> clamp_input (scaler Scales.C) x = x.
Proof.
  intros H. change (clamp_input (scaler Scales.C) x) with (Rmax x eps).
  now apply Rmax_left.
Qed.

Lemma offset_between_C (a b w : R) :
  eps <= a -> a <= b ->
  offset_between Scales.C a b w = Ok (log10 (b / a) * w).
Proof.
  intros Ha Hab. pose proof eps_pos. unfold offset_between.
  rewrite !clamp_input_C by lra.
  rewrite !frac_pos_of_C by lra. cbn [rbind]. f_equal.
  rewrite log10_div by lra.
  assert (log10 a <= log10 b) by (apply log10_le; lra).
  rewrite Rabs_right by lra. reflexivity.
Qed.

Lemma min_offset_for_delta_C (xs xe d w : R) :
  eps <= xs -> 0 <= d -> eps <= xe - d ->
  min_offset_for_delta Scales.C xs xe d w
  = Ok (Rmin (log10 ((xs + d) / xs) * w) (log10 (xe / (xe - d)) * w)).
Proof.
  intros H1 H2 H3. unfold min_offset_for_delta.
  rewrite !offset_between_C by lra. reflexivity.
Qed.

Lemma next_sub_div_skip (ok : Z -> res bool) (k : Z) (ks : list Z) :
  ok k = Ok false -> next_sub_div ok (k :: ks) = next_sub_div ok ks.
Proof. intros H. simpl. now rewrite H. Qed.

Lemma next_sub_div_take (ok : Z -> res bool) (k : Z) (ks : list Z) :
  ok k = Ok true -> next_sub_div ok (k :: ks) = dict_get TF_BY_MIN k.
Proof. intros H. simpl. now rewrite H. Qed.

Lemma math_floor_ge (x : R) (z : Z) : IZR z <= x -> (z <= math_floor x)%Z.
Proof.
  intros H. unfold math_floor.
  destruct (base_Int_part x) as [_ H2].
  apply Z.lt_succ_r. apply lt_IZR. rewrite succ_IZR. lra.
Qed.

Lemma math_floor_lt (x : R) (z : Z) : x < IZR z -> (math_floor x < z)%Z.
Proof.
  intros H. unfold math_floor.
  destruct (base_Int_part x) as [H1 _]. apply lt_IZR. lra.
Qed.

Local Open Scope R_scope.

Lemma log10_scaled_ge (n d p q m w : Z) :
  (0 < n)%Z -> (0 < d)%Z -> (0 <= p)%Z -> (0 < q)%Z -> (0 < w)%Z ->
  (m * q <= p * w)%Z ->
  (10 ^ p * d ^ q <=? n ^ q)%Z = true ->
  IZR m <= log10 (IZR n / IZR d) * IZR w.
Proof.
  intros Hn Hd Hp Hq Hw Hm H.
  pose proof (log10_ratio_ge n d p q Hn Hd Hp Hq H) as B.
  assert (Hq' : 0 < IZR q) by now apply IZR_lt.
  assert (Hw' : 0 < IZR w) by now apply IZR_lt.
  apply IZR_le in Hm. rewrite !mult_IZR in Hm.
  apply Rmult_le_compat_r with (r := IZR q) in B; [| lra].
  replace (IZR p / IZR q * IZR q) with (IZR p) in B by (field; lra).
  apply Rmult_le_reg_r with (IZR q); [assumption |]. nra.
Qed.

Lemma log10_scaled_lt (n d p q m w : Z) :
  (0 < n)%Z -> (0 < d)%Z -> (0 <= p)%Z -> (0 < q)%Z -> (0 < w)%Z ->
  (p * w <= m * q)%Z ->
  (n ^ q <? 10 ^ p * d ^ q)%Z = true ->
  log10 (IZR n / IZR d) * IZR w < IZR m.
Proof.
  intros Hn Hd Hp Hq Hw Hm H.
  pose proof (log10_ratio_lt n d p q Hn Hd Hp Hq H) as B.
  assert (Hq' : 0 < IZR q) by now apply IZR_lt.
  assert (Hw' : 0 < IZR w) by now apply IZR_lt.
  apply IZR_le in Hm. rewrite !mult_IZR in Hm.
  apply Rmult_lt_compat_r with (r := IZR q) in B; [| lra].
  replace (IZR p / IZR q * IZR q) with (IZR p) in B by (field; lra).
  apply Rmult_lt_reg_r with (IZR q); [assumption |]. nra.
Qed.

(** Bounds on [ln 10], and on the logarithm of a ratio from
    [1 - 1 / y <= ln y <= y - 1]. *)
Lemma ln10_gt_2 : 2 < ln 10.
Proof.
  apply exp_lt_inv. rewrite exp_ln by lra.
  replace 2 with (1 + 1) by lra. rewrite exp_plus.
  pose proof exp_le_3. pose proof (exp_pos 1). nra.
Qed.

Lemma exp_mult_nat (x : R) (n : nat) : exp (INR n * x) = exp x ^ n.
Proof.
  induction n as [| n IH].
  - simpl. rewrite Rmult_0_l. apply exp_0.
  - rewrite S_INR. replace ((INR n + 1) * x) with (x + INR n * x) by lra.
    rewrite exp_plus, IH. reflexivity.
Qed.

Lemma ln10_le : ln 10 <= 47 / 20.
Proof.
  destruct (Rle_or_lt (ln 10) (47 / 20)) as [H | H]; [exact H | exfalso].
  apply exp_increasing in H. rewrite exp_ln in H by lra.
  assert (E : exp (47 / 20) = exp (47 / 2000) ^ 100).
  { rewrite <- exp_mult_nat. f_equal. rewrite INR_IZR_INZ.
    change (Z.of_nat 100) with 100%Z. lra. }
  rewrite E in H.
  assert (B : 10 ^ 1 <= (IZR 2047 / IZR 2000) ^ 100)
    by (apply pow_ratio_ge; [lia | vm_compute; reflexivity]).
  assert (C : (IZR 2047 / IZR 2000) ^ 100 <= exp (47 / 2000) ^ 100).
  { apply pow_incr. split; [lra |].
    pose proof (exp_ineq1_le (47 / 2000)). lra. }
  lra.
Qed.

Lemma ln_le_sub1 (y : R) : 0 < y -> ln y <= y - 1.
Proof.
  intros Hy. rewrite <- (ln_exp (y - 1)).
  pose proof (exp_ineq1_le (y - 1)) as H.
  destruct (Req_dec y (exp (y - 1))) as [E | E].
  - rewrite <- E. lra.
  - left. apply ln_increasing; lra.
Qed.

Lemma ln_lt_sub1 (y : R) : 1 < y -> ln y < y - 1.
Proof.
  intros Hy. rewrite <- (ln_exp (y - 1)).
  pose proof (exp_ineq1 (y - 1)) as H.
  apply ln_increasing; lra.
Qed.

Lemma log10_near1_lt (n d m w : Z) :
  (0 < d)%Z -> (d < n)%Z -> (0 < w)%Z ->
  ((n - d) * w <= 2 * d * m)%Z ->
  log10 (IZR n / IZR d) * IZR w < IZR m.
Proof.
  intros Hd Hn Hw Hm.
  apply IZR_lt in Hd, Hn, Hw. apply IZR_le in Hm.
  rewrite !mult_IZR, minus_IZR in Hm.
  pose proof ln10_gt_2 as L.
  assert (Hr : 1 < IZR n / IZR d).
  { apply Rmult_lt_reg_r with (IZR d); [assumption |].
    unfold Rdiv. rewrite Rmult_assoc, Rinv_l, Rmult_1_r by lra. lra. }
  pose proof (ln_lt_sub1 _ Hr) as B.
  assert (P : 0 < ln (IZR n / IZR d)).
  { rewrite <- ln_1. apply ln_increasing; lra. }
  assert (E : (IZR n / IZR d - 1) * IZR d = IZR n - IZR d) by (field; lra).
  assert (F : log10 (IZR n / IZR d) * ln 10 = ln (IZR n / IZR d))
    by (unfold log10; field; lra).
  set (l := log10 (IZR n / IZR d)) in *.
  set (y := ln (IZR n / IZR d)) in *.
  set (r := IZR n / IZR d) in *.
  assert (Pl : 0 < l).
  { apply Rmult_lt_reg_r with (ln 10); [lra |]. lra. }
  assert (G : 2 * l < r - 1) by nra.
  apply Rmult_lt_reg_l with (2 * IZR d); [lra |].
  assert (K : 2 * l * IZR d < (r - 1) * IZR d)
    by (apply Rmult_lt_compat_r; lra).
  assert (K2 : 2 * l * IZR d * IZR w < (IZR n - IZR d) * IZR w).
  { rewrite <- E. apply Rmult_lt_compat_r; lra. }
  lra.
Qed.

Lemma log10_near1_ge (n d m w : Z) :
  (0 < d)%Z -> (d <= n)%Z -> (0 < w)%Z ->
  (47 * m * n <= 20 * (n - d) * w)%Z ->
  IZR m <= log10 (IZR n / IZR d) * IZR w.
Proof.
  intros Hd Hn Hw Hm.
  apply IZR_lt in Hd, Hw. apply IZR_le in Hn, Hm.
  rewrite !mult_IZR, minus_IZR in Hm.
  pose proof ln10_gt_2 as L. pose proof ln10_le as U.
  assert (Hr : 0 < IZR d / IZR n) by (apply Rdiv_lt_0_compat; lra).
  pose proof (ln_le_sub1 _ Hr) as B.
  replace (IZR d / IZR n) with (/ (IZR n / IZR d)) in B at 1 by (field; lra).
  rewrite ln_Rinv in B by (apply Rdiv_lt_0_compat; lra).
  assert (E : (1 - IZR d / IZR n) * IZR n = IZR n - IZR d) by (field; lra).
  assert (F : log10 (IZR n / IZR d) * ln 10 = ln (IZR n / IZR d))
    by (unfold log10; field; lra).
  set (l := log10 (IZR n / IZR d)) in *.
  set (y := ln (IZR n / IZR d)) in *.
  set (s := IZR d / IZR n) in *.
  assert (Ps : s <= 1).
  { apply Rmult_le_reg_r with (IZR n); [lra |]. lra. }
  assert (Pl : 0 <= l).
  { apply Rmult_le_reg_r with (ln 10); [lra |]. lra. }
  assert (G : 20 * (1 - s) <= 47 * l) by nra.
  assert (K : 20 * (IZR n - IZR d) <= 47 * l * IZR n).
  { rewrite <- E. replace (20 * ((1 - s) * IZR n)) with (20 * (1 - s) * IZR n) by lra.
    apply Rmult_le_compat_r; lra. }
  assert (K2 : 20 * (IZR n - IZR d) * IZR w <= 47 * l * IZR n * IZR w)
    by (apply Rmult_le_compat_r; lra).
  apply Rmult_le_reg_l with (47 * IZR n); [lra |]. lra.
Qed.

(** A bound on a scaled logarithm: for a ratio near 1 from the bounds on
    [ln]; otherwise the fraction [num / den] sits between the logarithm and
    the offset over the scale length, and the comparison of powers is
    computed. *)
Ltac scaled_ge num den :=
  first
    [ apply log10_near1_ge; [lia | lia | lia | lia]
    | apply log10_scaled_ge with (p := num) (q := den);
      [lia | lia | lia | lia | lia | lia | vm_compute; reflexivity] ].
Ltac scaled_lt num den :=
  first
    [ apply log10_near1_lt; [lia | lia | lia | lia]
    | apply log10_scaled_lt with (p := num) (q := den);
      [lia | lia | lia | lia | lia | lia | vm_compute; reflexivity] ].

(** The gap of key [i] on scale C, for a step [d]: legible when both ratios
    reach the offset, illegible when the ratio at the end falls short. *)
Lemma taken_C (mto : Z) (xs xe : R) (step_num sf w i n1 d1 n2 d2 : Z) :
  (i <= step_num)%Z ->
  eps <= xs -> 0 <= IZR step_num / IZR i / IZR sf ->
  eps <= xe - IZR step_num / IZR i / IZR sf ->
  (xs + IZR step_num / IZR i / IZR sf) / xs = IZR n1 / IZR d1 ->
  xe / (xe - IZR step_num / IZR i / IZR sf) = IZR n2 / IZR d2 ->
  IZR mto <= log10 (IZR n1 / IZR d1) * IZR w ->
  IZR mto <= log10 (IZR n2 / IZR d2) * IZR w ->
  sub_div_ok Scales.C mto xs xe step_num sf w i = Ok true.
Proof.
  intros Hi H1 H2 H3 E1 E2 B1 B2. apply sub_div_ok_true. split; [exact Hi |].
  eexists. split; [now apply min_offset_for_delta_C |].
  rewrite E1, E2. now apply Rmin_glb.
Qed.

Lemma illegible_C (mto : Z) (xs xe : R) (step_num sf w i n2 d2 : Z) :
  eps <= xs -> 0 <= IZR step_num / IZR i / IZR sf ->
  eps <= xe - IZR step_num / IZR i / IZR sf ->
  xe / (xe - IZR step_num / IZR i / IZR sf) = IZR n2 / IZR d2 ->
  log10 (IZR n2 / IZR d2) * IZR w < IZR mto ->
  illegible Scales.C mto xs xe step_num sf w i.
Proof.
  intros H1 H2 H3 E2 B2.
  eexists. split; [now apply min_offset_for_delta_C |].
  rewrite E2. eapply Rle_lt_trans; [apply Rmin_r | exact B2].
Qed.



(** *** Scale C over [1, 10] *)

Local Open Scope R_scope.

Lemma log10_9_bounds : 1 / 2 <= log10 9 < 1.
Proof.
  split.
  - replace 9 with (IZR 9 / IZR 1) by lra. log10_ge.
  - rewrite <- log10_10. apply log10_lt; lra.
Qed.

(** Whatever the geometry, the range [1, 10] on scale C gets the scale
    factor and the outer step [10 ^ 4]; the plan then follows from the entry
    selected. *)
Lemma plan_C_decade (sym_width : string -> ImageFont -> Z) (r : Renderer)
    (il : bool) (t : TickFactors) (s2 s3 s4 : Z) :
  let g := geometry r in
  let hf := scale_h_ratio g Scales.C None in
  let w := sym_width "_" (Style_font_for (style r) N_LG REG hf) in
  let gap := Rmin (log10 2 * IZR (SL g)) (log10 (10 / 9) * IZR (SL g)) in
  let mnc := math_floor (gap / IZR w) in
  let sub_num := ((s4 <? s3) && (s3 <? 10000) && (8 <? mnc))%Z in
  next_sub_div
    (sub_div_ok Scales.C (min_tick_offset g) 1 10 10000 10000 (SL g)) TF_MIN
  = Ok t ->
  t_s 10000 t = Ok (10000, s2, s3, s4)%Z ->
  s4 <> 0%Z -> w <> 0%Z ->
  exists p,
    pat_auto_plan sym_width r Scales.C (Some 1) (Some 10) il = Ok p /\
    p_x_start p = 1 /\ p_x_end p = 10 /\ p_sf p = 10000%Z /\
    p_step_num p = 10000%Z /\ p_sub_div4 p = t /\
    p_steps_i p = (10000, s2, s3, s4)%Z /\
    p_max_num_chars p = mnc /\
    p_i_start p
    = (if (0 <? 10000 mod s4)%Z then (10000 - 10000 mod s4 + s4)%Z
       else 10000%Z) /\
    p_i_end p = (if il then 100001 else 100000)%Z /\
    p_steps_font p
    = (Some (if (mnc <? 2)%Z then Style_font_for (style r) N_SM REG hf
             else Style_font_for (style r) N_LG REG hf),
       (if (sub_num && (s2 =? 10000 / 10) || (s2 =? 10000 / 2))%Z
        then Some (Style_font_for (style r) N_SM REG hf) else None),
       (if (sub_num && (s3 =? 10000 / 10))%Z
        then Some (Style_font_for (style r) N_XS REG hf) else None)) /\
    p_digit1 p = D1Tuple (mnc <? 3)%Z (mnc <? 16)%Z (mnc <? 128)%Z.
Proof.
  intros g hf w gap mnc sub_num Hn Ht Hs4 Hw.
  pose proof eps_pos as Heps. unfold eps in Heps.
  pose proof log10_9_bounds as L9.
  assert (E0 : py_int (1 * IZR 10000) = 10000%Z).
  { replace (1 * IZR 10000) with (IZR 10000) by lra. apply py_int_IZR. }
  assert (E1 : forall b : bool,
             py_int (10 * IZR 10000 + (if b then 1 else 0))
             = (if b then 100001 else 100000)%Z).
  { intros [|].
    - replace (10 * IZR 10000 + 1) with (IZR 100001) by lra. apply py_int_IZR.
    - replace (10 * IZR 10000 + 0) with (IZR 100000) by lra. apply py_int_IZR. }
  destruct (pat_auto_plan_forward sym_width r Scales.C 1 10 il
              (log10 (10 / 1) * 1) 1 0 t s2 s3 s4 gap)
    as (p & Hp & Exs & Exe & Esf & Esn & Et & Esi & Em & Eis & Eie & Ef & Ed);
    try lra; try assumption.
  - apply offset_between_C; unfold eps; lra.
  - replace ((10 - 1) / 10) with (/ (10 / 9)) by lra.
    rewrite (Rabs_right (/ (10 / 9))) by lra. rewrite log10_inv by lra.
    assert (0 < log10 (10 / 9) <= 1).
    { split.
      - rewrite <- log10_1. apply log10_lt; lra.
      - rewrite <- log10_10. apply log10_le; lra. }
    rewrite Rabs_left by lra. apply math_ceil_eq. lra.
  - replace (10 - 1) with 9 by lra. replace (10 / 1) with 10 by lra.
    rewrite log10_10. apply py_int_nonneg; lra.
  - change (10 ^ Z.max (0 + (1 + 3)) 0)%Z with 10000%Z.
    change (10 ^ (1 + 3))%Z with 10000%Z.
    rewrite min_offset_for_delta_C by (unfold eps; lra).
    unfold gap. f_equal. f_equal; f_equal; f_equal; lra.
  - change (10 ^ Z.max (0 + (1 + 3)) 0)%Z with 10000%Z in *.
    change (10 ^ (1 + 3))%Z with 10000%Z in *.
    rewrite E0 in Eis. rewrite E1 in Eie.
    exists p. repeat split; assumption.
Qed.

Lemma math_floor_nonneg (x : R) : 0 <= x -> (0 <= math_floor x)%Z.
Proof. intros H. now apply (math_floor_ge x 0). Qed.

(** The demo geometry (scale length 5600, minimum tick offset 9) with a
    glyph 20 pixels wide: key 25 is selected, the steps are 10000, 10000,
    2000 and 400, at least 8 characters fit, and the third level still has
    no font. *)
Lemma plan_C_decade_demo :
  exists p,
    pat_auto_plan (fun _ _ => 20%Z) Models.Demo_renderer Scales.C
      (Some 1) (Some 10) false = Ok p /\
    p_sub_div4 p = (1, 5, 5)%Z /\
    p_steps_i p = (10000, 10000, 2000, 400)%Z /\
    (8 <= p_max_num_chars p)%Z /\
    snd (p_steps_font p) = None.
Proof.
  pose proof eps_pos as Heps. unfold eps in Heps.
  destruct (plan_C_decade (fun _ _ => 20%Z) Models.Demo_renderer false
              (1, 5, 5)%Z 10000 2000 400)
    as (p & Hp & _ & _ & _ & _ & Et & Esi & Em & _ & _ & Ef & _).
  - change (min_tick_offset (geometry Models.Demo_renderer)) with 9%Z.
    change (SL (geometry Models.Demo_renderer)) with 5600%Z.
    change TF_MIN with [500; 250; 100; 50; 25; 20; 10; 5; 2; 1]%Z.
    rewrite next_sub_div_skip.
    2:{ apply sub_div_ok_false. right.
        apply (illegible_C 9 1 10 10000 10000 5600 500 5000 4999);
          unfold eps; try lra; scaled_lt 1%Z 1000%Z. }
    rewrite next_sub_div_skip.
    2:{ apply sub_div_ok_false. right.
        apply (illegible_C 9 1 10 10000 10000 5600 250 2500 2499);
          unfold eps; try lra; scaled_lt 1%Z 1000%Z. }
    rewrite next_sub_div_skip.
    2:{ apply sub_div_ok_false. right.
        apply (illegible_C 9 1 10 10000 10000 5600 100 1000 999);
          unfold eps; try lra; scaled_lt 1%Z 1000%Z. }
    rewrite next_sub_div_skip.
    2:{ apply sub_div_ok_false. right.
        apply (illegible_C 9 1 10 10000 10000 5600 50 500 499);
          unfold eps; try lra; scaled_lt 1%Z 1000%Z. }
    rewrite next_sub_div_take; [reflexivity |].
    apply (taken_C 9 1 10 10000 10000 5600 25 26 25 250 249);
      unfold eps; try lra; try lia; scaled_ge 1%Z 600%Z.
  - reflexivity.
  - lia.
  - lia.
  - exists p. split; [exact Hp |]. split; [exact Et |]. split; [exact Esi |].
    split.
    + rewrite Em. apply math_floor_ge.
      change (SL (geometry Models.Demo_renderer)) with 5600%Z.
      assert (B1 : IZR 160 <= log10 (IZR 2 / IZR 1) * IZR 5600)
        by scaled_ge 1%Z 25%Z.
      assert (B2 : IZR 160 <= log10 (IZR 10 / IZR 9) * IZR 5600)
        by scaled_ge 1%Z 25%Z.
      replace (IZR 2 / IZR 1) with 2 in B1 by lra.
      pose proof (Rmin_glb _ _ _ B1 B2) as B.
      apply Rmult_le_reg_r with (IZR 20); [lra |].
      unfold Rdiv. rewrite Rmult_assoc, Rinv_l, Rmult_1_r by lra. lra.
    + rewrite Ef. cbn [snd].
      change (2000 =? 10000 / 10)%Z with false.
      now rewrite andb_false_r.
Qed.

(** C8 as the specification words it fails on scale C over [1, 10] with the
    demo geometry and a glyph 20 pixels wide: the finest step 400 is below
    the third step 2000 and at least 8 characters fit, yet the third level
    gets no font, because the third step is not a tenth of the outer
    step. *)
Lemma third_level_counterexample :
  exists p step_num step2 step3 step4,
    pat_auto_plan (fun _ _ => 20%Z) Models.Demo_renderer Scales.C
      (Some 1) (Some 10) false = Ok p /\
    p_steps_i p = (step_num, step2, step3, step4) /\
    (step4 < step3)%Z /\ (8 <= p_max_num_chars p)%Z /\
    snd (p_steps_font p) = None.
Proof.
  destruct plan_C_decade_demo as (p & Hp & _ & Es & Hm & Hf).
  exists p, 10000%Z, 10000%Z, 2000%Z, 400%Z.
  repeat split; try assumption; lia.
Qed.

Lemma third_level_numerals_witness :
  exists p,
    pat_auto_plan (fun _ _ => 20%Z) Models.Demo_renderer Scales.C
      (Some 1) (Some 10) false = Ok p /\
    let g := geometry Models.Demo_renderer in
    let num_font :=
      Style_font_for (style Models.Demo_renderer) N_LG REG
        (scale_h_ratio g Scales.C None) in
    let '(step_num, step2, step3, step4) := p_steps_i p in
    (snd (p_steps_font p) <> None <->
     (step4 < step3 /\ step3 < step_num /\ 8 < p_max_num_chars p /\
      step3 = step_num / 10)%Z) /\
    exists gap,
      min_offset_for_delta Scales.C (p_x_start p) (p_x_end p)
        (IZR step_num / IZR (p_sf p)) (IZR (SL g)) = Ok gap /\
      float_floordiv gap (IZR ((fun _ _ => 20%Z) "_"%string num_font))
      = Ok (p_max_num_chars p).
Proof.
  destruct plan_C_decade_demo as (p & Hp & _).
  exists p. split; [exact Hp |].
  exact (third_level_numerals _ _ _ _ _ _ p Hp).
Defined.

(** ** [pat]: the ticks of a plan *)

Local Open Scope R_scope.

Lemma py_range_In (start stop step : Z) (l : list Z) :
  (0 < step)%Z ->
  py_range start stop step = Ok l ->
  forall i, In i l <->
            (start <= i < stop)%Z /\ ((i - start) mod step = 0)%Z.
Proof.
  intros Hs. unfold py_range.
  destruct (Z.eqb_spec step 0) as [? | _]; [lia |].
  destruct (Z.ltb_spec 0 step) as [_ | ?]; [| lia].
  intros Hr. injection Hr as <-. intros i.
  rewrite in_map_iff. setoid_rewrite in_seq.
  set (q := ((stop - start + step - 1) / step)%Z).
  split.
  - intros (k & <- & _ & Hk).
    assert (Hq : (Z.of_nat k + 1 <= q)%Z) by lia.
    assert (Hm : (step * q <= stop - start + step - 1)%Z)
      by (apply Z.mul_div_le; lia).
    split; [nia |].
    replace (start + step * Z.of_nat k - start)%Z
      with (Z.of_nat k * step)%Z by lia.
    apply Z_mod_mult.
  - intros [[H1 H2] Hm].
    apply Z.mod_divide in Hm; [| lia]. destruct Hm as [k Hk].
    assert (0 <= k)%Z by nia.
    exists (Z.to_nat k). split; [lia |]. split; [lia |].
    assert (k + 1 <= q)%Z.
    { apply Z.div_le_lower_bound; [lia | nia]. }
    lia.
Qed.

Lemma for_each_ok {A B} (f : A -> res (list B)) (l : list A) :
  (forall a, In a l -> is_ok (f a)) -> is_ok (for_each f l).
Proof.
  induction l as [| a l IH]; intros H; simpl.
  - eexists. reflexivity.
  - destruct (H a) as [x Ex]; [now left |].
    destruct IH as [y Ey]; [intros b Hb; apply H; now right |].
    rewrite Ex, Ey. simpl. eexists. reflexivity.
Qed.

Lemma for_each_In {A B} (f : A -> res (list B)) (l : list A) (out : list B) :
  for_each f l = Ok out ->
  forall b, In b out <-> exists a x, In a l /\ f a = Ok x /\ In b x.
Proof.
  revert out. induction l as [| a l IH]; intros out H b; simpl in H.
  - injection H as <-. split; [intros [] | intros (a & x & [] & _)].
  - destruct (f a) as [x |] eqn:Ex; simpl in H; [| discriminate].
    destruct (for_each f l) as [y |]; simpl in H; [| discriminate].
    injection H as <-. rewrite in_app_iff, (IH y eq_refl b). split.
    + intros [Hb | (a' & x' & Hin & E & Hb)].
      * exists a, x. repeat split; [now left | assumption ..].
      * exists a', x'. repeat split; [now right | assumption ..].
    + intros (a' & x' & [<- | Hin] & E & Hb).
      * left. congruence.
      * right. eauto.
Qed.

Lemma scale_to_C (n w : R) :
  0 < n -> scale_to Scales.C n w 0 = Ok (py_round (w * log10 n)).
Proof.
  intros H. unfold scale_to. now rewrite frac_pos_of_C.
Qed.

Lemma is_integer_IZR (z : Z) : is_integer (IZR z) = true.
Proof.
  unfold is_integer. rewrite (math_floor_eq (IZR z) z) by lra.
  destruct (Req_dec_T (IZR z) (IZR z)); [reflexivity | contradiction].
Qed.

(** [draw_numeral] returns on every float that is not negative. *)
Lemma numeral_sym_nonneg (float_str : R -> string) (x : R) :
  0 <= x -> is_ok (numeral_sym float_str (NFloat x)).
Proof.
  intros Hx. unfold numeral_sym.
  destruct (is_integer x) eqn:Ei; cbn [negb].
  - destruct (Req_dec_T x 0) as [_ | Hne]; [eexists; reflexivity |].
    rewrite math_log10_pos by lra. cbn [rbind].
    destruct (expon_sym (log10 x)); eexists; reflexivity.
  - assert (Hne : x <> 0).
    { intros ->. rewrite (is_integer_IZR 0) in Ei. discriminate. }
    destruct (String.prefix "0." (float_str x)); [| eexists; reflexivity].
    rewrite math_log10_pos by lra. cbn [rbind].
    destruct (expon_sym (log10 x)); eexists; reflexivity.
Qed.

(** One tick of the plan of the scenario: an index on a multiple of 10000
    carries the numeral of its value, and no numeral is anything but the
    value of its index. *)
Lemma pat_tick_scenario (float_str : R -> string) (w : Z)
    (th1 th2 th3 th4 : Z) (f1 f2 : ImageFont) (d2 d3 : bool) (i : Z) :
  (10000 <= i <= 100000)%Z ->
  exists ops,
    pat_tick float_str Scales.C w 10000 (10000, 5000, 1000, 1000)%Z
      (th1, th2, th3, th4) (Some f1, Some f2, None) (false, d2, d3) i
    = Ok ops /\
    ((i mod 10000 = 0)%Z ->
     exists x,
       In (DrawNumeral (NFloat (IZR i / IZR 10000)) x th1 f1) ops) /\
    (forall v x th f,
       In (DrawNumeral v x th f) ops -> v = NFloat (IZR i / IZR 10000)).
Proof.
  intros Hi.
  assert (Hn : 1 <= IZR i / IZR 10000 <= 10).
  { assert (IZR 10000 <= IZR i <= IZR 100000)
      by (split; apply IZR_le; lia).
    split.
    - apply Rmult_le_reg_r with (IZR 10000); [lra |].
      unfold Rdiv. rewrite Rmult_assoc, Rinv_l by lra. lra.
    - apply Rmult_le_reg_r with (IZR 10000); [lra |].
      unfold Rdiv. rewrite Rmult_assoc, Rinv_l by lra. lra. }
  unfold pat_tick.
  rewrite truediv_ok by lra. cbn [rbind].
  rewrite scale_to_C by lra. cbn [rbind].
  set (n := IZR i / IZR 10000) in *.
  set (x := py_round (IZR w * log10 n)).
  destruct (numeral_sym_nonneg float_str n ltac:(lra)) as [num_sym Es].
  rewrite (pymod_ok i 10000) by lia. cbn [rbind].
  destruct (Z.eqb_spec (i mod 10000) 0) as [E1 | E1].
  - cbn [numeral_ops rbind]. rewrite Es. cbn [rbind app].
    eexists. split; [reflexivity |]. split.
    + intros _. exists x. now left.
    + intros v x' th f [H | [H | []]]; [congruence | discriminate].
  - rewrite (pymod_ok i 5000) by lia. cbn [rbind].
    destruct (Z.eqb_spec (i mod 5000) 0) as [E2 | E2].
    + assert (Hv : (if d2 then sig_digit_of float_str n else Ok (NFloat n))
                   = Ok (NFloat n)).
      { destruct d2; [| reflexivity]. apply sig_digit_of_unit_range.
        assert (Hi' : (10000 < i < 100000)%Z).
        { split.
          - destruct (Z.eq_dec i 10000%Z) as [-> | ?]; [now destruct E1 | lia].
          - destruct (Z.eq_dec i 100000%Z) as [-> | ?]; [now destruct E1 | lia]. }
        assert (IZR 10000 < IZR i < IZR 100000)
          by (split; apply IZR_lt; lia).
        unfold n. split.
        - apply Rmult_lt_reg_r with (IZR 10000); [lra |].
          unfold Rdiv. rewrite Rmult_assoc, Rinv_l by lra. lra.
        - apply Rmult_lt_reg_r with (IZR 10000); [lra |].
          unfold Rdiv. rewrite Rmult_assoc, Rinv_l by lra. lra. }
      unfold numeral_ops. rewrite Hv. cbn [rbind]. rewrite Es.
      cbn [rbind app].
      eexists. split; [reflexivity |]. split; [intros; contradiction |].
      intros v x' th f [H | [H | []]]; [congruence | discriminate].
    + rewrite (pymod_ok i 1000) by lia. cbn [rbind].
      destruct (i mod 1000 =? 0)%Z; cbn [numeral_ops rbind app];
        (eexists; split; [reflexivity |]; split; [intros; contradiction |]);
        intros v x' th f [H | []]; discriminate.
Qed.

(** The plan of the scenario: whatever the other attributes of the
    geometry, a scale 8000 pixels long with a minimum tick offset of 30
    selects key 10 for [1, 10] on scale C. *)
Lemma plan_C_scenario (sym_width : string -> ImageFont -> Z) (r : Renderer)
    (il : bool) :
  SL (geometry r) = 8000%Z -> STT (geometry r) = 10%Z ->
  (0 < sym_width "_"
         (Style_font_for (style r) N_LG REG
            (scale_h_ratio (geometry r) Scales.C None)) <= 100)%Z ->
  exists p f1 f2 d2 d3,
    pat_auto_plan sym_width r Scales.C (Some 1) (Some 10) il = Ok p /\
    p_sf p = 10000%Z /\ p_sub_div4 p = (2, 5, 1)%Z /\
    p_steps_i p = (10000, 5000, 1000, 1000)%Z /\
    p_i_start p = 10000%Z /\
    p_i_end p = (if il then 100001 else 100000)%Z /\
    p_steps_font p = (Some f1, Some f2, None) /\
    p_digit1 p = D1Tuple false d2 d3.
Proof.
  intros HSL HSTT Hw.
  pose proof eps_pos as Heps. unfold eps in Heps.
  destruct (plan_C_decade sym_width r il (2, 5, 1)%Z 5000 1000 1000)
    as (p & Hp & _ & _ & Esf & _ & Et & Esi & Em & Eis & Eie & Ef & Ed).
  - unfold min_tick_offset. rewrite HSL, HSTT.
    change (10 * 3)%Z with 30%Z.
    change TF_MIN with [500; 250; 100; 50; 25; 20; 10; 5; 2; 1]%Z.
    rewrite next_sub_div_skip.
    2:{ apply sub_div_ok_false. right.
        apply (illegible_C 30 1 10 10000 10000 8000 500 5000 4999);
          unfold eps; try lra; scaled_lt 1%Z 300%Z. }
    rewrite next_sub_div_skip.
    2:{ apply sub_div_ok_false. right.
        apply (illegible_C 30 1 10 10000 10000 8000 250 2500 2499);
          unfold eps; try lra; scaled_lt 1%Z 300%Z. }
    rewrite next_sub_div_skip.
    2:{ apply sub_div_ok_false. right.
        apply (illegible_C 30 1 10 10000 10000 8000 100 1000 999);
          unfold eps; try lra; scaled_lt 1%Z 300%Z. }
    rewrite next_sub_div_skip.
    2:{ apply sub_div_ok_false. right.
        apply (illegible_C 30 1 10 10000 10000 8000 50 500 499);
          unfold eps; try lra; scaled_lt 1%Z 300%Z. }
    rewrite next_sub_div_skip.
    2:{ apply sub_div_ok_false. right.
        apply (illegible_C 30 1 10 10000 10000 8000 25 250 249);
          unfold eps; try lra; scaled_lt 1%Z 300%Z. }
    rewrite next_sub_div_skip.
    2:{ apply sub_div_ok_false. right.
        apply (illegible_C 30 1 10 10000 10000 8000 20 200 199);
          unfold eps; try lra; scaled_lt 1%Z 300%Z. }
    rewrite next_sub_div_take; [reflexivity |].
    apply (taken_C 30 1 10 10000 10000 8000 10 11 10 100 99);
      unfold eps; try lra; try lia; scaled_ge 1%Z 250%Z.
  - reflexivity.
  - lia.
  - lia.
  - assert (Hm : (3 <= p_max_num_chars p)%Z).
    { rewrite Em, HSL. apply math_floor_ge.
      assert (B1 : IZR 300 <= log10 (IZR 2 / IZR 1) * IZR 8000)
        by scaled_ge 1%Z 25%Z.
      assert (B2 : IZR 300 <= log10 (IZR 10 / IZR 9) * IZR 8000)
        by scaled_ge 1%Z 25%Z.
      replace (IZR 2 / IZR 1) with 2 in B1 by lra.
      pose proof (Rmin_glb _ _ _ B1 B2) as B.
      set (w := sym_width "_" _) in *.
      assert (0 < IZR w <= 100)
        by (split; [apply (IZR_lt 0) | apply (IZR_le w 100)]; lia).
      apply Rmult_le_reg_r with (IZR w); [lra |].
      unfold Rdiv. rewrite Rmult_assoc, Rinv_l, Rmult_1_r by lra. nra. }
    rewrite <- Em in Ef, Ed.
    destruct (Z.ltb_spec (p_max_num_chars p) 3) as [? | _]; [lia |].
    change (1000 <? 1000)%Z with false in Ef.
    change (5000 =? 10000 / 2)%Z with true in Ef.
    rewrite orb_true_r in Ef. cbn [andb] in Ef.
    eexists p, _, _, _, _.
    split; [exact Hp |]. split; [exact Esf |]. split; [exact Et |].
    split; [exact Esi |]. split; [exact Eis |]. split; [exact Eie |].
    split; [exact Ef | exact Ed].
Qed.

(** The drawing calls of the scenario. *)
Lemma pat_scenario (float_str : R -> string) (r : Renderer) (il : bool)
    (ths : Z * Z * Z * Z) (f1 f2 : ImageFont) (d2 d3 : bool) :
  exists ops,
    pat float_str r Scales.C 10000 (if il then 100001 else 100000) 10000
      (10000, 5000, 1000, 1000)%Z ths (Some f1, Some f2, None)
      (D1Tuple false d2 d3) = Ok ops /\
    (forall k, (1 <= k <= 9)%Z ->
       exists x th font, In (DrawNumeral (NFloat (IZR k)) x th font) ops) /\
    ((exists x th font, In (DrawNumeral (NFloat 10) x th font) ops)
     <-> il = true).
Proof.
  destruct ths as [[[th1 th2] th3] th4].
  unfold pat. cbn [snd digit1_list].
  destruct (py_range 10000 (if il then 100001 else 100000) 1000)
    as [idx |] eqn:Er; [| destruct il; discriminate].
  cbn [rbind].
  pose proof (py_range_In 10000%Z _ 1000%Z idx ltac:(lia) Er) as Hidx.
  set (f := pat_tick float_str Scales.C (SL (geometry r)) 10000 _ _ _ _).
  assert (Hf : forall i, In i idx ->
             exists ops,
               f i = Ok ops /\
               ((i mod 10000 = 0)%Z ->
                exists x,
                  In (DrawNumeral (NFloat (IZR i / IZR 10000)) x th1 f1) ops) /\
               (forall v x th font,
                  In (DrawNumeral v x th font) ops ->
                  v = NFloat (IZR i / IZR 10000))).
  { intros i Hi. apply pat_tick_scenario. apply Hidx in Hi.
    destruct il; lia. }
  destruct (for_each_ok f idx) as [ops Eo].
  { intros i Hi. destruct (Hf i Hi) as (o & E & _). now exists o. }
  exists ops. split; [exact Eo |].
  pose proof (for_each_In f idx ops Eo) as Hin.
  assert (HK : forall k, (1 <= k <= 10)%Z -> In (k * 10000)%Z idx ->
             exists x th font, In (DrawNumeral (NFloat (IZR k)) x th font) ops).
  { intros k Hk Hi. destruct (Hf _ Hi) as (o & E & Hnum & _).
    destruct Hnum as [x Hx]; [apply Z_mod_mult |].
    exists x, th1, f1. apply Hin. exists (k * 10000)%Z, o.
    repeat split; try assumption.
    replace (IZR k) with (IZR (k * 10000) / IZR 10000); [exact Hx |].
    rewrite mult_IZR. field. }
  split; [| split].
  - intros k Hk. apply HK; [lia |]. apply Hidx. split; [destruct il; lia |].
    replace (k * 10000 - 10000)%Z with ((k - 1) * 10 * 1000)%Z by lia.
    apply Z_mod_mult.
  - intros (x & th & font & Hop).
    apply Hin in Hop. destruct Hop as (i & o & Hi & E & Ho).
    destruct (Hf i Hi) as (o' & E' & _ & Hv).
    rewrite E in E'. injection E' as <-.
    apply Hv in Ho. injection Ho as Ho.
    assert (Ei : IZR i = IZR 100000).
    { apply Rmult_eq_reg_r with (/ IZR 10000); [| apply Rinv_neq_0_compat; lra].
      change (IZR i * / IZR 10000) with (IZR i / IZR 10000).
      rewrite <- Ho. lra. }
    apply eq_IZR in Ei. subst i. apply Hidx in Hi.
    destruct il; [reflexivity | lia].
  - intros ->. replace 10 with (IZR 10) by reflexivity.
    apply HK; [lia |]. apply Hidx. split; [lia | reflexivity].
Qed.

Local Open Scope R_scope.

(** C9, as the code has it.  For [1, 10] on the decade-log scale C, a scale
    length of 8000 and a minimum tick offset of 30 (and a glyph between 1
    and 100 pixels wide), [pat_auto] selects the subdivision keyed 10, with
    scale factor 10000 and steps 10000, 5000, 1000 and 1000, that is 100,
    50, 10 and 10 in hundredths; it draws a numeral at each integer from 1
    to 9, and one at 10 exactly when [include_last] is set. *)
Theorem pat_auto_decade_scenario (float_str : R -> string)
    (sym_width : string -> ImageFont -> Z) (r : Renderer) (il : bool) :
  SL (geometry r) = 8000%Z -> STT (geometry r) = 10%Z ->
  (0 < sym_width "_"
         (Style_font_for (style r) N_LG REG
            (scale_h_ratio (geometry r) Scales.C None)) <= 100)%Z ->
  exists p ops,
    pat_auto_plan sym_width r Scales.C (Some 1) (Some 10) il = Ok p /\
    dict_get TF_BY_MIN 10 = Ok (p_sub_div4 p) /\
    p_sf p = 10000%Z /\
    p_steps_i p = (10000, 5000, 1000, 1000)%Z /\
    pat_auto float_str sym_width r Scales.C (Some 1) (Some 10) il = Ok ops /\
    (forall k, (1 <= k <= 9)%Z ->
       exists x th font, In (DrawNumeral (NFloat (IZR k)) x th font) ops) /\
    ((exists x th font, In (DrawNumeral (NFloat 10) x th font) ops)
     <-> il = true).
Proof.
  intros HSL HSTT Hw.
  destruct (plan_C_scenario sym_width r il HSL HSTT Hw)
    as (p & f1 & f2 & d2 & d3 & Hp & Esf & Et & Esi & Eis & Eie & Ef & Ed).
  destruct (pat_scenario float_str r il (p_steps_th p) f1 f2 d2 d3)
    as (ops & Hops & H19 & H10).
  exists p, ops.
  split; [exact Hp |]. split; [rewrite Et; reflexivity |].
  split; [exact Esf |]. split; [exact Esi |].
  split; [| split; assumption].
  unfold pat_auto. rewrite Hp. cbn [rbind].
  rewrite Eis, Eie, Esf, Esi, Ef, Ed. exact Hops.
Qed.

Lemma pat_auto_decade_scenario_witness :
  exists p ops,
    pat_auto_plan (fun _ _ => 30%Z) Scenario_renderer Scales.C
      (Some 1) (Some 10) true = Ok p /\
    dict_get TF_BY_MIN 10 = Ok (p_sub_div4 p) /\
    p_sf p = 10000%Z /\
    p_steps_i p = (10000, 5000, 1000, 1000)%Z /\
    pat_auto (fun _ => ""%string) (fun _ _ => 30%Z) Scenario_renderer Scales.C
      (Some 1) (Some 10) true = Ok ops /\
    (forall k, (1 <= k <= 9)%Z ->
       exists x th font, In (DrawNumeral (NFloat (IZR k)) x th font) ops) /\
    ((exists x th font, In (DrawNumeral (NFloat 10) x th font) ops)
     <-> true = true).
Proof.
  apply (pat_auto_decade_scenario (fun _ => ""%string) (fun _ _ => 30%Z)
           Scenario_renderer true).
  - reflexivity.
  - reflexivity.
  - lia.
Defined.

(** C9 as the specification words it fails: in the scenario the entry
    selected is that of key 10, not the entry [(2, 5, 5)] of key 50, and the
    finest step is 1000, not 200. *)
Lemma decade_scenario_counterexample :
  exists p,
    pat_auto_plan (fun _ _ => 30%Z) Scenario_renderer Scales.C
      (Some 1) (Some 10) false = Ok p /\
    dict_get TF_BY_MIN 50 = Ok (2, 5, 5)%Z /\
    p_sub_div4 p <> (2, 5, 5)%Z /\
    p_sf p = 10000%Z /\
    p_steps_i p <> (10000, 5000, 1000, 200)%Z.
Proof.
  destruct (plan_C_scenario (fun _ _ => 30%Z) Scenario_renderer false)
    as (p & f1 & f2 & d2 & d3 & Hp & Esf & Et & Esi & _);
    [reflexivity | reflexivity | lia |].
  exists p. split; [exact Hp |]. split; [reflexivity |].
  rewrite Et, Esi. repeat split; [discriminate | exact Esf | discriminate].
Qed.

(** Without [include_last] the scenario draws no numeral at 10. *)
Example decade_scenario_no_ten :
  exists ops,
    pat_auto (fun _ => ""%string) (fun _ _ => 30%Z) Scenario_renderer Scales.C
      (Some 1) (Some 10) false = Ok ops /\
    forall x th font, ~ In (DrawNumeral (NFloat 10) x th font) ops.
Proof.
  destruct (plan_C_scenario (fun _ _ => 30%Z) Scenario_renderer false)
    as (p & f1 & f2 & d2 & d3 & Hp & Esf & Et & Esi & Eis & Eie & Ef & Ed);
    [reflexivity | reflexivity | lia |].
  destruct (pat_scenario (fun _ => ""%string) Scenario_renderer false
              (p_steps_th p) f1 f2 d2 d3) as (ops & Hops & _ & H10).
  exists ops. split.
  - unfold pat_auto. rewrite Hp. cbn [rbind].
    rewrite Eis, Eie, Esf, Esi, Ef, Ed. exact Hops.
  - intros x th font Hin.
    assert (false = true) by (apply H10; eauto). discriminate.
Qed.

(** ** Geometry: derived measures *)

Local Open Scope Z_scope.

(** X1. The three rule parts stack without gap or overlap: the top stator
    starts at 0, each part ends where the next one starts, and the bottom
    stator ends at the height of the side.  The slide is [slide_h] high;
    the bottom stator is as high as the top one when [side_h - slide_h] is
    even and one pixel higher when it is odd. *)
Theorem edge_h_stack (g : Geometry) :
  edge_h g STATOR_TOP true = 0 /\
  edge_h g STATOR_TOP false = edge_h g SLIDE true /\
  edge_h g SLIDE false = edge_h g STATOR_BOTTOM true /\
  edge_h g STATOR_BOTTOM false = side_h g /\
  edge_h g SLIDE false - edge_h g SLIDE true = slide_h g /\
  (edge_h g STATOR_BOTTOM false - edge_h g STATOR_BOTTOM true)
  - (edge_h g STATOR_TOP false - edge_h g STATOR_TOP true)
  = (side_h g - slide_h g) mod 2.
Proof.
  unfold edge_h, stator_h.
  pose proof (Z.div_mod (side_h g - slide_h g) 2 ltac:(lia)) as E.
  repeat split; lia.
Qed.

(** X2. The scale is centred on the sheet: the left index sits at the
    x margin plus half of what the side leaves beside the scale, the right
    margin exceeds the left one by at most one pixel, and the midpoint is
    the x margin plus half the side width. *)
Theorem li_centres_scale (g : Geometry) :
  li g = oX g + (side_w g - SL g) / 2 /\
  midpoint_x g = oX g + side_w g / 2 /\
  0 <= (total_w g - (li g + SL g)) - li g <= 1.
Proof.
  unfold li, midpoint_x, total_w.
  pose proof (Z.div_mod (side_w g + 2 * oX g - SL g) 2 ltac:(lia)) as E1.
  pose proof (Z.mod_pos_bound (side_w g + 2 * oX g - SL g) 2 ltac:(lia)) as B1.
  pose proof (Z.div_mod (side_w g - SL g) 2 ltac:(lia)) as E2.
  pose proof (Z.mod_pos_bound (side_w g - SL g) 2 ltac:(lia)) as B2.
  pose proof (Z.div_mod (side_w g + 2 * oX g) 2 ltac:(lia)) as E3.
  pose proof (Z.mod_pos_bound (side_w g + 2 * oX g) 2 ltac:(lia)) as B3.
  pose proof (Z.div_mod (side_w g) 2 ltac:(lia)) as E4.
  pose proof (Z.mod_pos_bound (side_w g) 2 ltac:(lia)) as B4.
  repeat split; lia.
Qed.

Lemma mirror_vectors_h_twice (g : Geometry) (vs : list vector) :
  mirror_vectors_h g (mirror_vectors_h g vs) = vs.
Proof.
  unfold mirror_vectors_h. rewrite map_map. rewrite <- (map_id vs) at 2.
  apply map_ext. intros [[[x1 x2] y1] y2]. repeat (f_equal; try lia).
Qed.

Lemma mirror_vectors_v_twice (vs : list vector) (mid_y : Z) :
  mirror_vectors_v (mirror_vectors_v vs mid_y) mid_y = vs.
Proof.
  unfold mirror_vectors_v. rewrite map_map. rewrite <- (map_id vs) at 2.
  apply map_ext. intros [[[x1 x2] y1] y2]. repeat (f_equal; try lia).
Qed.

Lemma mirror_vectors_comm (g : Geometry) (vs : list vector) (mid_y : Z) :
  mirror_vectors_v (mirror_vectors_h g vs) mid_y
  = mirror_vectors_h g (mirror_vectors_v vs mid_y).
Proof.
  unfold mirror_vectors_v, mirror_vectors_h. rewrite !map_map.
  apply map_ext. intros [[[x1 x2] y1] y2]. reflexivity.
Qed.

Lemma mirror_vectors_h_app (g : Geometry) (a b : list vector) :
  mirror_vectors_h g (a ++ b)
  = (mirror_vectors_h g a ++ mirror_vectors_h g b)%list.
Proof. unfold mirror_vectors_h. apply map_app. Qed.

Lemma mirror_vectors_h_ordered (g : Geometry) (vs : list vector) :
  Forall ordered_vector vs -> Forall ordered_vector (mirror_vectors_h g vs).
Proof.
  unfold mirror_vectors_h. intros H. apply Forall_map.
  eapply Forall_impl; [exact H |].
  intros [[[x1 x2] y1] y2]. unfold ordered_vector. lia.
Qed.

Lemma mirror_vectors_v_ordered (vs : list vector) (mid_y : Z) :
  Forall ordered_vector vs -> Forall ordered_vector (mirror_vectors_v vs mid_y).
Proof.
  unfold mirror_vectors_v. intros H. apply Forall_map.
  eapply Forall_impl; [exact H |].
  intros [[[x1 x2] y1] y2]. unfold ordered_vector. lia.
Qed.

(** X3. Mirroring is an involution: mirrored twice across the centerline,
    or twice across the same horizontal line, a list of vectors comes back
    unchanged; the two mirrorings commute, and both keep the endpoints of
    every vector in order. *)
Theorem mirror_vectors_involutive (g : Geometry) (mid_y : Z)
    (vs : list vector) :
  mirror_vectors_h g (mirror_vectors_h g vs) = vs /\
  mirror_vectors_v (mirror_vectors_v vs mid_y) mid_y = vs /\
  mirror_vectors_v (mirror_vectors_h g vs) mid_y
  = mirror_vectors_h g (mirror_vectors_v vs mid_y) /\
  (Forall ordered_vector vs ->
   Forall ordered_vector (mirror_vectors_h g vs) /\
   Forall ordered_vector (mirror_vectors_v vs mid_y)).
Proof.
  split; [apply mirror_vectors_h_twice |].
  split; [apply mirror_vectors_v_twice |].
  split; [apply mirror_vectors_comm |].
  intros H. split.
  - now apply mirror_vectors_h_ordered.
  - now apply mirror_vectors_v_ordered.
Qed.

Lemma cutoff_outline_ordered (g : Geometry) (y_off : Z) :
  0 <= slide_h g ->
  (Forall ordered_vector (cutoff_outline g y_off) <-> 119 <= stator_h g).
Proof.
  intros Hs. unfold cutoff_outline, cutoff_w. cbv zeta.
  assert (Hst : 2 * stator_h g <= side_h g - slide_h g).
  { unfold stator_h.
    pose proof (Z.div_mod (side_h g - slide_h g) 2 ltac:(lia)).
    pose proof (Z.mod_pos_bound (side_h g - slide_h g) 2 ltac:(lia)). lia. }
  pose proof (Z.div_mod (stator_h g) 2 ltac:(lia)) as E.
  pose proof (Z.mod_pos_bound (stator_h g) 2 ltac:(lia)) as B.
  split.
  - intros H. apply Forall_cons_1 in H. destruct H as [[H1 _] _]. lia.
  - intros H. repeat (apply Forall_cons; split; [unfold ordered_vector; lia |]).
    apply Forall_nil. exact I.
Qed.

(** X4. With a slide height that is not negative, the six vectors of the
    left cutoff outline all have their endpoints in order exactly when the
    stator is at least 119 pixels high; below that the top edge runs from
    right to left. *)
Theorem cutoff_outline_well_formed (g : Geometry) (y_off : Z) :
  0 <= slide_h g ->
  (Forall ordered_vector (cutoff_outline g y_off) <-> 119 <= stator_h g).
Proof. apply cutoff_outline_ordered. Qed.

Lemma cutoff_outline_well_formed_witness :
  0 <= slide_h Models.Demo_geometry /\
  (Forall ordered_vector (cutoff_outline Models.Demo_geometry 100)
   <-> 119 <= stator_h Models.Demo_geometry).
Proof.
  split; [vm_compute; discriminate |].
  apply (cutoff_outline_well_formed Models.Demo_geometry 100).
  vm_compute. discriminate.
Defined.

(** X5. The rectangles drawn for the metal cutoffs are twelve, and they
    are symmetric about the centerline: mirrored across it, the list of
    vectors is a rearrangement of itself, on either side of the rule.  The
    rear list is the front list reflected across the middle height of the
    side. *)
Theorem metal_cutoff_coords_symmetric (g : Geometry) (y_off : Z) (side : Side) :
  length (metal_cutoff_coords g y_off side) = 12%nat /\
  Permutation (mirror_vectors_h g (metal_cutoff_coords g y_off side))
    (metal_cutoff_coords g y_off side) /\
  metal_cutoff_coords g y_off REAR
  = mirror_vectors_v (metal_cutoff_coords g y_off FRONT)
      (2 * y_off + side_h g).
Proof.
  split; [destruct side; reflexivity |].
  split; [| reflexivity].
  assert (P : Permutation
                (mirror_vectors_h g
                   (cutoff_outline g y_off
                    ++ mirror_vectors_h g (cutoff_outline g y_off)))
                (cutoff_outline g y_off
                 ++ mirror_vectors_h g (cutoff_outline g y_off))).
  { rewrite mirror_vectors_h_app, mirror_vectors_h_twice.
    apply Permutation_app_comm. }
  destruct side; unfold metal_cutoff_coords; cbv zeta.
  - exact P.
  - rewrite <- mirror_vectors_comm. unfold mirror_vectors_v.
    now apply Permutation_map.
Qed.

(** ** Tick factors and [pat_auto]: the steps of a plan *)

Local Open Scope Z_scope.

Lemma TF_BY_MIN_entries (k f0 f1 f2 : Z) :
  In (k, (f0, f1, f2)) TF_BY_MIN ->
  0 < f0 /\ 0 < f1 /\ 0 < f2 /\ f0 * f1 * f2 = k.
Proof.
  simpl. intros H.
  repeat (destruct H as [[= <- <- <- <-] | H]; [lia |]). destruct H.
Qed.

Lemma step_div_exact (a f : Z) :
  0 < f -> (if f =? 1 then Ok a else floordiv a f) = Ok (a / f).
Proof.
  intros Hf. destruct (Z.eqb_spec f 1) as [-> | _]; [now rewrite Z.div_1_r |].
  unfold floordiv. destruct (Z.eqb_spec f 0); [lia | reflexivity].
Qed.

(** With positive factors the nested floor divisions of [t_s] are floor
    divisions of the outer step by the running products. *)
Lemma t_s_exact (s f0 f1 f2 : Z) :
  0 < f0 -> 0 < f1 -> 0 < f2 ->
  t_s s (f0, f1, f2) = Ok (s, s / f0, s / (f0 * f1), s / (f0 * f1 * f2)).
Proof.
  intros H0 H1 H2. unfold t_s.
  rewrite step_div_exact by assumption. cbn [rbind].
  rewrite step_div_exact by assumption. cbn [rbind].
  rewrite step_div_exact by assumption. cbn [rbind].
  rewrite !Z.div_div by lia. reflexivity.
Qed.

(** X6. Every key of the catalog is the product of its three factors, so
    that [t_s] with the entry of key [k] cuts an outer step [s] into the
    steps [s // f0], [s // (f0 * f1)] and, as the finest step, [s // k]:
    the key is the number of finest divisions of one outer step. *)
Theorem t_s_finest_step (s k f0 f1 f2 : Z) :
  In (k, (f0, f1, f2)) TF_BY_MIN ->
  f0 * f1 * f2 = k /\
  t_s s (f0, f1, f2) = Ok (s, s / f0, s / (f0 * f1), s / k).
Proof.
  intros H. destruct (TF_BY_MIN_entries _ _ _ _ H) as (H0 & H1 & H2 & E).
  split; [exact E |]. rewrite <- E. now apply t_s_exact.
Qed.

Lemma t_s_finest_step_witness :
  In (50, (2, 5, 5)) TF_BY_MIN /\
  2 * 5 * 5 = 50 /\
  t_s 10000 (2, 5, 5)
  = Ok (10000, 10000 / 2, 10000 / (2 * 5), 10000 / 50).
Proof.
  split.
  - simpl. do 3 right. left. reflexivity.
  - apply (t_s_finest_step 10000 50 2 5 5).
    simpl. do 3 right. left. reflexivity.
Defined.

Lemma math_ceil_nonneg (x : R) : (0 <= x)%R -> 0 <= math_ceil x.
Proof.
  intros H. unfold math_ceil.
  destruct (base_Int_part (- x)) as [H1 _].
  assert (Int_part (- x) <= 0); [| lia].
  apply le_IZR. lra.
Qed.

Lemma In_TF_MIN_entry (i : Z) :
  In i TF_MIN ->
  exists f0 f1 f2,
    In (i, (f0, f1, f2)) TF_BY_MIN /\ dict_get TF_BY_MIN i = Ok (f0, f1, f2).
Proof.
  intros H. vm_compute in H.
  repeat (destruct H as [<- | H];
          [do 3 eexists; split; cycle 1;
           [reflexivity | simpl; auto 20] |]).
  destruct H.
Qed.

(** What a plan records about its scale factor, its steps and its first
    index. *)
Lemma pat_auto_plan_steps (sym_width : string -> ImageFont -> Z) (r : Renderer)
    (sc : Scale) (xs xe : option R) (il : bool) (p : auto_plan) :
  pat_auto_plan sym_width r sc xs xe il = Ok p ->
  exists n k step2 step3 step4 i_offset,
    3 <= n /\ p_sf p = 10 ^ n /\ 0 <= k /\ p_step_num p = 10 ^ k /\
    p_steps_i p = (p_step_num p, step2, step3, step4) /\
    1 <= step4 /\ step4 <= step3 /\ step3 <= step2 /\
    step2 <= p_step_num p /\
    pymod (py_int (p_x_start p * IZR (p_sf p))) step4 = Ok i_offset /\
    p_i_start p
    = (if 0 <? i_offset
       then py_int (p_x_start p * IZR (p_sf p)) - i_offset + step4
       else py_int (p_x_start p * IZR (p_sf p))).
Proof.
  unfold pat_auto_plan. intros H.
  destruct (endpoints sc xs xe) as [[a b] |]; cbn [rbind] in H; [| discriminate].
  destruct (truediv _ _) as [q |]; cbn [rbind] in H; [| discriminate].
  destruct (math_log10 (Rabs q)) as [lq |]; cbn [rbind] in H; [| discriminate].
  destruct (offset_between sc a b 1) as [fw |]; cbn [rbind] in H; [| discriminate].
  destruct (math_log10 (b - a)) as [ld |]; cbn [rbind] in H; [| discriminate].
  set (n := math_ceil (Rabs lq) + 3) in *.
  set (k := Z.max (py_int (ld - 0.5 * fw) + n) 0) in *.
  destruct (next_sub_div _ TF_MIN) as [t |] eqn:En; cbn [rbind] in H; [| discriminate].
  destruct (t_s _ t) as [[[[s1 s2] s3] s4] |] eqn:Et; cbn [rbind] in H; [| discriminate].
  destruct (pymod _ s4) as [io |] eqn:Ep; cbn [rbind] in H; [| discriminate].
  destruct (min_offset_for_delta sc a b _ _) as [gap |];
    cbn [rbind] in H; [| discriminate].
  destruct (float_floordiv gap _) as [mnc |]; cbn [rbind] in H; [| discriminate].
  injection H as <-.
  cbn [p_x_start p_sf p_step_num p_steps_i p_i_start].
  assert (Hn : 3 <= n).
  { unfold n. pose proof (math_ceil_nonneg (Rabs lq) (Rabs_pos lq)). lia. }
  assert (Hk : 0 <= k) by (unfold k; lia).
  assert (Hsn : 1 <= 10 ^ k).
  { pose proof (Z.pow_pos_nonneg 10 k ltac:(lia) Hk). lia. }
  assert (Hsel : exists i f0 f1 f2,
             1 <= i <= 10 ^ k /\ In (i, (f0, f1, f2)) TF_BY_MIN /\
             t = (f0, f1, f2)).
  { destruct (next_sub_div_spec _ _ _ En)
      as [(earlier & i & later & Hl & _ & Hi & Hd) | [_ Hd]].
    - assert (Hin : In i TF_MIN) by (rewrite Hl; apply in_elt).
      destruct (In_TF_MIN_entry i Hin) as (f0 & f1 & f2 & Hf & Hg).
      apply sub_div_ok_true in Hi. destruct Hi as [Hle _].
      destruct (TF_BY_MIN_entries _ _ _ _ Hf) as (P0 & P1 & P2 & E).
      exists i, f0, f1, f2. split; [nia |]. split; [exact Hf | congruence].
    - exists 1, 1, 1, 1. split; [lia |]. split; [simpl; auto 20 |].
      change (dict_get TF_BY_MIN 1) with (@Ok TickFactors (1, 1, 1)) in Hd.
      congruence. }
  destruct Hsel as (i & f0 & f1 & f2 & Hi & Hf & ->).
  destruct (TF_BY_MIN_entries _ _ _ _ Hf) as (P0 & P1 & P2 & E).
  rewrite t_s_exact in Et by assumption. injection Et as <- <- <- <-.
  rewrite E in *.
  exists n, k, (10 ^ k / f0), (10 ^ k / (f0 * f1)), (10 ^ k / i), io.
  repeat split; try assumption; try reflexivity.
  - apply Z.div_le_lower_bound; lia.
  - rewrite <- E. apply Z.div_le_compat_l; nia.
  - apply Z.div_le_compat_l; nia.
  - apply Z.div_le_upper_bound; nia.
Qed.



(** X8. The first index of a plan is the first multiple of the finest step
    at or after the start value scaled by the scale factor and truncated:
    it is a multiple of [step4], it is not before that index, and it is
    less than one finest step after it. *)
Theorem pat_auto_first_tick (sym_width : string -> ImageFont -> Z)
    (r : Renderer) (sc : Scale) (xs xe : option R) (il : bool)
    (p : auto_plan) :
  pat_auto_plan sym_width r sc xs xe il = Ok p ->
  let i0 := py_int (p_x_start p * IZR (p_sf p)) in
  exists step2 step3 step4,
    p_steps_i p = (p_step_num p, step2, step3, step4) /\
    1 <= step4 /\
    p_i_start p mod step4 = 0 /\
    i0 <= p_i_start p < i0 + step4.
Proof.
  intros H i0.
  destruct (pat_auto_plan_steps _ _ _ _ _ _ _ H)
    as (n & k & s2 & s3 & s4 & io & _ & _ & _ & _ & H5 & H6 & _ & _ & _
        & Hm & Hs).
  fold i0 in Hm, Hs.
  exists s2, s3, s4. split; [exact H5 |]. split; [exact H6 |].
  rewrite pymod_ok in Hm by lia. injection Hm as <-.
  pose proof (Z.div_mod i0 s4 ltac:(lia)) as E.
  pose proof (Z.mod_pos_bound i0 s4 ltac:(lia)) as B.
  rewrite Hs. destruct (Z.ltb_spec 0 (i0 mod s4)) as [Hp | Hz].
  - split; [| lia].
    replace (i0 - i0 mod s4 + s4) with ((i0 / s4 + 1) * s4) by lia.
    apply Z_mod_mult.
  - split; lia.
Qed.

Lemma pat_auto_first_tick_witness :
  exists p,
    pat_auto_plan (fun _ _ => 20) Models.Demo_renderer Scales.C
      (Some 1%R) (Some 10%R) false = Ok p /\
    let i0 := py_int (p_x_start p * IZR (p_sf p)) in
    exists step2 step3 step4,
      p_steps_i p = (p_step_num p, step2, step3, step4) /\
      1 <= step4 /\
      p_i_start p mod step4 = 0 /\
      i0 <= p_i_start p < i0 + step4.
Proof.
  destruct plan_C_decade_demo as (p & Hp & _).
  exists p. split; [exact Hp |].
  exact (pat_auto_first_tick _ _ _ _ _ _ p Hp).
Defined.

(** ** [pat]: one tick per index *)

Lemma count_ticks_app (a b : list draw_op) :
  count_ticks (a ++ b) = (count_ticks a + count_ticks b)%nat.
Proof. induction a as [| op a IH]; simpl; [reflexivity | rewrite IH; lia]. Qed.

Lemma count_numerals_app (a b : list draw_op) :
  count_numerals (a ++ b) = (count_numerals a + count_numerals b)%nat.
Proof. induction a as [| op a IH]; simpl; [reflexivity | rewrite IH; lia]. Qed.

Lemma numeral_ops_counts (float_str : R -> string) (font : option ImageFont)
    (d : bool) (n : R) (x th : Z) (ops : list draw_op) :
  numeral_ops float_str font d n x th = Ok ops ->
  count_ticks ops = 0%nat /\ (count_numerals ops <= 1)%nat.
Proof.
  unfold numeral_ops. destruct font as [f |].
  - destruct (if d then _ else _) as [v |]; cbn [rbind]; [| discriminate].
    destruct (numeral_sym float_str v) as [s |]; cbn [rbind];
      [| discriminate].
    intros [= <-]. simpl. lia.
  - intros [= <-]. simpl. lia.
Qed.

Lemma pat_tick_ops_counts (float_str : R -> string) (sc : Scale) (scale_w i_sf : Z)
    (steps_i steps_th : Z * Z * Z * Z)
    (steps_font : option ImageFont * option ImageFont * option ImageFont)
    (digit1 : bool * bool * bool) (i : Z) (ops : list draw_op) :
  pat_tick float_str sc scale_w i_sf steps_i steps_th steps_font digit1 i
  = Ok ops ->
  count_ticks ops = 1%nat /\ (count_numerals ops <= 1)%nat.
Proof.
  unfold pat_tick.
  destruct steps_i as [[[s1 s2] s3] s4], steps_th as [[[t1 t2] t3] t4],
    steps_font as [[f1 f2] f3], digit1 as [[d1 d2] d3].
  destruct (truediv _ _) as [n |]; cbn [rbind]; [| discriminate].
  destruct (scale_to _ _ _ _) as [x |]; cbn [rbind]; [| discriminate].
  destruct (pymod i s1) as [m1 |]; cbn [rbind]; [| discriminate].
  destruct (m1 =? 0).
  { destruct (numeral_ops _ f1 _ _ _ _) as [o |] eqn:E; cbn [rbind];
      [| discriminate].
    intros [= <-]. apply numeral_ops_counts in E.
    rewrite count_ticks_app, count_numerals_app. simpl. lia. }
  destruct (pymod i s2) as [m2 |]; cbn [rbind]; [| discriminate].
  destruct (m2 =? 0).
  { destruct (numeral_ops _ f2 _ _ _ _) as [o |] eqn:E; cbn [rbind];
      [| discriminate].
    intros [= <-]. apply numeral_ops_counts in E.
    rewrite count_ticks_app, count_numerals_app. simpl. lia. }
  destruct (pymod i s3) as [m3 |]; cbn [rbind]; [| discriminate].
  destruct (m3 =? 0).
  { destruct (numeral_ops _ f3 _ _ _ _) as [o |] eqn:E; cbn [rbind];
      [| discriminate].
    intros [= <-]. apply numeral_ops_counts in E.
    rewrite count_ticks_app, count_numerals_app. simpl. lia. }
  intros [= <-]. simpl. lia.
Qed.

Lemma for_each_counts {A} (f : A -> res (list draw_op)) (l : list A) :
  (forall a x, f a = Ok x ->
               count_ticks x = 1%nat /\ (count_numerals x <= 1)%nat) ->
  forall out, for_each f l = Ok out ->
    count_ticks out = length l /\ (count_numerals out <= length l)%nat.
Proof.
  intros Hf. induction l as [| a l IH]; simpl; intros out H.
  - injection H as <-. simpl. lia.
  - destruct (f a) as [x |] eqn:Ea; cbn [rbind] in H; [| discriminate].
    destruct (for_each f l) as [rest |]; cbn [rbind] in H; [| discriminate].
    injection H as <-.
    destruct (Hf a x Ea) as [H1 H2]. destruct (IH rest eq_refl) as [H3 H4].
    rewrite count_ticks_app, count_numerals_app. lia.
Qed.

Lemma py_range_length (start stop step : Z) (l : list Z) :
  0 < step -> py_range start stop step = Ok l ->
  Z.of_nat (length l) = Z.max 0 ((stop - start + step - 1) / step).
Proof.
  intros Hs. unfold py_range.
  destruct (Z.eqb_spec step 0); [lia |].
  destruct (Z.ltb_spec 0 step); [| lia].
  intros [= <-]. rewrite length_map, length_seq. lia.
Qed.

(** X9. With a positive finest step, a pattern that is drawn has exactly
    one tick for each index of [range(i_start, i_end, step4)], that is
    [ceil((i_end - i_start) / step4)] ticks or none when the range is empty,
    and at most one numeral for each tick. *)
Theorem pat_tick_count (float_str : R -> string) (r : Renderer) (sc : Scale)
    (i_start i_end i_sf step1 step2 step3 step4 : Z)
    (steps_th : Z * Z * Z * Z)
    (steps_font : option ImageFont * option ImageFont * option ImageFont)
    (digit1 : digit1_arg) (ops : list draw_op) :
  0 < step4 ->
  pat float_str r sc i_start i_end i_sf (step1, step2, step3, step4) steps_th
    steps_font digit1 = Ok ops ->
  Z.of_nat (count_ticks ops)
  = Z.max 0 ((i_end - i_start + step4 - 1) / step4) /\
  (count_numerals ops <= count_ticks ops)%nat.
Proof.
  intros Hs. unfold pat. cbn [snd].
  destruct (py_range i_start i_end step4) as [idx |] eqn:Er; cbn [rbind];
    [| discriminate].
  intros H.
  destruct (for_each_counts _ idx (pat_tick_ops_counts float_str sc _ _ _ _ _ _)
              ops H) as [H1 H2].
  rewrite H1. split; [now apply py_range_length | lia].
Qed.

Lemma pat_tick_count_witness :
  exists ops,
    let r := Models.Demo_renderer in
    let f := mkFont CMUTypewriter 60 REG in
    pat (fun _ => "") r Scales.C 10000 100000 10000
      (10000, 5000, 1000, 1000) (70, 35, 35, 18) (Some f, Some f, None)
      (D1Tuple false false false) = Ok ops /\
    Z.of_nat (count_ticks ops)
    = Z.max 0 ((100000 - 10000 + 1000 - 1) / 1000) /\
    (count_numerals ops <= count_ticks ops)%nat.
Proof.
  destruct (pat_scenario (fun _ => "") Models.Demo_renderer false
              (70, 35, 35, 18) (mkFont CMUTypewriter 60 REG)
              (mkFont CMUTypewriter 60 REG) false false) as (ops & H & _).
  exists ops. cbv zeta. split; [exact H |].
  apply (pat_tick_count (fun _ => "") Models.Demo_renderer Scales.C
           10000 100000 10000 10000 5000 1000 1000 (70, 35, 35, 18)
           (Some (mkFont CMUTypewriter 60 REG),
            Some (mkFont CMUTypewriter 60 REG), None)
           (D1Tuple false false false) ops); [lia | exact H].
Defined.

(** ** Transforms: bounds and round trips *)

Local Open Scope R_scope.

Lemma log10_Rpower (p : R) : log10 (Rpower 10 p) = p.
Proof.
  unfold log10, Rpower. rewrite ln_exp. field. pose proof ln10_pos. lra.
Qed.

Lemma Rpower_log10 (x : R) : 0 < x -> Rpower 10 (log10 x) = x.
Proof.
  intros H. unfold log10, Rpower.
  replace (ln x / ln 10 * ln 10) with (ln x)
    by (field; pose proof ln10_pos; lra).
  now apply exp_ln.
Qed.

Lemma Rpower_10_pos (p : R) : 0 < Rpower 10 p.
Proof. unfold Rpower. apply exp_pos. Qed.

Lemma pos_base_eq (p : R) : pos_base p = Ok (Rpower 10 p).
Proof. reflexivity. Qed.

Lemma gen_base_pos (x : R) : 0 < x -> gen_base x = Ok (log10 x).
Proof. apply math_log10_pos. Qed.

(** The transforms that are an affine function of the decimal
    logarithm. *)
Ltac unfold_log_family :=
  unfold ScaleFNs.Base, ScaleFNs.Square, ScaleFNs.Cube, ScaleFNs.Inverse,
    ScaleFNs.InverseSquare, ScaleFNs.SquareRoot, ScaleFNs.CubeRoot.

Ltac log_family_inverse :=
  let p := fresh "p" in
  intros p _; eexists; split; [reflexivity |]; split;
  [apply Rpower_10_pos |];
  unfold position_of; unfold_log_family; cbn [fn];
  rewrite gen_base_pos by apply Rpower_10_pos;
  cbn [rbind]; rewrite ?log10_Rpower; f_equal; lra.

Ltac log_family_forward :=
  let x := fresh "x" in
  let Hx := fresh "Hx" in
  intros x Hx; eexists; split;
  [unfold position_of; unfold_log_family; cbn [fn];
   rewrite gen_base_pos by assumption; cbn [rbind]; reflexivity |];
  unfold value_at; unfold_log_family; cbn [inverse];
  rewrite pos_base_eq; f_equal;
  rewrite <- (Rpower_log10 x Hx) at 2; f_equal; lra.

Lemma googol_inv_pos : 0 < / 10 ^ 100.
Proof. apply Rinv_0_lt_compat, pow_lt. lra. Qed.

Lemma log_family_inverts (f : ScaleFN) :
  In f [ScaleFNs.Base; ScaleFNs.Square; ScaleFNs.Cube; ScaleFNs.Inverse;
        ScaleFNs.SquareRoot; ScaleFNs.CubeRoot] ->
  (forall p, -100 <= p <= 100 ->
     exists v, value_at f p = Ok v /\ 0 < v /\ position_of f v = Ok p) /\
  (forall x, 0 < x ->
     exists p, position_of f x = Ok p /\ value_at f p = Ok x).
Proof.
  intros H. simpl in H.
  repeat (destruct H as [<- | H];
          [split; [log_family_inverse | log_family_forward] |]).
  destruct H.
Qed.

(** X10. On the positions from -100 to 100 and on the values from
    [10 ^ -100] to [10 ^ 100], where the power of ten neither overflows nor
    underflows (its exponent stays within 300 in magnitude), the transforms
    [Base], [Square], [Cube], [Inverse], [SquareRoot] and [CubeRoot] do
    invert: every such position has a positive value whose position it is,
    and every such value is the value at its own position. *)
Theorem log_family_round_trip (f : ScaleFN) :
  In f [ScaleFNs.Base; ScaleFNs.Square; ScaleFNs.Cube; ScaleFNs.Inverse;
        ScaleFNs.SquareRoot; ScaleFNs.CubeRoot] ->
  (forall p, -100 <= p <= 100 ->
     exists v, value_at f p = Ok v /\ 0 < v /\ position_of f v = Ok p) /\
  (forall x, / 10 ^ 100 <= x <= 10 ^ 100 ->
     exists p, position_of f x = Ok p /\ value_at f p = Ok x).
Proof.
  intros H. destruct (log_family_inverts f H) as [H1 H2].
  split; [exact H1 |]. intros x Hx. apply H2.
  pose proof googol_inv_pos. lra.
Qed.

Lemma log_family_round_trip_witness :
  (forall p, -100 <= p <= 100 ->
     exists v,
       value_at ScaleFNs.CubeRoot p = Ok v /\ 0 < v /\
       position_of ScaleFNs.CubeRoot v = Ok p) /\
  (forall x, / 10 ^ 100 <= x <= 10 ^ 100 ->
     exists p, position_of ScaleFNs.CubeRoot x = Ok p /\
               value_at ScaleFNs.CubeRoot p = Ok x).
Proof.
  apply (log_family_round_trip ScaleFNs.CubeRoot).
  simpl. do 5 right. left. reflexivity.
Defined.

(** X11. [InverseSquare] misses its own inverse by half the scale.  On the
    positions from -100 to 100 and on the values from [10 ^ -100] to
    [10 ^ 100], where the power of ten neither overflows nor underflows, the
    value its inverse gives for a position [p] lies at position [p + 1 / 2],
    and the value at the position of a value [x] is [x / 10]. *)
Theorem InverseSquare_round_trip_offset :
  (forall p, -100 <= p <= 100 ->
     exists v,
       value_at ScaleFNs.InverseSquare p = Ok v /\ 0 < v /\
       position_of ScaleFNs.InverseSquare v = Ok (p + 1 / 2)) /\
  (forall x, / 10 ^ 100 <= x <= 10 ^ 100 ->
     exists p, position_of ScaleFNs.InverseSquare x = Ok p /\
               value_at ScaleFNs.InverseSquare p = Ok (x / 10)).
Proof.
  split.
  - intros p _. eexists. split; [reflexivity |].
    split; [apply Rpower_10_pos |].
    unfold position_of. cbn [fn ScaleFNs.InverseSquare].
    rewrite gen_base_pos by apply Rpower_10_pos. cbn [rbind].
    rewrite log10_Rpower. f_equal. lra.
  - intros x Hb.
    assert (Hx : 0 < x) by (pose proof googol_inv_pos; lra).
    eexists. split.
    + unfold position_of. cbn [fn ScaleFNs.InverseSquare].
      rewrite gen_base_pos by assumption. cbn [rbind]. reflexivity.
    + unfold value_at. cbn [inverse ScaleFNs.InverseSquare].
      rewrite pos_base_eq. f_equal.
      replace (1 - (1 - log10 x / 2) * 2) with (log10 x + - (1)) by lra.
      rewrite Rpower_plus, Rpower_Ropp, Rpower_1, Rpower_log10 by lra.
      reflexivity.
Qed.

Lemma LOG_TEN_pos : 0 < LOG_TEN.
Proof. unfold LOG_TEN, TEN. apply ln10_pos. Qed.

Ltac linear_round_trip :=
  let x := fresh "x" in
  intros x; eexists; split; [reflexivity |];
  unfold position_of, value_at;
  unfold ScaleFNs.Unit, ScaleFNs.F_to_C, ScaleFNs.neper_to_db,
    ScaleFNs.Log10, ScaleFNs.Ln, ScaleFNs.Chi, ScaleFNs.Theta;
  cbn [fn inverse]; unfold unit;
  f_equal;
  change (IZR TEN) with 10; change (IZR DEG_RT) with 90;
  unfold PI_HALF;
  pose proof LOG_TEN_pos; pose proof PI_RGT_0;
  first [reflexivity | lra | field; lra].

(** X12. The linear transforms [Unit], [F_to_C], [neper_to_db], [Log10],
    [Ln], [Chi] and [Theta] never raise and invert exactly, in both
    directions. *)
Theorem linear_family_round_trip (f : ScaleFN) :
  In f [ScaleFNs.Unit; ScaleFNs.F_to_C; ScaleFNs.neper_to_db;
        ScaleFNs.Log10; ScaleFNs.Ln; ScaleFNs.Chi; ScaleFNs.Theta] ->
  (forall x, exists p, position_of f x = Ok p /\ value_at f p = Ok x) /\
  (forall p, exists v, value_at f p = Ok v /\ position_of f v = Ok p).
Proof.
  intros H. simpl in H.
  repeat (destruct H as [<- | H];
          [split; linear_round_trip |]).
  destruct H.
Qed.

Lemma linear_family_round_trip_witness :
  (forall x, exists p,
      position_of ScaleFNs.F_to_C x = Ok p /\
      value_at ScaleFNs.F_to_C p = Ok x) /\
  (forall p, exists v,
      value_at ScaleFNs.F_to_C p = Ok v /\
      position_of ScaleFNs.F_to_C v = Ok p).
Proof.
  apply (linear_family_round_trip ScaleFNs.F_to_C).
  simpl. right. left. reflexivity.
Defined.

(** X13. On the open interval from -1 to 1 the [Pythagorean] transform
    has a position for every value, and the value at that position is the
    absolute value: the round trip loses the sign, although the declared
    lower bound of the inputs is negative. *)
Theorem Pythagorean_round_trip_abs (x : R) :
  -1 < x < 1 ->
  (exists lo, min_x ScaleFNs.Pythagorean = Some lo /\ lo < 0) /\
  exists p, position_of ScaleFNs.Pythagorean x = Ok p /\
            value_at ScaleFNs.Pythagorean p = Ok (Rabs x).
Proof.
  intros Hx. split.
  { eexists. split; [reflexivity | lra]. }
  assert (H1 : 0 < 1 - x ^ 2) by nra.
  assert (Hs : 0 < sqrt (1 - x ^ 2)) by now apply sqrt_lt_R0.
  exists (log10 (sqrt (1 - x ^ 2)) + 1). split.
  - unfold position_of. cbn [fn ScaleFNs.Pythagorean]. unfold math_sqrt.
    destruct (Rle_dec 0 (1 - x ^ 2)); [| lra]. cbn [rbind].
    rewrite gen_base_pos by assumption. reflexivity.
  - unfold value_at. cbn [inverse ScaleFNs.Pythagorean].
    rewrite pos_base_eq. cbn [rbind].
    rewrite Rpower_plus, Rpower_log10, Rpower_1 by lra.
    replace (1 - (sqrt (1 - x ^ 2) * 10 / 10) ^ 2) with (x ^ 2).
    + unfold math_sqrt. destruct (Rle_dec 0 (x ^ 2)) as [_ | N].
      * f_equal. rewrite <- pow2_abs. apply sqrt_pow2. apply Rabs_pos.
      * exfalso. apply N. apply pow2_ge_0.
    + replace (sqrt (1 - x ^ 2) * 10 / 10) with (sqrt (1 - x ^ 2)) by lra.
      rewrite pow2_sqrt by lra. lra.
Qed.

Lemma Pythagorean_round_trip_abs_witness :
  (exists lo, min_x ScaleFNs.Pythagorean = Some lo /\ lo < 0) /\
  exists p, position_of ScaleFNs.Pythagorean (- (1 / 2)) = Ok p /\
            value_at ScaleFNs.Pythagorean p = Ok (Rabs (- (1 / 2))).
Proof.
  apply (Pythagorean_round_trip_abs (- (1 / 2))). lra.
Defined.

(** X14. The two functions of [LogLogNeg] are not inverse to each other:
    at every position from -2 to 15, where the exponential neither
    overflows nor rounds to 1, the inverse answers a value above 1, beyond
    the declared upper bound of the inputs, and on that value the forward
    function raises a domain error. *)
Theorem LogLogNeg_forward_raises (p : R) :
  -2 <= p <= 15 ->
  exists v hi,
    value_at ScaleFNs.LogLogNeg p = Ok v /\
    max_x ScaleFNs.LogLogNeg = Some hi /\ hi < 1 /\ 1 < v /\
    position_of ScaleFNs.LogLogNeg v = domain_error.
Proof.
  intros _.
  pose proof (Rpower_10_pos (- p)) as Hb.
  assert (Hv : 1 < exp (Rpower 10 (- p))).
  { rewrite <- exp_0. now apply exp_increasing. }
  exists (exp (Rpower 10 (- p))), (1 - 1e-16).
  split; [reflexivity |]. split; [reflexivity |]. split; [lra |].
  split; [exact Hv |].
  unfold position_of. cbn [fn ScaleFNs.LogLogNeg]. unfold math_log.
  destruct (Rlt_dec 0 (exp (Rpower 10 (- p)))); [| lra]. cbn [rbind].
  rewrite ln_exp. unfold gen_base, math_log10.
  destruct (Rlt_dec 0 (- Rpower 10 (- p))); [lra | reflexivity].
Qed.

Lemma LogLogNeg_forward_raises_witness :
  exists v hi,
    value_at ScaleFNs.LogLogNeg 0 = Ok v /\
    max_x ScaleFNs.LogLogNeg = Some hi /\ hi < 1 /\ 1 < v /\
    position_of ScaleFNs.LogLogNeg v = domain_error.
Proof. apply (LogLogNeg_forward_raises 0). lra. Defined.

(** X15. [SinH], [LogLog] and [Hyperbolic] invert on the positions from -3
    to 2, where the exponential does not overflow and neither the
    exponential nor the hypotenuse rounds to 1: the value the inverse gives
    lies in the domain of the forward function, and its position is the
    position asked for. *)
Theorem exp_family_round_trip (f : ScaleFN) (p : R) :
  In f [ScaleFNs.SinH; ScaleFNs.LogLog; ScaleFNs.Hyperbolic] ->
  -3 <= p <= 2 ->
  exists v, value_at f p = Ok v /\ position_of f v = Ok p.
Proof.
  intros H _. pose proof (Rpower_10_pos p) as Hb. simpl in H.
  destruct H as [<- | [<- | [<- | []]]].
  - eexists. split; [reflexivity |].
    unfold position_of. cbn [fn ScaleFNs.SinH].
    rewrite sinh_arcsinh. rewrite gen_base_pos by exact Hb.
    now rewrite log10_Rpower.
  - eexists. split; [reflexivity |].
    unfold position_of. cbn [fn ScaleFNs.LogLog]. unfold math_log.
    destruct (Rlt_dec 0 (exp (math_pow (IZR TEN) p))) as [_ | N].
    + cbn [rbind]. rewrite ln_exp. rewrite gen_base_pos by exact Hb.
      now rewrite log10_Rpower.
    + exfalso. apply N. apply exp_pos.
  - eexists. split; [reflexivity |].
    unfold position_of. cbn [fn ScaleFNs.Hyperbolic].
    unfold math_hypot, math_pow. change (IZR TEN) with 10.
    assert (E : sqrt (1 * 1 + Rpower 10 p * Rpower 10 p) ^ 2 - 1
                = Rpower 10 p ^ 2).
    { rewrite pow2_sqrt by nra. ring. }
    rewrite E. unfold math_sqrt.
    destruct (Rle_dec 0 (Rpower 10 p ^ 2)) as [_ | N].
    + cbn [rbind]. rewrite sqrt_pow2 by lra.
      rewrite gen_base_pos by exact Hb. now rewrite log10_Rpower.
    + exfalso. apply N. apply pow2_ge_0.
Qed.

Lemma exp_family_round_trip_witness :
  exists v,
    value_at ScaleFNs.Hyperbolic 0 = Ok v /\
    position_of ScaleFNs.Hyperbolic v = Ok 0.
Proof.
  apply (exp_family_round_trip ScaleFNs.Hyperbolic 0).
  - simpl. do 2 right. left. reflexivity.
  - lra.
Defined.

(** ** Scales: positions and offsets *)

Local Open Scope R_scope.

Lemma py_round_IZR (z : Z) : py_round (IZR z) = z.
Proof.
  unfold py_round. rewrite (math_floor_eq (IZR z) z) by lra.
  destruct (Rlt_dec (IZR z - IZR z) (1 / 2)); [reflexivity | lra].
Qed.

(** [round] answers an integer within half a unit. *)
Lemma py_round_bounds (x : R) :
  IZR (py_round x) - 1 / 2 <= x <= IZR (py_round x) + 1 / 2.
Proof.
  unfold py_round, math_floor. destruct (base_Int_part x) as [H1 H2].
  cbv zeta.
  destruct (Rlt_dec (x - IZR (Int_part x)) (1 / 2)); [lra |].
  destruct (Rlt_dec (1 / 2) (x - IZR (Int_part x))).
  - rewrite plus_IZR. lra.
  - destruct (Z.even (Int_part x)); rewrite ?plus_IZR; lra.
Qed.

Lemma py_round_monotone (x y : R) : x <= y -> (py_round x <= py_round y)%Z.
Proof.
  intros H. destruct (Z_le_gt_dec (py_round x) (py_round y)) as [L | G];
    [exact L | exfalso].
  assert (G' : IZR (py_round y) + 1 <= IZR (py_round x)).
  { rewrite <- (plus_IZR _ 1). apply IZR_le. lia. }
  pose proof (py_round_bounds x). pose proof (py_round_bounds y).
  assert (E : x = y) by lra. subst y. lia.
Qed.

(** X16. When the positioning function of a scale answers, for every
    position, a value that the generating function maps back to it, the
    shift is taken off and put back consistently: the value at a
    fractional position lies at that fractional position, for any shift
    adjustment; the start value lies at 0 and the end value at 1. *)
Theorem frac_pos_round_trip (sc : Scale) (p adj : R) :
  (forall q, exists v, pos_fn sc q = Ok v /\ gen_fn sc v = Ok q) ->
  (exists v, value_at_frac_pos sc p adj = Ok v /\
             frac_pos_of sc v adj = Ok p) /\
  (exists v, value_at_start sc = Ok v /\ frac_pos_of sc v 0 = Ok 0) /\
  (exists v, value_at_end sc = Ok v /\ frac_pos_of sc v 0 = Ok 1).
Proof.
  intros H.
  assert (G : forall p adj, exists v,
             value_at_frac_pos sc p adj = Ok v /\
             frac_pos_of sc v adj = Ok p).
  { intros p' adj'. destruct (H (p' - shift sc - adj')) as (v & Hv & Hg).
    exists v. split; [exact Hv |].
    unfold frac_pos_of. rewrite Hg. cbn [rbind]. f_equal. lra. }
  split; [apply G |]. split; apply G.
Qed.

Lemma frac_pos_round_trip_witness :
  (exists v, value_at_frac_pos Scales.CF (1 / 2) 0 = Ok v /\
             frac_pos_of Scales.CF v 0 = Ok (1 / 2)) /\
  (exists v, value_at_start Scales.CF = Ok v /\
             frac_pos_of Scales.CF v 0 = Ok 0) /\
  (exists v, value_at_end Scales.CF = Ok v /\
             frac_pos_of Scales.CF v 0 = Ok 1).
Proof.
  apply (frac_pos_round_trip Scales.CF (1 / 2) 0).
  intros q. exists (Rpower 10 q). split; [reflexivity |].
  change (gen_fn Scales.CF (Rpower 10 q)) with (gen_base (Rpower 10 q)).
  rewrite gen_base_pos by apply Rpower_10_pos. now rewrite log10_Rpower.
Defined.

(** X17. The offset between two values does not depend on their order, is
    never negative at width 1, and is proportional to the scale width. *)
Theorem offset_between_symmetric (sc : Scale) (a b u : R) :
  offset_between sc a b 1 = Ok u ->
  0 <= u /\
  offset_between sc b a 1 = Ok u /\
  forall w, offset_between sc a b w = Ok (u * w) /\
            offset_between sc b a w = Ok (u * w).
Proof.
  unfold offset_between.
  destruct (frac_pos_of sc (clamp_input (scaler sc) b) 0) as [pb |];
    cbn [rbind]; [| discriminate].
  destruct (frac_pos_of sc (clamp_input (scaler sc) a) 0) as [pa |];
    cbn [rbind]; [| discriminate].
  intros [= <-]. pose proof (Rabs_pos (pb - pa)).
  rewrite (Rabs_minus_sym pa pb).
  split; [lra |]. split; [reflexivity |].
  intros w. split; f_equal; lra.
Qed.

Lemma offset_between_symmetric_witness :
  offset_between Scales.C 1 10 1 = Ok (log10 (10 / 1) * 1) /\
  0 <= log10 (10 / 1) * 1 /\
  offset_between Scales.C 10 1 1 = Ok (log10 (10 / 1) * 1) /\
  forall w, offset_between Scales.C 1 10 w = Ok (log10 (10 / 1) * 1 * w) /\
            offset_between Scales.C 10 1 w = Ok (log10 (10 / 1) * 1 * w).
Proof.
  assert (H : offset_between Scales.C 1 10 1 = Ok (log10 (10 / 1) * 1)).
  { apply offset_between_C; unfold eps; lra. }
  split; [exact H |].
  exact (offset_between_symmetric Scales.C 1 10 _ H).
Defined.

(** X18. On a scale generated by the decimal logarithm, pixel positions
    never run backwards: a larger positive value lies at the same pixel or
    further right, for any scale length that is not negative. *)
Theorem Scale_pos_of_monotone (sc : Scale) (g : Geometry) (x y : R) :
  gen_fn sc = gen_base -> (0 <= SL g)%Z -> 0 < x -> x <= y ->
  exists px py,
    Scale_pos_of sc x g = Ok px /\ Scale_pos_of sc y g = Ok py /\
    (px <= py)%Z.
Proof.
  intros Hg Hw Hx Hxy. unfold Scale_pos_of, frac_pos_of. rewrite Hg.
  rewrite !gen_base_pos by lra. cbn [rbind].
  do 2 eexists. split; [reflexivity |]. split; [reflexivity |].
  apply py_round_monotone. apply Rmult_le_compat_l; [now apply IZR_le |].
  pose proof (log10_le x y Hx Hxy). lra.
Qed.

Lemma Scale_pos_of_monotone_witness :
  exists px py,
    Scale_pos_of Scales.CF 1 Models.Demo_geometry = Ok px /\
    Scale_pos_of Scales.CF 2 Models.Demo_geometry = Ok py /\
    (px <= py)%Z.
Proof.
  apply (Scale_pos_of_monotone Scales.CF Models.Demo_geometry 1 2).
  - reflexivity.
  - vm_compute. discriminate.
  - lra.
  - lra.
Defined.

Lemma frac_pos_clamped_ok (sc : Scale) (x : R) :
  In (scaler sc)
    [ScaleFNs.Base; ScaleFNs.Inverse; ScaleFNs.InverseSquare;
     ScaleFNs.SquareRoot; ScaleFNs.CubeRoot] ->
  gen_fn sc = fn (scaler sc) ->
  is_ok (frac_pos_of sc (clamp_input (scaler sc) x) 0).
Proof.
  intros H Hg. unfold frac_pos_of. rewrite Hg.
  assert (P : 0 < Rmax x eps).
  { pose proof eps_pos. pose proof (Rmax_r x eps). lra. }
  simpl in H.
  destruct H as [<- | [<- | [<- | [<- | [<- | []]]]]];
    unfold clamp_input, clamp;
    cbn [min_x max_x fn ScaleFNs.Base ScaleFNs.Inverse
         ScaleFNs.InverseSquare ScaleFNs.SquareRoot ScaleFNs.CubeRoot];
    rewrite gen_base_pos by exact P; cbn [rbind]; eexists; reflexivity.
Qed.

(** X19. On a scale whose transform is [Base], [Inverse], [InverseSquare],
    [SquareRoot] or [CubeRoot], the declared lower bound protects the
    logarithm: [offset_between] and [min_offset_for_delta] return for any
    arguments, whatever their sign. *)
Theorem offset_between_clamped_total (sc : Scale) (a b d w : R) :
  In (scaler sc)
    [ScaleFNs.Base; ScaleFNs.Inverse; ScaleFNs.InverseSquare;
     ScaleFNs.SquareRoot; ScaleFNs.CubeRoot] ->
  gen_fn sc = fn (scaler sc) ->
  is_ok (offset_between sc a b w) /\
  is_ok (min_offset_for_delta sc a b d w).
Proof.
  intros H Hg.
  assert (O : forall u v, is_ok (offset_between sc u v w)).
  { intros u v. unfold offset_between.
    destruct (frac_pos_clamped_ok sc v H Hg) as [pv ->].
    destruct (frac_pos_clamped_ok sc u H Hg) as [pu ->].
    cbn [rbind]. eexists. reflexivity. }
  split; [apply O |]. unfold min_offset_for_delta.
  destruct (O a (a + d)) as [o1 ->]. destruct (O (b - d) b) as [o2 ->].
  cbn [rbind]. eexists. reflexivity.
Qed.

Lemma offset_between_clamped_total_witness :
  is_ok (offset_between Scales.CI (-1) 0 5600) /\
  is_ok (min_offset_for_delta Scales.CI (-1) 0 1 5600).
Proof.
  apply (offset_between_clamped_total Scales.CI (-1) 0 1 5600).
  - simpl. right. left. reflexivity.
  - reflexivity.
Defined.

(** X20. [Square] and [Cube] declare no lower bound, so nothing protects
    the logarithm on the scales A, B and K: [offset_between] raises a
    domain error as soon as one of the two values is not positive. *)
Theorem offset_between_unclamped_raises (sc : Scale) (a b w : R) :
  In (scaler sc) [ScaleFNs.Square; ScaleFNs.Cube] ->
  gen_fn sc = fn (scaler sc) ->
  a <= 0 \/ b <= 0 ->
  offset_between sc a b w = domain_error.
Proof.
  intros H Hg Hab. unfold offset_between, frac_pos_of. rewrite Hg.
  assert (N : forall x, x <= 0 -> gen_base x = domain_error).
  { intros x Hx. unfold gen_base, math_log10.
    destruct (Rlt_dec 0 x); [lra | reflexivity]. }
  simpl in H.
  destruct H as [<- | [<- | []]];
    unfold clamp_input, clamp;
    cbn [min_x max_x fn ScaleFNs.Square ScaleFNs.Cube];
    (destruct (Rle_dec b 0) as [Hb | Hb];
     [rewrite (N b Hb); reflexivity |]);
    rewrite (gen_base_pos b) by lra; cbn [rbind];
    (destruct Hab as [Ha | Hb']; [| lra]);
    rewrite (N a Ha); reflexivity.
Qed.

Lemma offset_between_unclamped_raises_witness :
  offset_between Scales.A 0 1 5600 = domain_error.
Proof.
  apply (offset_between_unclamped_raises Scales.A 0 1 5600).
  - simpl. left. reflexivity.
  - reflexivity.
  - left. lra.
Defined.

(** ** Geometry: tick heights and scale heights *)

Local Open Scope R_scope.

Lemma tick_h_le (g : Geometry) (m1 m2 : HMod) (hr : option R) :
  (0 <= STH g)%Z -> (forall h, hr = Some h -> 0 <= h) ->
  HMod_value m1 <= HMod_value m2 ->
  (tick_h g (Some m1) hr <= tick_h g (Some m2) hr)%Z.
Proof.
  intros Hs Hh Hm. unfold tick_h. apply py_round_monotone.
  assert (P : 0 <= IZR (STH g)) by now apply IZR_le.
  assert (Q : IZR (STH g) * HMod_value m1 <= IZR (STH g) * HMod_value m2)
    by now apply Rmult_le_compat_l.
  destruct hr as [h |]; [| exact Q].
  destruct (Req_dec_T h 0); [exact Q |].
  destruct (Req_dec_T h 1); [exact Q |].
  apply Rmult_le_compat_r; [now apply Hh | exact Q].
Qed.

(** X21. The tick height grows with the size factor: for a standard tick
    height and a height ratio that are not negative, the heights for [DOT],
    [XS], [SM], [MED], [LG], [LG2] and [XL] come in ascending order; and
    with no ratio the [MED] height is the standard tick height itself. *)
Theorem tick_h_ascending (g : Geometry) (hr : option R) :
  (0 <= STH g)%Z -> (forall h, hr = Some h -> 0 <= h) ->
  (tick_h g (Some DOT) hr <= tick_h g (Some XS) hr)%Z /\
  (tick_h g (Some XS) hr <= tick_h g (Some SM) hr)%Z /\
  (tick_h g (Some SM) hr <= tick_h g (Some MED) hr)%Z /\
  (tick_h g (Some MED) hr <= tick_h g (Some LG) hr)%Z /\
  (tick_h g (Some LG) hr <= tick_h g (Some LG2) hr)%Z /\
  (tick_h g (Some LG2) hr <= tick_h g (Some XL) hr)%Z /\
  tick_h g (Some MED) None = STH g.
Proof.
  intros Hs Hh.
  repeat (split; [apply tick_h_le; try assumption; simpl; lra |]).
  unfold tick_h. cbn [HMod_value]. rewrite Rmult_1_r. apply py_round_IZR.
Qed.

Lemma tick_h_ascending_witness :
  let g := Models.Demo_geometry in
  let hr := Some (3 / 4) in
  (tick_h g (Some DOT) hr <= tick_h g (Some XS) hr)%Z /\
  (tick_h g (Some XS) hr <= tick_h g (Some SM) hr)%Z /\
  (tick_h g (Some SM) hr <= tick_h g (Some MED) hr)%Z /\
  (tick_h g (Some MED) hr <= tick_h g (Some LG) hr)%Z /\
  (tick_h g (Some LG) hr <= tick_h g (Some LG2) hr)%Z /\
  (tick_h g (Some LG2) hr <= tick_h g (Some XL) hr)%Z /\
  tick_h g (Some MED) None = STH g.
Proof.
  apply (tick_h_ascending Models.Demo_geometry (Some (3 / 4))).
  - vm_compute. discriminate.
  - intros h [= <-]. lra.
Defined.

(** X22. For a scale without a height override on either side, the scale
    height is the geometry's own [SH], and the height ratio compares it
    with the class default 160, not with the geometry: it is [None] exactly
    when [SH] is 160, and [SH / 160] otherwise. *)
Theorem scale_h_ratio_class_default (g : Geometry) (sc : Scale)
    (side : option Side) :
  (forall sd, scale_h_overrides g sd !! key sc = None) ->
  scale_h g sc side None = SH g /\
  scale_h_ratio g sc side
  = (if (SH g =? 160)%Z then None else Some (IZR (SH g) / 160)).
Proof.
  intros H.
  assert (E : scale_h g sc side None = SH g).
  { unfold scale_h. destruct side as [sd |]; rewrite ?H; reflexivity. }
  split; [exact E |]. unfold scale_h_ratio. rewrite E. reflexivity.
Qed.

Lemma scale_h_ratio_class_default_witness :
  scale_h Scenario_geometry Scales.C None None = SH Scenario_geometry /\
  scale_h_ratio Scenario_geometry Scales.C None
  = (if (SH Scenario_geometry =? 160)%Z then None
     else Some (IZR (SH Scenario_geometry) / 160)).
Proof.
  apply (scale_h_ratio_class_default Scenario_geometry Scales.C None).
  intros sd. apply lookup_empty.
Defined.

(** ** Rulers *)

Local Open Scope R_scope.

(** X23. With a pixel density that is not zero, the two conversions of a
    ruler are inverse to each other: the value at the pixel position of a
    value is that value, and the pixel position of the value at a pixel
    position is that position. *)
Theorem Ruler_round_trip (ru : Ruler) (x : R) :
  pixels_per_unit ru <> 0 ->
  Ruler_value_at ru (Ruler_pos_of ru x) = Ok x /\
  exists v, Ruler_value_at ru x = Ok v /\ Ruler_pos_of ru v = x.
Proof.
  intros H. unfold Ruler_value_at, Ruler_pos_of.
  rewrite !truediv_ok by assumption. cbn [rbind]. split.
  - f_equal. field. assumption.
  - eexists. split; [reflexivity |]. field. assumption.
Qed.

Lemma Ruler_round_trip_witness :
  Ruler_value_at Rulers.CM (Ruler_pos_of Rulers.CM 7) = Ok 7 /\
  exists v, Ruler_value_at Rulers.CM 7 = Ok v /\ Ruler_pos_of Rulers.CM v = 7.
Proof.
  apply (Ruler_round_trip Rulers.CM 7).
  unfold Rulers.CM, PixelsPerCM. cbn [pixels_per_unit]. lra.
Defined.

Local Open Scope Z_scope.

(** The steps of a ruler: the product of the factors, then the product of
    the last two, then the last. *)
Lemma t_s_product (f0 f1 f2 : Z) :
  f0 <> 0 -> f1 <> 0 -> f2 <> 0 ->
  t_s (f0 * f1 * f2) (f0, f1, f2) = Ok (f0 * f1 * f2, f1 * f2, f2, 1).
Proof.
  intros H0 H1 H2.
  assert (E : forall s a f, f <> 0 -> s = a * f ->
            (if f =? 1 then Ok s else floordiv s f) = Ok a).
  { intros s a f Hf ->. destruct (Z.eqb_spec f 1) as [-> | _].
    - now rewrite Z.mul_1_r.
    - unfold floordiv. destruct (Z.eqb_spec f 0); [contradiction |].
      now rewrite Z.div_mul. }
  unfold t_s.
  rewrite (E _ (f1 * f2) f0) by (assumption || lia). cbn [rbind].
  rewrite (E _ f2 f1) by (assumption || lia). cbn [rbind].
  rewrite (E _ 1 f2) by (assumption || lia). cbn [rbind].
  reflexivity.
Qed.

Lemma t_s_zero_factor (s f0 f1 f2 : Z) :
  f0 = 0 \/ f1 = 0 \/ f2 = 0 -> t_s s (f0, f1, f2) = Raise ZeroDivisionError.
Proof.
  intros H. unfold t_s.
  destruct (Z.eq_dec f0 0) as [-> | N0]; [reflexivity |].
  destruct (if f0 =? 1 then Ok s else floordiv s f0) as [s2 |] eqn:E2.
  2:{ destruct (f0 =? 1); [discriminate |]. unfold floordiv in E2.
      destruct (f0 =? 0); [now injection E2 as <- | discriminate]. }
  cbn [rbind].
  destruct (Z.eq_dec f1 0) as [-> | N1]; [reflexivity |].
  destruct (if f1 =? 1 then Ok s2 else floordiv s2 f1) as [s3 |] eqn:E3.
  2:{ destruct (f1 =? 1); [discriminate |]. unfold floordiv in E3.
      destruct (f1 =? 0); [now injection E3 as <- | discriminate]. }
  cbn [rbind].
  destruct H as [H | [H | ->]]; [contradiction | contradiction |].
  reflexivity.
Qed.

(** ** Layouts: the alignment dicts and the grammar *)

Local Open Scope Z_scope.

Lemma infer_part_from_keeps (part : RulePart) (last_i : Z) (k : string)
    (a : Align) (scs : list (option obj)) :
  forall i st st',
    infer_part_from part last_i i scs st = Ok st' ->
    fst st !! k = Some a -> fst st' !! k = Some a.
Proof.
  induction scs as [| sc scs IH]; intros i st st' H Hk; simpl in H.
  - now injection H as <-.
  - destruct (infer_step part last_i i sc st) as [st1 |] eqn:E1;
      simpl in H; [| discriminate].
    destruct st as [ov seen].
    destruct (infer_step_inv _ _ _ _ _ _ _ E1) as (k1 & _ & _ & Ho & Hs).
    apply (IH _ _ _ H). simpl in Hk.
    destruct (String.eqb_spec k k1) as [-> | N].
    + now apply Hs.
    + now rewrite Ho.
Qed.

Lemma placed_keys_In (o : option obj) (k : string) (os : list (option obj)) :
  In o os -> obj_key o = Ok k -> In k (placed_keys os).
Proof.
  intros Hin Hk. unfold placed_keys. apply in_flat_map.
  exists o. split; [exact Hin |]. rewrite Hk. now left.
Qed.

Lemma infer_part_from_domain (part : RulePart) (last_i : Z) (k : string)
    (a : Align) (scs : list (option obj)) (i : Z) (st st' : align_state) :
  infer_part_from part last_i i scs st = Ok st' ->
  fst st' !! k = Some a ->
  fst st !! k = Some a \/ In k (placed_keys scs).
Proof.
  intros H Hk.
  destruct (in_dec string_dec k (placed_keys scs)) as [Hin | Hout];
    [now right | left].
  destruct (infer_part_from_other part last_i k scs i st st' H) as [E _].
  - intros o Ho Eo. apply Hout. now apply (placed_keys_In o).
  - now rewrite <- E.
Qed.

(** One side of [infer_aligns]: entries that are there stay, and every
    entry of the result was there or belongs to a scale of the side. *)
Lemma infer_side_entries (tops slides bottoms : list (option obj))
    (ov0 ov : gmap string Align) (k : string) (a : Align) :
  infer_side tops slides bottoms ov0 = Ok ov ->
  (ov0 !! k = Some a -> ov !! k = Some a) /\
  (ov !! k = Some a ->
   ov0 !! k = Some a \/ In k (placed_keys (tops ++ slides ++ bottoms))).
Proof.
  unfold infer_side, infer_part. intros H.
  destruct (infer_part_from STATOR_TOP _ 0 tops (ov0, ∅)) as [s1 |] eqn:E1;
    cbn [rbind] in H; [| discriminate].
  destruct (infer_part_from SLIDE _ 0 slides s1) as [s2 |] eqn:E2;
    cbn [rbind] in H; [| discriminate].
  destruct (infer_part_from STATOR_BOTTOM _ 0 bottoms s2) as [s3 |] eqn:E3;
    cbn [rbind] in H; [| discriminate].
  injection H as <-. split.
  - intros H0.
    apply (infer_part_from_keeps _ _ k a _ _ _ _ E3).
    apply (infer_part_from_keeps _ _ k a _ _ _ _ E2).
    now apply (infer_part_from_keeps _ _ k a _ _ _ _ E1).
  - intros H3. rewrite !placed_keys_app, !in_app_iff.
    destruct (infer_part_from_domain _ _ k a _ _ _ _ E3 H3) as [H2 | ?];
      [| tauto].
    destruct (infer_part_from_domain _ _ k a _ _ _ _ E2 H2) as [H1 | ?];
      [| tauto].
    destruct (infer_part_from_domain _ _ k a _ _ _ _ E1 H1) as [H0 | ?];
      [| tauto].
    now left.
Qed.

Lemma Layout_init_entries (front : string) (rear : option string)
    (ns : namespace) (ov0 : Side -> gmap string Align) (l : Layout)
    (side : Side) (k : string) (a : Align) :
  Layout_init front rear ns ov0 = Ok l ->
  (ov0 side !! k = Some a -> scale_aligns l side !! k = Some a) /\
  (scale_aligns l side !! k = Some a ->
   ov0 side !! k = Some a \/
   In k (placed_keys (side_scales l side STATOR_TOP
                      ++ side_scales l side SLIDE
                      ++ side_scales l side STATOR_BOTTOM))).
Proof.
  intros H. destruct (Layout_init_inv _ _ _ _ _ H) as (f & r & Ek & En & Ha).
  specialize (Ha side). rewrite infer_aligns_side_parsed in Ha.
  rewrite !(side_scales_parsed f r ns l) by assumption.
  now apply infer_side_entries.
Qed.

Lemma small_layout_ok :
  exists l,
    Layout_init "A/B C/D" (Some "") Scales_ns
      (fun _ => {[ "C" := LOWER ]}) = Ok l /\
    scale_aligns l FRONT !! "B" = Some UPPER.
Proof. eexists. split; vm_compute; reflexivity. Qed.

(** X26. Alignments given to the constructor are never overwritten by the
    inference: an entry of [align_overrides] is found unchanged in the
    alignment dict of its side, and [scale_al] answers it for a scale of
    that key on any part. *)
Theorem Layout_keeps_overrides (front : string) (rear : option string)
    (ns : namespace) (ov0 : Side -> gmap string Align) (l : Layout)
    (side : Side) (k : string) (a : Align) :
  Layout_init front rear ns ov0 = Ok l ->
  ov0 side !! k = Some a ->
  scale_aligns l side !! k = Some a /\
  forall sc part, key sc = k -> scale_al l sc side part = a.
Proof.
  intros H H0.
  destruct (Layout_init_entries _ _ _ _ _ side k a H) as [K _].
  specialize (K H0). split; [exact K |].
  intros sc part <-. unfold scale_al. now rewrite K.
Qed.

Lemma Layout_keeps_overrides_witness :
  exists l,
    Layout_init "A/B C/D" (Some "") Scales_ns
      (fun _ => {[ "C" := LOWER ]}) = Ok l /\
    scale_aligns l FRONT !! "C" = Some LOWER /\
    forall sc part, key sc = "C" -> scale_al l sc FRONT part = LOWER.
Proof.
  destruct small_layout_ok as (l & Hl & _).
  exists l. split; [exact Hl |].
  apply (Layout_keeps_overrides _ _ _ _ l FRONT "C" LOWER Hl).
  vm_compute. reflexivity.
Defined.



Lemma split_at_no_sep (p : ascii -> bool) (s : string) :
  existsb p (list_ascii_of_string s) = false ->
  forall m, split_at p m s = [s].
Proof.
  induction s as [| c s IH]; simpl; intros H m.
  - destruct m as [[| n] |]; reflexivity.
  - apply orb_false_iff in H. destruct H as [Hc Hs].
    destruct m as [[| n] |]; [reflexivity | |];
      rewrite Hc, (IH Hs); reflexivity.
Qed.

Lemma split_at_first (p : ascii -> bool) (c : ascii) (a b : string) (n : nat) :
  existsb p (list_ascii_of_string a) = false -> p c = true ->
  split_at p (Some (S n)) (a ++ String c b) = a :: split_at p (Some n) b.
Proof.
  intros Ha Hc. induction a as [| d a IH]; simpl.
  - now rewrite Hc.
  - simpl in Ha. apply orb_false_iff in Ha. destruct Ha as [Hd Ha].
    now rewrite Hd, (IH Ha).
Qed.

Lemma contains_char_app (c : ascii) (a b : string) :
  contains_char c (a ++ String c b) = true.
Proof.
  unfold contains_char, ascii_in. induction a as [| d a IH]; simpl.
  - now rewrite Ascii.eqb_refl.
  - rewrite IH. apply orb_true_r.
Qed.

(** X28. A side layout with exactly one slash is dropped without an error:
    the line splits in two, which is neither of the two counts
    [parse_side_layout] accepts, and every part of the side is left
    empty. *)
Theorem parse_side_layout_single_slash (line a b : string) :
  strip_chars " |" line = a ++ "/" ++ b ->
  contains_char "/" a = false -> contains_char "/" b = false ->
  forall part, parse_side_layout (Some line) part = PNone.
Proof.
  intros Hs Ha Hb part. unfold parse_side_layout.
  destruct (String.eqb line ""); [reflexivity |].
  unfold parts_of_side_layout.
  assert (E : strip_chars " |" (strip_chars " |" line) = a ++ String "/" b).
  { unfold strip_chars. rewrite strip_by_idem. exact Hs. }
  rewrite E. rewrite contains_char_app.
  rewrite (split_at_first (Ascii.eqb "/") "/" a b 1 Ha eq_refl).
  rewrite (split_at_no_sep (Ascii.eqb "/") b Hb). reflexivity.
Qed.

Lemma parse_side_layout_single_slash_witness :
  parse_side_layout (Some "| A/B |") STATOR_TOP = PNone /\
  parse_side_layout (Some "| A/B |") SLIDE = PNone /\
  parse_side_layout (Some "| A/B |") STATOR_BOTTOM = PNone.
Proof.
  split; [| split];
    apply (parse_side_layout_single_slash "| A/B |" "A" "B"); reflexivity.
Defined.

(** ** Numerals: the symbol drawn *)

Local Open Scope R_scope.

Lemma is_integer_inv (x : R) :
  is_integer x = true -> exists z, x = IZR z.
Proof.
  unfold is_integer. destruct (Req_dec_T x (IZR (math_floor x))) as [E | _];
    [eauto | discriminate].
Qed.

Lemma expon_sym_small (e : R) : 0 <= e < 3 -> expon_sym e = None.
Proof.
  intros He. unfold expon_sym.
  destruct (is_integer e) eqn:Ei; [| reflexivity].
  destruct (Rlt_dec 2 (Rabs e)) as [H2 | _]; [| reflexivity].
  rewrite Rabs_right in H2 by lra.
  destruct (is_integer_inv e Ei) as [z ->].
  destruct He as [_ H3]. apply lt_IZR in H2, H3. lia.
Qed.

(** X29. A float that is a power of ten from 1000 up is written with an
    exponent: the symbol of [10 ^ k], for [k] at least 3, is ["10^"]
    followed by [k]. *)
Theorem numeral_sym_power_of_ten (float_str : R -> string) (k : nat) :
  (3 <= k)%nat ->
  numeral_sym float_str (NFloat (10 ^ k))
  = Ok ("10^" ++ int_str (Z.of_nat k))%string.
Proof.
  intros Hk. unfold numeral_sym.
  assert (E : 10 ^ k = IZR (10 ^ Z.of_nat k)) by apply pow_IZR.
  assert (P : 0 < 10 ^ k) by (apply pow_lt; lra).
  rewrite E at 1. rewrite is_integer_IZR. cbn [negb].
  destruct (Req_dec_T (10 ^ k) 0); [lra |].
  rewrite math_log10_pos by exact P. cbn [rbind].
  rewrite log10_pow10. unfold expon_sym.
  rewrite INR_IZR_INZ, is_integer_IZR, py_int_IZR.
  assert (K : 2 < Rabs (IZR (Z.of_nat k))).
  { rewrite Rabs_right.
    - apply IZR_lt. lia.
    - apply Rle_ge. apply IZR_le. lia. }
  destruct (Rlt_dec 2 (Rabs (IZR (Z.of_nat k)))); [reflexivity | contradiction].
Qed.

Lemma numeral_sym_power_of_ten_witness :
  numeral_sym (fun _ => "x"%string) (NFloat (10 ^ 4))
  = Ok ("10^" ++ int_str (Z.of_nat 4))%string.
Proof.
  apply (numeral_sym_power_of_ten (fun _ => "x"%string) 4). lia.
Defined.

(** X30. A float with a whole value below 1000 is written as the integer
    when it is not negative, whatever [str] prints for floats; when it is
    negative the logarithm raises a domain error and nothing is drawn. *)
Theorem numeral_sym_whole (float_str : R -> string) (z : Z) :
  (z < 1000)%Z ->
  numeral_sym float_str (NFloat (IZR z))
  = if (z <? 0)%Z then domain_error else Ok (int_str z).
Proof.
  intros Hz. unfold numeral_sym. rewrite is_integer_IZR. cbn [negb].
  destruct (Req_dec_T (IZR z) 0) as [E0 | N0].
  - apply eq_IZR in E0. subst z. reflexivity.
  - assert (Nz : z <> 0%Z) by (intros ->; now apply N0).
    destruct (Z.ltb_spec z 0) as [Hneg | Hpos].
    + unfold math_log10. apply IZR_lt in Hneg.
      destruct (Rlt_dec 0 (IZR z)); [lra | reflexivity].
    + assert (H1 : 1 <= IZR z) by (apply IZR_le; lia).
      assert (H3 : IZR z < 1000) by (apply IZR_lt; lia).
      rewrite math_log10_pos by lra. cbn [rbind].
      rewrite expon_sym_small.
      * now rewrite py_int_IZR.
      * split.
        -- rewrite <- log10_1. apply log10_le; lra.
        -- replace 3 with (INR 3) by (simpl; lra).
           rewrite <- log10_pow10. apply log10_lt; lra.
Qed.

Lemma numeral_sym_whole_witness :
  numeral_sym (fun _ => "x"%string) (NFloat (IZR (-5)))
  = if (-5 <? 0)%Z then domain_error else Ok (int_str (-5)).
Proof.
  apply (numeral_sym_whole (fun _ => "x"%string) (-5)). lia.
Defined.

(** ** [pat_auto]: the selection, by the gaps the entries realize *)

Local Open Scope Z_scope.













(** ** [pat_auto]: an endpoint of zero *)

Local Open Scope R_scope.

Lemma falsy_false (x : option R) :
  falsy x = false -> exists v, x = Some v /\ v <> 0.
Proof.
  destruct x as [v |]; simpl; [| discriminate].
  destruct (Req_dec_T v 0); [discriminate |]. eauto.
Qed.

(** The two values the guards of [pat_auto] arrive at, and their order. *)
Lemma endpoints_inv (sc : Scale) (xs xe : option R) (a b : R) :
  endpoints sc xs xe = Ok (a, b) ->
  exists s e,
    (if falsy xs then value_at_start sc else Ok (default 0 xs)) = Ok s /\
    (if falsy xe then value_at_end sc else Ok (default 0 xe)) = Ok e /\
    a = Rmin s e /\ b = Rmax s e.
Proof.
  unfold endpoints. intros H.
  destruct (if falsy xs then _ else _) as [s |]; cbn [rbind] in H;
    [| discriminate].
  destruct (if falsy xe then _ else _) as [e |]; cbn [rbind] in H;
    [| discriminate].
  exists s, e. split; [reflexivity |]. split; [reflexivity |].
  destruct (Rlt_dec e s) as [Hlt | Hge]; injection H as <- <-.
  - rewrite Rmin_right, Rmax_left by lra. now split.
  - rewrite Rmin_left, Rmax_right by lra. now split.
Qed.

Lemma endpoints_start_replaced (sc : Scale) (v x_end : R) :
  value_at_start sc = Ok v -> x_end <> 0 ->
  endpoints sc (Some 0) (Some x_end) = Ok (Rmin v x_end, Rmax v x_end).
Proof.
  intros Hv Hx. unfold endpoints.
  rewrite falsy_zero, (falsy_nonzero x_end Hx), Hv. cbn [rbind default].
  simpl. destruct (Rlt_dec x_end v).
  - rewrite Rmin_right, Rmax_left by lra. reflexivity.
  - rewrite Rmin_left, Rmax_right by lra. reflexivity.
Qed.

Lemma endpoints_end_replaced (sc : Scale) (v x_start : R) :
  value_at_end sc = Ok v -> x_start <> 0 ->
  endpoints sc (Some x_start) (Some 0) = Ok (Rmin x_start v, Rmax x_start v).
Proof.
  intros Hv Hx. unfold endpoints.
  rewrite falsy_zero, (falsy_nonzero x_start Hx), Hv. cbn [rbind default].
  simpl. destruct (Rlt_dec v x_start).
  - rewrite Rmin_right, Rmax_left by lra. reflexivity.
  - rewrite Rmin_left, Rmax_right by lra. reflexivity.
Qed.

Lemma Rmin_Rmax_cases (s e v : R) :
  Rmin s e = v \/ Rmax s e = v -> s = v \/ e = v.
Proof.
  unfold Rmin, Rmax. destruct (Rle_dec s e); tauto.
Qed.

(** C10. An explicit endpoint of 0 is treated as an omitted one: the
    endpoints [pat_auto] works with, and everything it draws, are those of
    the call without that endpoint.  A start of 0 is replaced by
    [value_at_start] of the scale and an end of 0 by [value_at_end]: with
    the other endpoint given, the range is the two values in ascending
    order; when the scale's own value cannot be computed the call raises
    its error; and the range of a plan obtained with an endpoint of 0 has
    the scale's own value as one of its ends.  So the range of a plan,
    whatever the arguments, begins or ends at exactly 0 only when the
    scale's own start or end value is 0. *)
Theorem pat_auto_zero_endpoint (float_str : R -> string)
    (sym_width : string -> ImageFont -> Z) (r : Renderer) (sc : Scale)
    (x : option R) (include_last : bool) :
  endpoints sc (Some 0) x = endpoints sc None x /\
  endpoints sc x (Some 0) = endpoints sc x None /\
  pat_auto float_str sym_width r sc (Some 0) x include_last
  = pat_auto float_str sym_width r sc None x include_last /\
  pat_auto float_str sym_width r sc x (Some 0) include_last
  = pat_auto float_str sym_width r sc x None include_last /\
  (forall v x_end, value_at_start sc = Ok v -> x_end <> 0 ->
     endpoints sc (Some 0) (Some x_end) = Ok (Rmin v x_end, Rmax v x_end)) /\
  (forall v x_start, value_at_end sc = Ok v -> x_start <> 0 ->
     endpoints sc (Some x_start) (Some 0)
     = Ok (Rmin x_start v, Rmax x_start v)) /\
  (forall e, value_at_start sc = Raise e ->
     pat_auto float_str sym_width r sc (Some 0) x include_last = Raise e) /\
  (forall e x_start, x_start <> 0 -> value_at_end sc = Raise e ->
     pat_auto float_str sym_width r sc (Some x_start) (Some 0) include_last
     = Raise e) /\
  (forall p,
     pat_auto_plan sym_width r sc (Some 0) x include_last = Ok p ->
     exists v, value_at_start sc = Ok v /\ (p_x_start p = v \/ p_x_end p = v)) /\
  (forall p,
     pat_auto_plan sym_width r sc x (Some 0) include_last = Ok p ->
     exists v, value_at_end sc = Ok v /\ (p_x_start p = v \/ p_x_end p = v)) /\
  (forall x_start x_end p,
     pat_auto_plan sym_width r sc x_start x_end include_last = Ok p ->
     p_x_start p = 0 \/ p_x_end p = 0 ->
     value_at_start sc = Ok 0 \/ value_at_end sc = Ok 0).
Proof.
  split; [apply endpoints_zero_start |].
  split; [apply endpoints_zero_end |].
  split; [unfold pat_auto, pat_auto_plan; now rewrite endpoints_zero_start |].
  split; [unfold pat_auto, pat_auto_plan; now rewrite endpoints_zero_end |].
  split; [intros v x_end; apply endpoints_start_replaced |].
  split; [intros v x_start; apply endpoints_end_replaced |].
  split.
  { intros e He. unfold pat_auto, pat_auto_plan, endpoints.
    rewrite falsy_zero, He. reflexivity. }
  split.
  { intros e x_start Hx He. unfold pat_auto, pat_auto_plan, endpoints.
    rewrite falsy_zero, (falsy_nonzero x_start Hx), He. reflexivity. }
  split.
  { intros p Hp.
    destruct (pat_auto_plan_inv _ _ _ _ _ _ _ Hp) as (He & _).
    destruct (endpoints_inv _ _ _ _ _ He) as (s & e & Hs & _ & Ha & Hb).
    rewrite falsy_zero in Hs. exists s. split; [exact Hs |].
    rewrite Ha, Hb. unfold Rmin, Rmax. destruct (Rle_dec s e); tauto. }
  split.
  { intros p Hp.
    destruct (pat_auto_plan_inv _ _ _ _ _ _ _ Hp) as (He & _).
    destruct (endpoints_inv _ _ _ _ _ He) as (s & e & _ & Hv & Ha & Hb).
    rewrite falsy_zero in Hv. exists e. split; [exact Hv |].
    rewrite Ha, Hb. unfold Rmin, Rmax. destruct (Rle_dec s e); tauto. }
  intros x_start x_end p Hp Hz.
  destruct (pat_auto_plan_inv _ _ _ _ _ _ _ Hp) as (He & _).
  destruct (endpoints_inv _ _ _ _ _ He) as (s & e & Hs & Hv & Ha & Hb).
  rewrite Ha, Hb in Hz. apply Rmin_Rmax_cases in Hz.
  destruct Hz as [-> | ->].
  - left. destruct (falsy x_start) eqn:F; [exact Hs |].
    destruct (falsy_false _ F) as (v & -> & Hne).
    simpl in Hs. injection Hs as Hs. contradiction.
  - right. destruct (falsy x_end) eqn:F; [exact Hv |].
    destruct (falsy_false _ F) as (v & -> & Hne).
    simpl in Hv. injection Hv as Hv. contradiction.
Qed.

(** *** The linear scale L, whose start value is 0 *)

Lemma value_at_start_L : value_at_start Scales.L = Ok 0.
Proof.
  change (value_at_start Scales.L) with (@Ok R ((0 - 0 - 0) * IZR TEN)).
  f_equal. lra.
Qed.

Lemma endpoints_L_zero (x_end : R) :
  0 < x_end -> endpoints Scales.L (Some 0) (Some x_end) = Ok (0, x_end).
Proof.
  intros H.
  rewrite (endpoints_start_replaced Scales.L 0 x_end value_at_start_L)
    by lra.
  rewrite Rmin_left, Rmax_right by lra. reflexivity.
Qed.

Lemma offset_between_L (a b w : R) :
  offset_between Scales.L a b w
  = Ok (Rabs (Rmax b eps / 10 - Rmax a eps / 10) * w).
Proof.
  change (offset_between Scales.L a b w)
    with (@Ok R (Rabs ((0 + 0 + Rmax b eps / IZR TEN)
                       - (0 + 0 + Rmax a eps / IZR TEN)) * w)).
  unfold TEN. do 3 f_equal. lra.
Qed.

(** The gap of a step [d] on scale L from 0: the start is clamped to the
    least value of the scale. *)
Lemma min_offset_for_delta_L (xe d w : R) :
  eps <= d -> eps <= xe - d -> 0 <= w ->
  min_offset_for_delta Scales.L 0 xe d w = Ok ((d - eps) / 10 * w).
Proof.
  intros Hd Hxe Hw. pose proof eps_pos as He.
  unfold min_offset_for_delta. rewrite !offset_between_L. cbn [rbind].
  rewrite (Rmax_left (0 + d)), (Rmax_right 0), (Rmax_left xe),
    (Rmax_left (xe - d)) by lra.
  rewrite !Rabs_right by lra.
  f_equal. rewrite Rmin_left; [lra |].
  apply Rmult_le_compat_r; lra.
Qed.

(** The general form of [pat_auto_plan_forward]: the plan from the range
    the guards arrive at. *)
Lemma pat_auto_plan_forward_range (sym_width : string -> ImageFont -> Z)
    (r : Renderer) (sc : Scale) (x_start x_end : option R) (xs xe : R)
    (il : bool) (fw : R) (cd pi : Z) (t : TickFactors) (s2 s3 s4 : Z)
    (gap : R) :
  let g := geometry r in
  let hf := scale_h_ratio g sc None in
  let sf := (10 ^ (cd + 3))%Z in
  let step_num := (10 ^ Z.max (pi + (cd + 3)) 0)%Z in
  let w := sym_width "_" (Style_font_for (style r) N_LG REG hf) in
  let i0 := py_int (xs * IZR sf) in
  endpoints sc x_start x_end = Ok (xs, xe) ->
  xs < xe -> 0 < xe ->
  offset_between sc xs xe 1 = Ok fw ->
  math_ceil (Rabs (log10 (Rabs ((xe - xs) / xe)))) = cd ->
  py_int (log10 (xe - xs) - 0.5 * fw) = pi ->
  next_sub_div (sub_div_ok sc (min_tick_offset g) xs xe step_num sf (SL g))
    TF_MIN = Ok t ->
  t_s step_num t = Ok (step_num, s2, s3, s4) ->
  s4 <> 0%Z ->
  min_offset_for_delta sc xs xe (IZR step_num / IZR sf) (IZR (SL g)) = Ok gap ->
  w <> 0%Z ->
  exists p,
    pat_auto_plan sym_width r sc x_start x_end il = Ok p /\
    p_x_start p = xs /\ p_x_end p = xe /\ p_sf p = sf /\
    p_step_num p = step_num /\ p_sub_div4 p = t /\
    p_steps_i p = (step_num, s2, s3, s4) /\
    p_i_start p
    = (if (0 <? i0 mod s4)%Z then (i0 - i0 mod s4 + s4)%Z else i0).
Proof.
  intros g hf sf step_num w i0 Hend Hlt He Hfw Hcd Hpi Hn Ht Hs4 Hgap Hw.
  unfold pat_auto_plan.
  rewrite Hend. cbn [rbind].
  rewrite Rmax_right by lra.
  rewrite truediv_ok by lra. cbn [rbind].
  rewrite math_log10_pos.
  2:{ apply Rabs_pos_lt. apply Rmult_integral_contrapositive_currified.
      - lra.
      - apply Rinv_neq_0_compat. lra. }
  cbn [rbind]. rewrite Hfw. cbn [rbind].
  rewrite math_log10_pos by lra. cbn [rbind].
  rewrite Hcd, Hpi. fold g. fold sf step_num.
  rewrite Hn. cbn [rbind]. rewrite Ht. cbn [rbind].
  rewrite pymod_ok by assumption. cbn [rbind].
  rewrite Hgap. cbn [rbind].
  fold hf. fold w.
  rewrite float_floordiv_ok by (apply not_0_IZR; assumption).
  cbn [rbind].
  eexists. split; [reflexivity |].
  cbn [p_x_start p_x_end p_sf p_step_num p_sub_div4 p_steps_i p_i_start].
  repeat split.
Qed.

Lemma log10_5_bounds : 1 / 2 <= log10 5 < 1.
Proof.
  split.
  - change 5 with (IZR 5). replace (IZR 5) with (IZR 5 / IZR 1) by (simpl; lra).
    replace (1 / 2) with (IZR 1 / IZR 2) by (simpl; lra).
    log10_ge.
  - rewrite <- log10_10. apply log10_lt; lra.
Qed.

(** The last clause of the claim fails on scale L, whose own start value is
    0: with the demo geometry the call with the start 0 and the end 5 has a
    plan, and the range of the plan begins at exactly 0, the first tick
    being that of index 0. *)
Lemma zero_endpoint_counterexample :
  exists p,
    pat_auto_plan (fun _ _ => 30%Z) Models.Demo_renderer Scales.L
      (Some 0) (Some 5) false = Ok p /\
    p_x_start p = 0 /\ p_x_end p = 5 /\
    p_sf p = 1000%Z /\ p_i_start p = 0%Z.
Proof.
  pose proof eps_pos as Heps. unfold eps in Heps.
  pose proof log10_5_bounds as L5.
  destruct (pat_auto_plan_forward_range (fun _ _ => 30%Z) Models.Demo_renderer
              Scales.L (Some 0) (Some 5) 0 5 false
              (Rabs (Rmax 5 eps / 10 - Rmax 0 eps / 10) * 1)
              0 0 (2, 5, 5)%Z 500 100 20
              ((IZR 1000 / IZR 1000 - eps) / 10 * IZR 5600))
    as (p & Hp & Exs & Exe & Esf & _ & _ & _ & Ei); try lra.
  - apply endpoints_L_zero. lra.
  - apply offset_between_L.
  - replace ((5 - 0) / 5) with 1 by lra.
    rewrite Rabs_R1, log10_1, Rabs_R0. apply math_ceil_eq. simpl. lra.
  - rewrite Rmax_left, Rmax_right by (unfold eps; lra).
    rewrite Rabs_right by (unfold eps; lra).
    replace (5 - 0) with 5 by lra.
    apply py_int_nonneg; unfold eps; simpl; lra.
  - change (10 ^ Z.max (0 + (0 + 3)) 0)%Z with 1000%Z.
    change (10 ^ (0 + 3))%Z with 1000%Z.
    change (min_tick_offset (geometry Models.Demo_renderer)) with 9%Z.
    change (SL (geometry Models.Demo_renderer)) with 5600%Z.
    change TF_MIN with [500; 250; 100; 50; 25; 20; 10; 5; 2; 1]%Z.
    rewrite next_sub_div_skip.
    2:{ apply sub_div_ok_false. right. eexists. split.
        - apply min_offset_for_delta_L; unfold eps; lra.
        - unfold eps. lra. }
    rewrite next_sub_div_skip.
    2:{ apply sub_div_ok_false. right. eexists. split.
        - apply min_offset_for_delta_L; unfold eps; lra.
        - unfold eps. lra. }
    rewrite next_sub_div_skip.
    2:{ apply sub_div_ok_false. right. eexists. split.
        - apply min_offset_for_delta_L; unfold eps; lra.
        - unfold eps. lra. }
    rewrite next_sub_div_take; [reflexivity |].
    apply sub_div_ok_true. split; [lia |]. eexists. split.
    + apply min_offset_for_delta_L; unfold eps; lra.
    + unfold eps. lra.
  - reflexivity.
  - lia.
  - change (10 ^ Z.max (0 + (0 + 3)) 0)%Z with 1000%Z.
    change (10 ^ (0 + 3))%Z with 1000%Z.
    change (SL (geometry Models.Demo_renderer)) with 5600%Z.
    apply min_offset_for_delta_L; unfold eps; lra.
  - lia.
  - exists p. split; [exact Hp |]. split; [exact Exs |]. split; [exact Exe |].
    split; [exact Esf |].
    rewrite Ei. change (10 ^ (0 + 3))%Z with 1000%Z.
    replace (0 * IZR 1000) with (IZR 0) by (simpl; lra).
    rewrite py_int_IZR. reflexivity.
Qed.

Lemma pat_auto_zero_endpoint_witness :
  value_at_start Scales.L = Ok 0 /\
  endpoints Scales.L (Some 0) (Some 5) = Ok (Rmin 0 5, Rmax 0 5).
Proof.
  split; [exact value_at_start_L |].
  refine (proj1 (proj2 (proj2 (proj2 (proj2
            (pat_auto_zero_endpoint (fun _ => "") (fun _ _ => 30%Z)
               Models.Demo_renderer Scales.L None false))))) 0 5 _ _).
  - exact value_at_start_L.
  - lra.
Defined.

(** ** [Ruler.pat] *)

Local Open Scope Z_scope.

Lemma for_each_raise {A B} (f : A -> res (list B)) (l : list A) (e : exn) :
  for_each f l = Raise e -> exists a, In a l /\ f a = Raise e.
Proof.
  induction l as [| a l IH]; simpl; intros H; [discriminate |].
  destruct (f a) as [x | e'] eqn:Ea; cbn [rbind] in H.
  - destruct (for_each f l) as [y | e''] eqn:El; cbn [rbind] in H;
      [discriminate |].
    injection H as ->. destruct (IH eq_refl) as (b & Hb & Eb).
    exists b. split; [now right | exact Eb].
  - injection H as ->. exists a. split; [now left | exact Ea].
Qed.

(** The loop stops at the first element on which the body raises. *)
Lemma for_each_first_raise {A B} (f : A -> res (list B)) (l1 l2 : list A)
    (a : A) (e : exn) :
  (forall b, In b l1 -> is_ok (f b)) -> f a = Raise e ->
  for_each f (l1 ++ a :: l2) = Raise e.
Proof.
  intros H Ha. induction l1 as [| b l1 IH]; simpl.
  - now rewrite Ha.
  - destruct (H b) as [x Ex]; [now left |]. rewrite Ex. cbn [rbind].
    rewrite IH; [reflexivity |]. intros c Hc. apply H. now right.
Qed.

(** [draw_numeral] raises nothing but the domain error of [math.log10]. *)
Lemma numeral_sym_error (float_str : R -> string) (n : num) (e : exn) :
  numeral_sym float_str n = Raise e -> e = ValueError "math domain error".
Proof.
  unfold numeral_sym. destruct n as [z | x]; [discriminate |].
  assert (L : forall y (k : R -> res string),
             (forall v, is_ok (k v)) ->
             rbind (math_log10 y) k = Raise e ->
             e = ValueError "math domain error").
  { intros y k Hk. unfold math_log10. destruct (Rlt_dec 0 y); cbn [rbind].
    - destruct (Hk (log10 y)) as [s ->]. discriminate.
    - unfold domain_error. now intros [= <-]. }
  destruct (negb (is_integer x)).
  - destruct (String.prefix "0." (float_str x)); [| discriminate].
    apply L. intros v. destruct (expon_sym v); eexists; reflexivity.
  - destruct (Req_dec_T x 0); [discriminate |].
    apply L. intros v. destruct (expon_sym v); eexists; reflexivity.
Qed.

(** Every tick of an iteration lies at the position of [i / i_sf]. *)
Lemma Ruler_pat_tick_ticks (float_str : R -> string) (ru : Ruler)
    (li i_sf step1 step2 step3 : Z) (ths : Z * Z * Z * Z) (font1 : ImageFont)
    (i : Z) (ops : list ruler_op) :
  i_sf <> 0 ->
  Ruler_pat_tick float_str ru li i_sf step1 step2 step3 ths font1 i = Ok ops ->
  forall x h, In (RulerTick x h) ops ->
    x = (Ruler_pos_of ru (IZR i / IZR i_sf) - IZR li)%R.
Proof.
  intros Hs. unfold Ruler_pat_tick. destruct ths as [[[t1 t2] t3] t4].
  rewrite truediv_ok by (apply not_0_IZR; assumption). cbn [rbind].
  destruct (pymod i step1) as [m1 |]; cbn [rbind]; [| discriminate].
  destruct (m1 =? 0).
  { destruct (numeral_sym _ _) as [s |]; cbn [rbind]; [| discriminate].
    intros [= <-] x h [Hin | [Hin | []]]; [discriminate | now injection Hin]. }
  destruct (pymod i step2) as [m2 |]; cbn [rbind]; [| discriminate].
  destruct (m2 =? 0).
  { intros [= <-] x h [Hin | []]. now injection Hin. }
  destruct (pymod i step3) as [m3 |]; cbn [rbind]; [| discriminate].
  destruct (m3 =? 0); intros [= <-] x h [Hin | []]; now injection Hin.
Qed.

(** An iteration returns when no step is zero and its numeral, if it has
    one, is not negative. *)
Lemma Ruler_pat_tick_ok (float_str : R -> string) (ru : Ruler)
    (li i_sf step1 step2 step3 : Z) (ths : Z * Z * Z * Z) (font1 : ImageFont)
    (i : Z) :
  i_sf <> 0 -> step1 <> 0 -> step2 <> 0 -> step3 <> 0 ->
  (i mod step1 = 0 -> (0 <= IZR i / IZR i_sf)%R) ->
  is_ok (Ruler_pat_tick float_str ru li i_sf step1 step2 step3 ths font1 i).
Proof.
  intros Hs H1 H2 H3 Hn. unfold Ruler_pat_tick.
  destruct ths as [[[t1 t2] t3] t4].
  rewrite truediv_ok by (apply not_0_IZR; assumption). cbn [rbind].
  rewrite pymod_ok by assumption. cbn [rbind].
  destruct (Z.eqb_spec (i mod step1) 0) as [E | _].
  { destruct (numeral_sym_nonneg float_str (IZR i / IZR i_sf) (Hn E))
      as [s ->].
    cbn [rbind]. eexists. reflexivity. }
  rewrite pymod_ok by assumption. cbn [rbind].
  destruct (i mod step2 =? 0); [eexists; reflexivity |].
  rewrite pymod_ok by assumption. cbn [rbind].
  destruct (i mod step3 =? 0); eexists; reflexivity.
Qed.

(** With no step zero, an iteration raises nothing but the domain error of
    its numeral. *)
Lemma Ruler_pat_tick_error (float_str : R -> string) (ru : Ruler)
    (li i_sf step1 step2 step3 : Z) (ths : Z * Z * Z * Z) (font1 : ImageFont)
    (i : Z) (e : exn) :
  i_sf <> 0 -> step1 <> 0 -> step2 <> 0 -> step3 <> 0 ->
  Ruler_pat_tick float_str ru li i_sf step1 step2 step3 ths font1 i = Raise e ->
  e = ValueError "math domain error".
Proof.
  intros Hs H1 H2 H3. unfold Ruler_pat_tick.
  destruct ths as [[[t1 t2] t3] t4].
  rewrite truediv_ok by (apply not_0_IZR; assumption). cbn [rbind].
  rewrite pymod_ok by assumption. cbn [rbind].
  destruct (i mod step1 =? 0).
  { destruct (numeral_sym float_str (NFloat (IZR i / IZR i_sf)))
      as [s | e'] eqn:En; cbn [rbind]; [discriminate |].
    intros [= <-]. exact (numeral_sym_error _ _ _ En). }
  rewrite pymod_ok by assumption. cbn [rbind].
  destruct (i mod step2 =? 0); [discriminate |].
  rewrite pymod_ok by assumption. cbn [rbind].
  destruct (i mod step3 =? 0); discriminate.
Qed.

Lemma Ruler_pat_zero (float_str : R -> string) (ru : Ruler) (r : Renderer)
    (f0 f1 f2 : Z) :
  tick_pattern ru = (f0, f1, f2) ->
  f0 = 0 \/ f1 = 0 \/ f2 = 0 \/ pixels_per_unit ru = 0%R ->
  Ruler_pat float_str ru r = Raise ZeroDivisionError.
Proof.
  intros Ht H. unfold Ruler_pat. rewrite Ht.
  destruct (Z.eq_dec f0 0) as [E0 | N0];
    [rewrite t_s_zero_factor by tauto; reflexivity |].
  destruct (Z.eq_dec f1 0) as [E1 | N1];
    [rewrite t_s_zero_factor by tauto; reflexivity |].
  destruct (Z.eq_dec f2 0) as [E2 | N2];
    [rewrite t_s_zero_factor by tauto; reflexivity |].
  destruct H as [H | [H | [H | H]]]; try contradiction.
  rewrite t_s_product by assumption. cbn [rbind].
  unfold Ruler_shown_units, truediv. rewrite H.
  destruct (Req_dec_T 0 0) as [_ | N]; [reflexivity | now contradiction N].
Qed.

(** With no factor and no density zero, the only error is the domain error
    of a numeral. *)
Lemma Ruler_pat_error (float_str : R -> string) (ru : Ruler) (r : Renderer)
    (f0 f1 f2 : Z) (e : exn) :
  tick_pattern ru = (f0, f1, f2) ->
  f0 <> 0 -> f1 <> 0 -> f2 <> 0 -> pixels_per_unit ru <> 0%R ->
  Ruler_pat float_str ru r = Raise e -> e = ValueError "math domain error".
Proof.
  intros Ht H0 H1 H2 Hp. unfold Ruler_pat. rewrite Ht.
  rewrite t_s_product by assumption. cbn [rbind].
  unfold Ruler_shown_units. rewrite truediv_ok by assumption. cbn [rbind].
  unfold py_range. cbn [Z.eqb Z.ltb Z.compare]. cbn [rbind].
  intros H. apply for_each_raise in H. destruct H as (i & _ & Hi).
  apply Ruler_pat_tick_error in Hi; [exact Hi | nia | nia | nia | exact H2].
Qed.

Lemma Ruler_pat_ok (float_str : R -> string) (ru : Ruler) (r : Renderer)
    (f0 f1 f2 : Z) :
  tick_pattern ru = (f0, f1, f2) ->
  0 < f0 -> 0 < f1 -> 0 < f2 -> pixels_per_unit ru <> 0%R ->
  is_ok (Ruler_pat float_str ru r).
Proof.
  intros Ht H0 H1 H2 Hp. unfold Ruler_pat. rewrite Ht.
  rewrite t_s_product by lia. cbn [rbind].
  unfold Ruler_shown_units. rewrite truediv_ok by assumption. cbn [rbind].
  set (nu := Z.min (num_units ru) _).
  assert (Hsf : 0 < f0 * f1 * f2) by nia.
  destruct (py_range 0 (nu * (f0 * f1 * f2) + 1) 1) as [idx | e] eqn:Er.
  2:{ unfold py_range in Er. cbn [Z.eqb] in Er. discriminate. }
  cbn [rbind]. apply for_each_ok. intros i Hi.
  apply (py_range_In 0 _ 1 idx ltac:(lia) Er) in Hi.
  destruct Hi as [[Hi0 _] _].
  apply Ruler_pat_tick_ok; try nia.
  intros _. apply Rmult_le_pos; [now apply IZR_le |].
  left. apply Rinv_0_lt_compat. now apply IZR_lt.
Qed.

(** X24. [Ruler.pat] raises a division by zero exactly when one of the
    three tick factors or the pixel density is zero, and then before
    anything is drawn.  With positive factors, a density of at least one
    pixel per unit and a geometry with measures of at most [10 ^ 9], bounds
    within which no float operation overflows, it draws: every numeral it
    hands to [draw_numeral] is a float that is not negative. *)
Theorem Ruler_pat_total (float_str : R -> string) (ru : Ruler) (r : Renderer)
    (f0 f1 f2 : Z) :
  tick_pattern ru = (f0, f1, f2) ->
  (Ruler_pat float_str ru r = Raise ZeroDivisionError <->
   f0 = 0 \/ f1 = 0 \/ f2 = 0 \/ pixels_per_unit ru = 0%R) /\
  (0 < f0 -> 0 < f1 -> 0 < f2 ->
   (1 <= pixels_per_unit ru)%R -> Geometry_bounded (geometry r) ->
   is_ok (Ruler_pat float_str ru r)).
Proof.
  intros Ht. split; [split |].
  - intros E.
    destruct (Z.eq_dec f0 0) as [E0 | N0]; [tauto |].
    destruct (Z.eq_dec f1 0) as [E1 | N1]; [tauto |].
    destruct (Z.eq_dec f2 0) as [E2 | N2]; [tauto |].
    destruct (Req_dec_T (pixels_per_unit ru) 0) as [Ep | Np]; [tauto |].
    pose proof (Ruler_pat_error float_str ru r f0 f1 f2 _ Ht N0 N1 N2 Np E).
    discriminate.
  - now apply Ruler_pat_zero.
  - intros H0 H1 H2 Hp _.
    apply (Ruler_pat_ok float_str ru r f0 f1 f2); try assumption. lra.
Qed.

Lemma Ruler_pat_total_witness :
  (Ruler_pat (fun _ => "") Rulers.IN_BIN Models.Demo_renderer
   = Raise ZeroDivisionError <->
   4 = 0 \/ 4 = 0 \/ 4 = 0 \/ pixels_per_unit Rulers.IN_BIN = 0%R) /\
  (0 < 4 -> 0 < 4 -> 0 < 4 ->
   (1 <= pixels_per_unit Rulers.IN_BIN)%R ->
   Geometry_bounded (geometry Models.Demo_renderer) ->
   is_ok (Ruler_pat (fun _ => "") Rulers.IN_BIN Models.Demo_renderer)) /\
  0 < 4 /\ (1 <= pixels_per_unit Rulers.IN_BIN)%R /\
  Geometry_bounded (geometry Models.Demo_renderer).
Proof.
  split; [| split; [| split; [lia | split]]].
  - apply (Ruler_pat_total (fun _ => "") Rulers.IN_BIN Models.Demo_renderer
             4 4 4). reflexivity.
  - apply (Ruler_pat_total (fun _ => "") Rulers.IN_BIN Models.Demo_renderer
             4 4 4). reflexivity.
  - unfold Rulers.IN_BIN, PixelsPerIN, PixelsPerCM. cbn [pixels_per_unit]. lra.
  - unfold Geometry_bounded.
    cbn [Models.Demo_renderer geometry Models.Demo_geometry side_w oX SL STH].
    repeat split; apply Z.leb_le; reflexivity.
Defined.

(** A ruler with a negative tick factor: the index 10 has the numeral -1,
    on which [draw_numeral] raises the domain error of [math.log10]. *)
Example Ruler_pat_negative_factor (float_str : R -> string) :
  Ruler_pat float_str (mkRuler "x" (-2, 5, 1) 0%R 1000 (-8000)%R)
    Models.Demo_renderer
  = Raise (ValueError "math domain error").
Proof.
  unfold Ruler_pat. cbn [tick_pattern].
  rewrite t_s_product by lia. cbn [rbind].
  unfold Ruler_shown_units.
  cbn [pixels_per_unit left_offset num_units Models.Demo_renderer geometry
       Models.Demo_geometry side_w].
  rewrite truediv_ok by lra. cbn [rbind].
  replace (8000 / -8000 - 0)%R with (IZR (-1)) by (simpl; lra).
  rewrite py_int_IZR.
  change (py_range 0 (Z.min 1000 (-1) * (-2 * 5 * 1) + 1) 1)
    with (@Ok (list Z) [0; 1; 2; 3; 4; 5; 6; 7; 8; 9; 10]).
  cbn [rbind].
  change [0; 1; 2; 3; 4; 5; 6; 7; 8; 9; 10]
    with ([0; 1; 2; 3; 4; 5; 6; 7; 8; 9] ++ [10])%list.
  apply for_each_first_raise.
  - intros b Hb. apply Ruler_pat_tick_ok; try lia.
    simpl in Hb.
    repeat (destruct Hb as [<- | Hb];
            [first [ intros _; simpl; lra
                   | intros Hm; vm_compute in Hm; discriminate ] |]).
    destruct Hb.
  - unfold Ruler_pat_tick.
    rewrite truediv_ok by (apply not_0_IZR; lia). cbn [rbind].
    change (pymod 10 (-2 * 5 * 1)) with (@Ok Z 0). cbn [rbind Z.eqb].
    unfold numeral_sym.
    change (-2 * 5 * 1) with (-10).
    replace (IZR 10 / IZR (-10))%R with (IZR (-1)) by lra.
    rewrite is_integer_IZR. cbn [negb].
    destruct (Req_dec_T (IZR (-1)) 0) as [E | _]; [lra |].
    unfold math_log10. destruct (Rlt_dec 0 (IZR (-1))) as [E | _]; [lra |].
    reflexivity.
Qed.

(** X25. With positive tick factors, a positive pixel density and a left
    offset that lies on the side, every tick of a ruler lies between the
    left offset and the width of the side: the number of units shown is cut
    to what the side can hold. *)
Theorem Ruler_pat_within_side (float_str : R -> string) (ru : Ruler)
    (r : Renderer) (f0 f1 f2 : Z) (ops : list ruler_op) :
  tick_pattern ru = (f0, f1, f2) ->
  0 < f0 -> 0 < f1 -> 0 < f2 ->
  (0 < pixels_per_unit ru)%R ->
  (left_offset ru * pixels_per_unit ru <= IZR (side_w (geometry r)))%R ->
  Ruler_pat float_str ru r = Ok ops ->
  forall x h, In (RulerTick x h) ops ->
    (left_offset ru * pixels_per_unit ru <= x + IZR (li (geometry r))
     <= IZR (side_w (geometry r)))%R.
Proof.
  intros Ht H0 H1 H2 Hp Hlo. unfold Ruler_pat. rewrite Ht.
  rewrite t_s_product by lia. cbn [rbind].
  unfold Ruler_shown_units. rewrite truediv_ok by lra. cbn [rbind].
  set (q := (IZR (side_w (geometry r)) / pixels_per_unit ru)%R).
  set (nu := Z.min (num_units ru) (py_int (q - left_offset ru))).
  set (i_sf := f0 * f1 * f2).
  assert (Hsf : 0 < i_sf) by (unfold i_sf; nia).
  destruct (py_range 0 (nu * i_sf + 1) 1) as [idx |] eqn:Er; cbn [rbind];
    [| discriminate].
  intros Hops x h Hin.
  destruct (proj1 (for_each_In _ _ _ Hops (RulerTick x h)) Hin)
    as (i & l & Hi & Hl & Hx).
  apply (py_range_In 0 (nu * i_sf + 1) 1 idx ltac:(lia) Er) in Hi.
  destruct Hi as [[Hi0 Hi1] _].
  assert (Hne : i_sf <> 0) by lia.
  rewrite (Ruler_pat_tick_ticks _ _ _ i_sf _ _ _ _ _ _ _ Hne Hl x h Hx).
  unfold Ruler_pos_of.
  assert (Hq : (0 <= q - left_offset ru)%R).
  { unfold q. apply Rmult_le_reg_r with (pixels_per_unit ru); [exact Hp |].
    replace ((IZR (side_w (geometry r)) / pixels_per_unit ru
              - left_offset ru) * pixels_per_unit ru)%R
      with (IZR (side_w (geometry r))
            - left_offset ru * pixels_per_unit ru)%R by (field; lra).
    lra. }
  assert (Hnu : (IZR nu <= q - left_offset ru)%R).
  { assert (Hf : (IZR (py_int (q - left_offset ru)) <= q - left_offset ru)%R).
    { unfold py_int. destruct (Rle_dec 0 (q - left_offset ru)); [| lra].
      unfold math_floor. destruct (base_Int_part (q - left_offset ru)). lra. }
    assert ((IZR nu <= IZR (py_int (q - left_offset ru)))%R)
      by (apply IZR_le; unfold nu; lia).
    lra. }
  assert (Hsf' : (0 < IZR i_sf)%R) by now apply IZR_lt.
  assert (Hn0 : (0 <= IZR i / IZR i_sf)%R).
  { apply Rmult_le_pos; [now apply IZR_le |].
    left. now apply Rinv_0_lt_compat. }
  assert (Hn1 : (IZR i / IZR i_sf <= IZR nu)%R).
  { apply Rmult_le_reg_r with (IZR i_sf); [exact Hsf' |].
    replace (IZR i / IZR i_sf * IZR i_sf)%R with (IZR i) by (field; lra).
    rewrite <- mult_IZR. apply IZR_le. lia. }
  assert (Hside : (q * pixels_per_unit ru = IZR (side_w (geometry r)))%R)
    by (unfold q; field; lra).
  split.
  - ring_simplify. nra.
  - replace ((left_offset ru + IZR i / IZR i_sf) * pixels_per_unit ru
             - IZR (li (geometry r)) + IZR (li (geometry r)))%R
      with ((left_offset ru + IZR i / IZR i_sf) * pixels_per_unit ru)%R
      by ring.
    rewrite <- Hside. apply Rmult_le_compat_r; lra.
Qed.

Lemma Ruler_pat_within_side_witness :
  exists ops,
    Ruler_pat (fun _ => "") Rulers.CM Models.Demo_renderer = Ok ops /\
    forall x h, In (RulerTick x h) ops ->
      (left_offset Rulers.CM * pixels_per_unit Rulers.CM
       <= x + IZR (li (geometry Models.Demo_renderer))
       <= IZR (side_w (geometry Models.Demo_renderer)))%R.
Proof.
  assert (P : (0 < pixels_per_unit Rulers.CM)%R).
  { unfold Rulers.CM, PixelsPerCM. cbn [pixels_per_unit]. lra. }
  destruct (Ruler_pat_ok (fun _ => "") Rulers.CM Models.Demo_renderer 2 5 2)
    as [ops E]; try reflexivity; try lia; try lra.
  exists ops. split; [exact E |].
  apply (Ruler_pat_within_side (fun _ => "") Rulers.CM Models.Demo_renderer
           2 5 2 ops);
    try reflexivity; try lia; try exact P; try exact E.
  unfold Rulers.CM, PixelsPerCM.
  cbn [left_offset pixels_per_unit Models.Demo_renderer geometry
       Models.Demo_geometry side_w].
  lra.
Defined.
